(** * Wealth metrics: the compounding walk and the market-series responder

    A shallow embedding of [server/src/index.ts]: the static return tables,
    the transaction filter of the [/api/calculate-compound] handler,
    [generateRealisticMarketData] and [calculateCompoundInterestWithDates],
    and of the figures that the client draws from the transactions before
    it calls the server ([client/src/App.tsx] and
    [client/src/components/CompoundCalculator.tsx]), followed by the
    properties established about them.

    Conventions of the embedding.
    - A JavaScript [number] that holds money or a rate is an exact rational
      ([Q], kept in lowest terms by every operation).  IEEE-754 rounding
      error is not represented.  The only [NaN] the two functions can
      compute from finite inputs is the [0 / 0] of an average over an empty
      list of years; it is the [None] of an [option Q].
    - A [Date] is either [InvalidDate] or the calendar fields that the local
      getters ([getFullYear], [getMonth], ...) read.  Parsing a string into
      a [Date] is outside the embedding.  Comparing two dates compares
      their time values, which is the lexicographic order of the fields.
      The text of [toISOString] is in UTC: it is kept as an [ISODate], and
      [utc_day] gives the calendar day that it names on a host that stands
      a given number of milliseconds ahead of UTC.
      The years 0..99, which the [Date] constructor of line 406 reads as
      1900..1999, are not treated apart.
    - A JavaScript exception is the [Throw] of a [Completion]. *)

From Stdlib Require Import ZArith QArith Qround Qminmax Qabs Bool.
From Stdlib Require Import String Ascii List Lia Lqa DecimalString DecimalPos.
From Stdlib Require Import Permutation Sorted.
Import ListNotations.

(* ------------------------------------------------------------------ *)
(** ** Numbers *)

Module JS.

Definition add (x y : Q) : Q := Qred (x + y).
Definition sub (x y : Q) : Q := Qred (x - y).
Definition mul (x y : Q) : Q := Qred (x * y).
Definition div (x y : Q) : Q := Qred (x / y).

(** [Math.min], [Math.max], [Math.abs]. *)
Definition min (x y : Q) : Q := Qred (Qmin x y).
Definition max (x y : Q) : Q := Qred (Qmax x y).
Definition abs (x : Q) : Q := Qred (Qabs x).

(** [x < y], [x > y], [x === y] on finite numbers. *)
Definition ltb (x y : Q) : bool :=
  match x ?= y with Lt => true | _ => false end.
Definition gtb (x y : Q) : bool := ltb y x.
Definition eqb (x y : Q) : bool := Qeq_bool x y.

(** Truthiness of a finite number: every number but zero. *)
Definition truthy (x : Q) : bool := negb (Qeq_bool x 0).

(** [a || b] on numbers. *)
Definition or_else (a : option Q) (b : Q) : Q :=
  match a with
  | Some x => if truthy x then x else b
  | None => b
  end.

(** [Math.round]: the nearest integer, a tie going up. *)
Definition round (x : Q) : Z := Qfloor (x + (1 # 2)).

(** [Math.round(x * 100) / 100]. *)
Definition round2 (x : Q) : Q :=
  div (inject_Z (round (mul x 100))) 100.

(** Decimal digits of an integer. *)
Definition digits (z : Z) : string := NilZero.string_of_int (Z.to_int z).

Definition two_digits (z : Z) : string :=
  if (z <? 10)%Z then ("0" ++ digits z)%string else digits z.

(** [x.toFixed(2)] for a finite [x] below 1e21: the sign is taken off
    first, the magnitude is rounded to hundredths with a tie going to the
    larger candidate, and the integer part is written in full. *)
Definition toFixed2 (x : Q) : string :=
  let n := Qfloor (Qabs x * 100 + (1 # 2)) in
  ((if ltb x 0 then "-" else "") ++
   digits (n / 100) ++ "." ++ two_digits (n mod 100))%string.

(** [toFixed(2)] of a value that may be [NaN]. *)
Definition toFixed2_nan (x : option Q) : string :=
  match x with
  | Some q => toFixed2 q
  | None => "NaN"%string
  end.

End JS.

(* ------------------------------------------------------------------ *)
(** ** Exceptions *)

Inductive JSError : Type :=
| RangeError   (* Date.prototype.toISOString on an invalid date *)
| TypeError.   (* property read on undefined *)

Inductive Completion (A : Type) : Type :=
| Normal (a : A)
| Throw (e : JSError).

Arguments Normal {A} a.
Arguments Throw {A} e.

Definition bind {A B : Type} (c : Completion A) (k : A -> Completion B)
  : Completion B :=
  match c with
  | Normal a => k a
  | Throw e => Throw e
  end.

Notation "x <- c ;; k" := (bind c (fun x => k))
  (at level 61, c at next level, right associativity).

(* ------------------------------------------------------------------ *)
(** ** Dates *)

Record DateFields : Type := mkDate {
  dYear  : Z;   (* getFullYear() *)
  dMonth : Z;   (* getMonth(), 0-11 *)
  dDay   : Z;   (* getDate(), 1-31 *)
  dMs    : Z    (* milliseconds since local midnight *)
}.

Inductive JSDate : Type :=
| InvalidDate
| ValidDate (f : DateFields).

(** The month index of a date read by [getMonth] lies in 0..11. *)
Definition wf_fields (f : DateFields) : Prop :=
  (0 <= dMonth f <= 11)%Z.

(** [d.setHours(12, 0, 0, 0)]. *)
Definition setHoursNoon (d : JSDate) : JSDate :=
  match d with
  | InvalidDate => InvalidDate
  | ValidDate f => ValidDate (mkDate (dYear f) (dMonth f) (dDay f) 43200000)
  end.

(** The text [d.toISOString().split('T')[0]] of a valid date [d] with the
    local fields [f].  It spells the calendar day of the instant of [d] in
    UTC, so the day that it names depends on how far the clock of the host
    stands from UTC at that instant; [utc_day] reads it for a given host. *)
Inductive ISODate : Type :=
| isoDateOf (f : DateFields).

(** [d.toISOString().split('T')[0]]: throws on an invalid date. *)
Definition toISODate (d : JSDate) : Completion ISODate :=
  match d with
  | InvalidDate => Throw RangeError
  | ValidDate f => Normal (isoDateOf f)
  end.

(** A calendar day as an ISO date spells it: the year, the month 1-12 and
    the day of the month. *)
Record CalendarDay : Type := mkDay {
  c_year : Z;
  c_month : Z;
  c_day : Z
}.

Definition leap_year (y : Z) : bool :=
  (((y mod 4 =? 0) && negb (y mod 100 =? 0)) || (y mod 400 =? 0))%Z.

(** The days of the month with index [m] (0-11) of the year [y]. *)
Definition days_in_month (y m : Z) : Z :=
  if (m =? 1)%Z then (if leap_year y then 29 else 28)%Z
  else if ((m =? 3) || (m =? 5) || (m =? 8) || (m =? 10))%Z then 30%Z
  else 31%Z.

(** The day before and the day after the day [d] of the month with index
    [m] (0-11) of the year [y]. *)
Definition day_before (y m d : Z) : CalendarDay :=
  if (1 <? d)%Z then mkDay y (m + 1) (d - 1)
  else if (0 <? m)%Z then mkDay y m (days_in_month y (m - 1))
  else mkDay (y - 1) 12 31.

Definition day_after (y m d : Z) : CalendarDay :=
  if (d <? days_in_month y m)%Z then mkDay y (m + 1) (d + 1)
  else if (m <? 11)%Z then mkDay y (m + 2) 1
  else mkDay (y + 1) 1 1.

(** The day that an ISO date names on a host whose local time is [east]
    milliseconds ahead of UTC at that instant (a negative [east] is a host
    behind UTC; [d.getTimezoneOffset()] is [- east / 60000]).  An offset is
    less than a day, so the day in UTC is the local day, the day before it
    or the day after it. *)
Definition utc_day (east : Z) (d : ISODate) : CalendarDay :=
  match d with
  | isoDateOf f =>
    let ms := (dMs f - east)%Z in
    if (ms <? 0)%Z then day_before (dYear f) (dMonth f) (dDay f)
    else if (ms <? 86400000)%Z then mkDay (dYear f) (dMonth f + 1) (dDay f)
    else day_after (dYear f) (dMonth f) (dDay f)
  end.

(** Order of time values. *)
Definition date_compare (a b : DateFields) : comparison :=
  match (dYear a ?= dYear b)%Z with
  | Eq => match (dMonth a ?= dMonth b)%Z with
          | Eq => match (dDay a ?= dDay b)%Z with
                  | Eq => (dMs a ?= dMs b)%Z
                  | c => c
                  end
          | c => c
          end
  | c => c
  end.

(** [a > b] on two valid dates. *)
Definition date_gtb (a b : DateFields) : bool :=
  match date_compare a b with Gt => true | _ => false end.

(** [a.getTime() - b.getTime() <= 0]: [a] does not come after [b]. *)
Definition date_leb (a b : DateFields) : bool := negb (date_gtb a b).

(* ------------------------------------------------------------------ *)
(** ** Objects used as maps *)

(** An object with string keys, in insertion order. *)
Fixpoint lookup {A : Type} (k : string) (o : list (string * A)) : option A :=
  match o with
  | [] => None
  | (k', v) :: o' => if String.eqb k k' then Some v else lookup k o'
  end.

(** [HistoricalReturns]: year to annual return.  Integer keys are
    enumerated by [Object.keys] in ascending order, the order of the list. *)
Definition HistoricalReturns : Type := list (Z * Q).

Fixpoint year_lookup (y : Z) (t : HistoricalReturns) : option Q :=
  match t with
  | [] => None
  | (y', r) :: t' => if (y =? y')%Z then Some r else year_lookup y t'
  end.

Definition AllHistoricalReturns : Type := list (string * HistoricalReturns).

(** [MarketIndex]; the [historicalData] array is only served by the legacy
    endpoint and is read by neither function below. *)
Record MarketIndex : Type := mkIndex {
  name : string;
  averageReturn : Q
}.

Open Scope Q_scope.

(* ------------------------------------------------------------------ *)
(** ** Static data *)

(** [MARKET_INDICES]: the recognized market indices. *)
Definition MARKET_INDICES : list (string * MarketIndex) :=
  [ ("sp500"%string,       mkIndex "S&P 500" 0.10);
    ("nasdaq"%string,      mkIndex "NASDAQ" 0.115);
    ("dow"%string,         mkIndex "Dow Jones" 0.095);
    ("russell2000"%string, mkIndex "Russell 2000" 0.092);
    ("ftse100"%string,     mkIndex "FTSE 100" 0.075);
    ("nikkei225"%string,   mkIndex "Nikkei 225" 0.085) ].

(** A market index is recognized when it is a key of [MARKET_INDICES]; the
    request handlers answer 400 for any other key. *)
Definition recognized (index : string) : bool :=
  match lookup index MARKET_INDICES with
  | Some _ => true
  | None => false
  end.

(** [historicalReturns] of [generateRealisticMarketData]. *)
Definition generator_historicalReturns : AllHistoricalReturns :=
  [("sp500"%string,
     [
      (1990%Z, 0.0310); (1991%Z, 0.3047); (1992%Z, 0.0762); (1993%Z, 0.1008); (1994%Z, 0.0132);
      (1995%Z, 0.3758); (1996%Z, 0.2296); (1997%Z, 0.3336); (1998%Z, 0.2858); (1999%Z, 0.2104);
      (2000%Z, -0.0910); (2001%Z, -0.1189); (2002%Z, -0.2210); (2003%Z, 0.2868); (2004%Z, 0.1088);
      (2005%Z, 0.0491); (2006%Z, 0.1579); (2007%Z, 0.0549); (2008%Z, -0.3700); (2009%Z, 0.2646);
      (2010%Z, 0.1506); (2011%Z, 0.0211); (2012%Z, 0.1600); (2013%Z, 0.3239); (2014%Z, 0.1369);
      (2015%Z, 0.0138); (2016%Z, 0.1196); (2017%Z, 0.2183); (2018%Z, -0.0438); (2019%Z, 0.3157);
      (2020%Z, 0.1640); (2021%Z, 0.2689); (2022%Z, -0.1954); (2023%Z, 0.2411); (2024%Z, 0.12)
     ]);
   ("dow"%string,
     [
      (1990%Z, 0.0404); (1991%Z, 0.2014); (1992%Z, 0.0421); (1993%Z, 0.1372); (1994%Z, 0.0213);
      (1995%Z, 0.3336); (1996%Z, 0.2615); (1997%Z, 0.2275); (1998%Z, 0.1611); (1999%Z, 0.2725);
      (2000%Z, -0.0618); (2001%Z, -0.0715); (2002%Z, -0.1693); (2003%Z, 0.2514); (2004%Z, 0.0317);
      (2005%Z, -0.0061); (2006%Z, 0.1606); (2007%Z, 0.0626); (2008%Z, -0.3394); (2009%Z, 0.1876);
      (2010%Z, 0.1102); (2011%Z, 0.0554); (2012%Z, 0.0726); (2013%Z, 0.2654); (2014%Z, 0.0751);
      (2015%Z, -0.0234); (2016%Z, 0.1342); (2017%Z, 0.2517); (2018%Z, -0.0587); (2019%Z, 0.2234);
      (2020%Z, 0.0725); (2021%Z, 0.1885); (2022%Z, -0.0856); (2023%Z, 0.1397); (2024%Z, 0.095)
     ]);
   ("nasdaq"%string,
     [
      (1990%Z, -0.1746); (1991%Z, 0.5648); (1992%Z, 0.1561); (1993%Z, 0.1456); (1994%Z, -0.0318);
      (1995%Z, 0.3963); (1996%Z, 0.2267); (1997%Z, 0.2144); (1998%Z, 0.3969); (1999%Z, 0.8550);
      (2000%Z, -0.3910); (2001%Z, -0.2102); (2002%Z, -0.3155); (2003%Z, 0.5015); (2004%Z, 0.0885);
      (2005%Z, 0.0135); (2006%Z, 0.0956); (2007%Z, 0.0975); (2008%Z, -0.4018); (2009%Z, 0.4338);
      (2010%Z, 0.1694); (2011%Z, -0.0180); (2012%Z, 0.1574); (2013%Z, 0.3848); (2014%Z, 0.1351);
      (2015%Z, 0.0559); (2016%Z, 0.0739); (2017%Z, 0.2836); (2018%Z, -0.0356); (2019%Z, 0.3556);
      (2020%Z, 0.4391); (2021%Z, 0.2103); (2022%Z, -0.3256); (2023%Z, 0.4381); (2024%Z, 0.115)
     ]);
   ("russell2000"%string,
     [
      (1990%Z, -0.1949); (1991%Z, 0.4621); (1992%Z, 0.1835); (1993%Z, 0.2109); (1994%Z, -0.0185);
      (1995%Z, 0.2875); (1996%Z, 0.1643); (1997%Z, 0.2236); (1998%Z, -0.0251); (1999%Z, 0.2123);
      (2000%Z, -0.0303); (2001%Z, 0.0249); (2002%Z, -0.2044); (2003%Z, 0.4741); (2004%Z, 0.1825);
      (2005%Z, 0.0484); (2006%Z, 0.1837); (2007%Z, -0.0157); (2008%Z, -0.3349); (2009%Z, 0.2746);
      (2010%Z, 0.2688); (2011%Z, -0.0412); (2012%Z, 0.1609); (2013%Z, 0.3870); (2014%Z, 0.0489);
      (2015%Z, -0.0441); (2016%Z, 0.2123); (2017%Z, 0.1449); (2018%Z, -0.1151); (2019%Z, 0.2517);
      (2020%Z, 0.1994); (2021%Z, 0.1462); (2022%Z, -0.2044); (2023%Z, 0.1665); (2024%Z, 0.092)
     ]);
   ("ftse100"%string,
     [
      (1990%Z, -0.0935); (1991%Z, 0.1634); (1992%Z, 0.1985); (1993%Z, 0.2834); (1994%Z, -0.0954);
      (1995%Z, 0.2034); (1996%Z, 0.1185); (1997%Z, 0.2485); (1998%Z, 0.1434); (1999%Z, 0.1785);
      (2000%Z, -0.1034); (2001%Z, -0.1385); (2002%Z, -0.2485); (2003%Z, 0.1385); (2004%Z, 0.0785);
      (2005%Z, 0.1634); (2006%Z, 0.1034); (2007%Z, 0.0385); (2008%Z, -0.3134); (2009%Z, 0.2234);
      (2010%Z, 0.0934); (2011%Z, -0.0585); (2012%Z, 0.0585); (2013%Z, 0.1434); (2014%Z, -0.0234);
      (2015%Z, -0.0485); (2016%Z, 0.1434); (2017%Z, 0.0734); (2018%Z, -0.1234); (2019%Z, 0.1234);
      (2020%Z, -0.1434); (2021%Z, 0.1434); (2022%Z, 0.0034); (2023%Z, 0.0384); (2024%Z, 0.075)
     ]);
   ("nikkei225"%string,
     [
      (1990%Z, -0.3834); (1991%Z, 0.0434); (1992%Z, -0.2634); (1993%Z, 0.0334); (1994%Z, 0.1334);
      (1995%Z, -0.0134); (1996%Z, -0.0334); (1997%Z, -0.2134); (1998%Z, -0.0934); (1999%Z, 0.3634);
      (2000%Z, -0.2734); (2001%Z, -0.2334); (2002%Z, -0.1834); (2003%Z, 0.2434); (2004%Z, 0.0734);
      (2005%Z, 0.4034); (2006%Z, 0.0634); (2007%Z, -0.1134); (2008%Z, -0.4234); (2009%Z, 0.1934);
      (2010%Z, -0.0334); (2011%Z, -0.1734); (2012%Z, 0.2284); (2013%Z, 0.5684); (2014%Z, -0.0834);
      (2015%Z, 0.0934); (2016%Z, -0.0234); (2017%Z, 0.1934); (2018%Z, -0.1234); (2019%Z, 0.1834);
      (2020%Z, 0.1634); (2021%Z, 0.0434); (2022%Z, -0.0934); (2023%Z, 0.2834); (2024%Z, 0.095)
     ])
  ].

(** [allHistoricalReturns] of [calculateCompoundInterestWithDates]. *)
Definition allHistoricalReturns : AllHistoricalReturns :=
  [("sp500"%string,
     [
      (1990%Z, 0.0310); (1991%Z, 0.3047); (1992%Z, 0.0762); (1993%Z, 0.1008); (1994%Z, 0.0132);
      (1995%Z, 0.3758); (1996%Z, 0.2296); (1997%Z, 0.3336); (1998%Z, 0.2858); (1999%Z, 0.2104);
      (2000%Z, -0.0910); (2001%Z, -0.1189); (2002%Z, -0.2210); (2003%Z, 0.2868); (2004%Z, 0.1088);
      (2005%Z, 0.0491); (2006%Z, 0.1579); (2007%Z, 0.0549); (2008%Z, -0.3700); (2009%Z, 0.2646);
      (2010%Z, 0.1506); (2011%Z, 0.0211); (2012%Z, 0.1600); (2013%Z, 0.3239); (2014%Z, 0.1369);
      (2015%Z, 0.0138); (2016%Z, 0.1196); (2017%Z, 0.2183); (2018%Z, -0.0438); (2019%Z, 0.3157);
      (2020%Z, 0.1640); (2021%Z, 0.2689); (2022%Z, -0.1954); (2023%Z, 0.2411); (2024%Z, 0.12)
     ]);
   ("dowjones"%string,
     [
      (1990%Z, 0.0404); (1991%Z, 0.2014); (1992%Z, 0.0421); (1993%Z, 0.1372); (1994%Z, 0.0213);
      (1995%Z, 0.3336); (1996%Z, 0.2615); (1997%Z, 0.2275); (1998%Z, 0.1611); (1999%Z, 0.2725);
      (2000%Z, -0.0618); (2001%Z, -0.0715); (2002%Z, -0.1693); (2003%Z, 0.2514); (2004%Z, 0.0317);
      (2005%Z, -0.0061); (2006%Z, 0.1606); (2007%Z, 0.0626); (2008%Z, -0.3394); (2009%Z, 0.1876);
      (2010%Z, 0.1102); (2011%Z, 0.0554); (2012%Z, 0.0726); (2013%Z, 0.2654); (2014%Z, 0.0751);
      (2015%Z, -0.0234); (2016%Z, 0.1342); (2017%Z, 0.2517); (2018%Z, -0.0587); (2019%Z, 0.2234);
      (2020%Z, 0.0725); (2021%Z, 0.1885); (2022%Z, -0.0856); (2023%Z, 0.1397); (2024%Z, 0.095)
     ]);
   ("nasdaq"%string,
     [
      (1990%Z, -0.1746); (1991%Z, 0.5648); (1992%Z, 0.1561); (1993%Z, 0.1456); (1994%Z, -0.0318);
      (1995%Z, 0.3963); (1996%Z, 0.2267); (1997%Z, 0.2144); (1998%Z, 0.3969); (1999%Z, 0.8550);
      (2000%Z, -0.3910); (2001%Z, -0.2102); (2002%Z, -0.3155); (2003%Z, 0.5015); (2004%Z, 0.0885);
      (2005%Z, 0.0135); (2006%Z, 0.0956); (2007%Z, 0.0975); (2008%Z, -0.4018); (2009%Z, 0.4338);
      (2010%Z, 0.1694); (2011%Z, -0.0180); (2012%Z, 0.1574); (2013%Z, 0.3848); (2014%Z, 0.1351);
      (2015%Z, 0.0559); (2016%Z, 0.0739); (2017%Z, 0.2836); (2018%Z, -0.0356); (2019%Z, 0.3556);
      (2020%Z, 0.4391); (2021%Z, 0.2103); (2022%Z, -0.3256); (2023%Z, 0.4381); (2024%Z, 0.115)
     ]);
   ("russell2000"%string,
     [
      (1990%Z, -0.1949); (1991%Z, 0.4621); (1992%Z, 0.1835); (1993%Z, 0.2109); (1994%Z, -0.0185);
      (1995%Z, 0.2875); (1996%Z, 0.1643); (1997%Z, 0.2236); (1998%Z, -0.0251); (1999%Z, 0.2123);
      (2000%Z, -0.0303); (2001%Z, 0.0249); (2002%Z, -0.2044); (2003%Z, 0.4741); (2004%Z, 0.1825);
      (2005%Z, 0.0484); (2006%Z, 0.1837); (2007%Z, -0.0157); (2008%Z, -0.3349); (2009%Z, 0.2746);
      (2010%Z, 0.2688); (2011%Z, -0.0412); (2012%Z, 0.1609); (2013%Z, 0.3870); (2014%Z, 0.0489);
      (2015%Z, -0.0441); (2016%Z, 0.2123); (2017%Z, 0.1449); (2018%Z, -0.1151); (2019%Z, 0.2517);
      (2020%Z, 0.1994); (2021%Z, 0.1462); (2022%Z, -0.2044); (2023%Z, 0.1665); (2024%Z, 0.092)
     ])
  ].

(* ------------------------------------------------------------------ *)
(** ** Date getters that may read [NaN] *)

(** [d.getFullYear()] and [d.getMonth()]; [None] is the [NaN] of an invalid
    date.  Every comparison with [NaN] is false. *)
Definition getFullYear (d : JSDate) : option Z :=
  match d with
  | InvalidDate => None
  | ValidDate f => Some (dYear f)
  end.

Definition getMonth (d : JSDate) : option Z :=
  match d with
  | InvalidDate => None
  | ValidDate f => Some (dMonth f)
  end.

Definition nan_ltb (a b : option Z) : bool :=
  match a, b with
  | Some x, Some y => (x <? y)%Z
  | _, _ => false
  end.

Definition nan_leb (a b : option Z) : bool :=
  match a, b with
  | Some x, Some y => (x <=? y)%Z
  | _, _ => false
  end.

Definition nan_eqb (a b : option Z) : bool :=
  match a, b with
  | Some x, Some y => (x =? y)%Z
  | _, _ => false
  end.

(** [xs.reduce((sum, x) => sum + x, 0) / xs.length]; [0 / 0] is [NaN]. *)
Definition sum (xs : list Q) : Q := fold_left JS.add xs 0.

Definition average (xs : list Q) : option Q :=
  match xs with
  | [] => None
  | _ :: _ => Some (JS.div (sum xs) (inject_Z (Z.of_nat (length xs))))
  end.

(* ------------------------------------------------------------------ *)
(** ** The market-series responder *)

Record HistoricalDataPoint : Type := mkPoint {
  h_year : Z;
  h_return : Q;
  h_returnPercentage : string;
  h_date : string;
  h_index : string;
  h_indexName : string
}.

(** [MarketDataResponse] without [lastUpdated], which is the wall clock. *)
Record MarketDataResponse : Type := mkResponse {
  r_index : string;
  r_indexName : string;
  r_averageReturn : option Q;
  r_historicalData : list HistoricalDataPoint;
  r_period : ISODate * ISODate
}.

(** The [while (currentYear <= endYear)] loop of lines 297-310.  Reading a
    year of an [indexReturns] that is [undefined] throws. *)
Fixpoint series_loop (fuel : nat) (index indexName : string)
    (indexReturns : option HistoricalReturns) (defaultReturn : Q)
    (currentYear endYear : Z) (data : list HistoricalDataPoint)
  : Completion (list HistoricalDataPoint) :=
  match fuel with
  | O => Normal data
  | S fuel' =>
    if (currentYear <=? endYear)%Z then
      match indexReturns with
      | None => Throw TypeError
      | Some table =>
        let annualReturn :=
          JS.or_else (year_lookup currentYear table) defaultReturn in
        series_loop fuel' index indexName indexReturns defaultReturn
          (currentYear + 1)%Z endYear
          (data ++ [ {| h_year := currentYear;
                        h_return := annualReturn;
                        h_returnPercentage :=
                          JS.toFixed2 (JS.mul annualReturn 100);
                        h_date := (JS.digits currentYear ++ "-12-31")%string;
                        h_index := index;
                        h_indexName := indexName |} ])
      end
    else Normal data
  end.

(** [generateRealisticMarketData(index, startDate, endDate)]; [start] and
    [end_] are the two [Date] objects built on lines 229-230. *)
Definition generateRealisticMarketData (index : string) (start end_ : JSDate)
  : Completion MarketDataResponse :=
  match lookup index MARKET_INDICES with
  | None => Throw TypeError
  | Some mi =>
    let indexReturns := lookup index generator_historicalReturns in
    let defaultReturn := averageReturn mi in
    data <- match getFullYear start, getFullYear end_ with
            | Some currentYear, Some endYear =>
              series_loop (Z.to_nat (endYear - currentYear + 1))
                index (name mi) indexReturns defaultReturn
                currentYear endYear []
            | _, _ => Normal []
            end ;;
    let averageReturn := average (map h_return data) in
    periodStart <- toISODate start ;;
    periodEnd <- toISODate end_ ;;
    Normal {| r_index := index;
              r_indexName := name mi;
              r_averageReturn := averageReturn;
              r_historicalData := data;
              r_period := (periodStart, periodEnd) |}
  end.

(* ------------------------------------------------------------------ *)
(** ** The compounding engine *)

Inductive TransactionType : Type := deposit | withdrawal.

(** A [Transaction]; [t_date] is [new Date(transaction.date)]. *)
Record Transaction : Type := mkTx {
  t_date : DateFields;
  t_amount : Q;
  t_type : TransactionType
}.

Record MonthlyDataPoint : Type := mkMonthly {
  m_month : Z;
  m_year : Z;
  m_monthOfYear : Z;
  m_date : ISODate;
  m_amount : Q;
  m_contributions : Q;
  m_netInvestment : Q;
  m_gains : Q;
  m_annualReturn : string
}.

Record YearlyDataPoint : Type := mkYearly {
  y_year : Z;
  y_date : ISODate;
  y_amount : Q;
  y_contributions : Q;
  y_netInvestment : Q;
  y_gains : Q;
  y_roi : Q;
  y_annualReturn : string
}.

Record InvestmentPeriod : Type := mkPeriod {
  p_startDate : ISODate;
  p_endDate : ISODate;
  p_totalMonths : Z
}.

Record CalculationSummary : Type := mkSummary {
  s_finalAmount : Q;
  s_totalContributions : Q;
  s_totalGains : Q;
  s_totalROI : Q;
  s_totalDeposits : Q;
  s_totalWithdrawals : Q;
  s_netInvestment : Q;
  s_netGains : Q;
  s_netROI : Q;
  s_averageAnnualReturn : string;
  s_investmentPeriod : InvestmentPeriod
}.

Record CalculationResult : Type := mkResult {
  summary : CalculationSummary;
  monthlyData : list MonthlyDataPoint;
  yearlyData : list YearlyDataPoint
}.

(** [transactions.sort((a, b) => a.date - b.date)]: a stable sort by time
    value, as insertion from the right. *)
Fixpoint insert_by_date (t : Transaction) (l : list Transaction)
  : list Transaction :=
  match l with
  | [] => [t]
  | u :: l' =>
    if date_gtb (t_date t) (t_date u) then u :: insert_by_date t l'
    else t :: u :: l'
  end.

Definition sort_by_date (l : list Transaction) : list Transaction :=
  fold_right insert_by_date [] l.

(** The running figures that the transaction loop updates. *)
Record Ledger : Type := mkLedger {
  currentAmount : Q;
  totalContributions : Q;
  totalDeposits : Q;
  totalWithdrawals : Q;
  transactionIndex : nat
}.

(** Lines 419-430: a transaction of the cursor month is applied and the
    pointer moves on. *)
Definition apply_transaction (transaction : Transaction) (l : Ledger)
  : Ledger :=
  match t_type transaction with
  | deposit =>
    {| currentAmount := JS.add (currentAmount l) (t_amount transaction);
       totalContributions :=
         JS.add (totalContributions l) (t_amount transaction);
       totalDeposits := JS.add (totalDeposits l) (t_amount transaction);
       totalWithdrawals := totalWithdrawals l;
       transactionIndex := S (transactionIndex l) |}
  | withdrawal =>
    let withdrawalAmount :=
      JS.min (t_amount transaction) (JS.max 0 (currentAmount l)) in
    {| currentAmount := JS.sub (currentAmount l) withdrawalAmount;
       totalContributions := totalContributions l;
       totalDeposits := totalDeposits l;
       totalWithdrawals := JS.add (totalWithdrawals l) withdrawalAmount;
       transactionIndex := S (transactionIndex l) |}
  end.

(** Line 434: the pointer moves on and nothing else changes. *)
Definition skip_transaction (l : Ledger) : Ledger :=
  {| currentAmount := currentAmount l;
     totalContributions := totalContributions l;
     totalDeposits := totalDeposits l;
     totalWithdrawals := totalWithdrawals l;
     transactionIndex := S (transactionIndex l) |}.

(** Is the transaction dated in the cursor month (lines 416-417)? *)
Definition in_month (currentYearNum currentMonthNum : Z)
    (transaction : Transaction) : bool :=
  (dYear (t_date transaction) =? currentYearNum)%Z &&
  (dMonth (t_date transaction) =? currentMonthNum)%Z.

(** The [while (transactionIndex < sortedTransactions.length)] loop of
    lines 411-436, run on the transactions from the pointer onwards. *)
Fixpoint consume (currentYearNum currentMonthNum : Z)
    (pending : list Transaction) (l : Ledger) : Ledger :=
  match pending with
  | [] => l
  | transaction :: pending' =>
    let currentDate := mkDate currentYearNum currentMonthNum 1 0 in
    if in_month currentYearNum currentMonthNum transaction then
      consume currentYearNum currentMonthNum pending'
        (apply_transaction transaction l)
    else if date_gtb (t_date transaction) currentDate then l
    else
      consume currentYearNum currentMonthNum pending' (skip_transaction l)
  end.

(** What the month loop carries besides its cursor. *)
Record Walk : Type := mkWalk {
  ledger : Ledger;
  totalMonths : Z;
  w_monthlyData : list MonthlyDataPoint;
  w_yearlyData : list YearlyDataPoint
}.

(** The guard of line 401 for a valid cursor; an invalid [end] reads [NaN]
    and makes every comparison false. *)
Definition loop_guard (currentYear currentMonth : Z) (end_ : JSDate) : bool :=
  nan_ltb (Some currentYear) (getFullYear end_) ||
  (nan_eqb (Some currentYear) (getFullYear end_) &&
   nan_leb (Some currentMonth) (getMonth end_)).

(** One pass through the body of the month loop, lines 402-474. *)
Definition month_body (historicalReturns : HistoricalReturns)
    (defaultReturn : Q) (sortedTransactions : list Transaction)
    (currentYear currentMonth : Z) (w : Walk) : Walk :=
  let annualReturn :=
    JS.or_else (year_lookup currentYear historicalReturns) defaultReturn in
  let monthlyReturn := JS.div annualReturn 12 in
  let currentDate := mkDate currentYear currentMonth 1 0 in
  let currentDateStr := isoDateOf currentDate in
  let l := consume currentYear currentMonth
             (skipn (transactionIndex (ledger w)) sortedTransactions)
             (ledger w) in
  let l := {| currentAmount :=
                JS.mul (currentAmount l) (JS.add 1 monthlyReturn);
              totalContributions := totalContributions l;
              totalDeposits := totalDeposits l;
              totalWithdrawals := totalWithdrawals l;
              transactionIndex := transactionIndex l |} in
  let totalMonths := (totalMonths w + 1)%Z in
  let currentGains := JS.sub (currentAmount l) (totalContributions l) in
  let currentNetInvestment :=
    JS.sub (totalDeposits l) (totalWithdrawals l) in
  let monthly :=
    {| m_month := totalMonths;
       m_year := currentYear;
       m_monthOfYear := (currentMonth + 1)%Z;
       m_date := currentDateStr;
       m_amount := JS.round2 (currentAmount l);
       m_contributions := JS.round2 (totalContributions l);
       m_netInvestment := JS.round2 currentNetInvestment;
       m_gains := JS.round2 currentGains;
       m_annualReturn := JS.toFixed2 (JS.mul annualReturn 100) |} in
  let yearly :=
    if (currentMonth =? 11)%Z then
      let totalGains := JS.sub (currentAmount l) (totalContributions l) in
      let roi :=
        if JS.gtb (totalContributions l) 0
        then JS.mul (JS.div totalGains (totalContributions l)) 100
        else 0 in
      let yearlyNetInvestment :=
        JS.sub (totalDeposits l) (totalWithdrawals l) in
      [ {| y_year := currentYear;
           y_date := currentDateStr;
           y_amount := JS.round2 (currentAmount l);
           y_contributions := JS.round2 (totalContributions l);
           y_netInvestment := JS.round2 yearlyNetInvestment;
           y_gains := JS.round2 totalGains;
           y_roi := JS.round2 roi;
           y_annualReturn := JS.toFixed2 (JS.mul annualReturn 100) |} ]
    else [] in
  {| ledger := l;
     totalMonths := totalMonths;
     w_monthlyData := w_monthlyData w ++ [monthly];
     w_yearlyData := w_yearlyData w ++ yearly |}.

(** Lines 477-481: the cursor moves to the next month. *)
Definition next_cursor (currentYear currentMonth : Z) : Z * Z :=
  let currentMonth := (currentMonth + 1)%Z in
  if (currentMonth >? 11)%Z then ((currentYear + 1)%Z, 0%Z)
  else (currentYear, currentMonth).

(** The month loop of lines 401-482. *)
Fixpoint month_loop (fuel : nat) (historicalReturns : HistoricalReturns)
    (defaultReturn : Q) (sortedTransactions : list Transaction)
    (end_ : JSDate) (currentYear currentMonth : Z) (w : Walk) : Walk :=
  match fuel with
  | O => w
  | S fuel' =>
    if loop_guard currentYear currentMonth end_ then
      let w' := month_body historicalReturns defaultReturn
                  sortedTransactions currentYear currentMonth w in
      let '(nextYear, nextMonth) := next_cursor currentYear currentMonth in
      month_loop fuel' historicalReturns defaultReturn sortedTransactions
        end_ nextYear nextMonth w'
    else w
  end.

(** An upper bound on the number of passes: it drops by one at every pass
    and is at least twelve while the guard holds. *)
Definition passes_bound (currentYear currentMonth : Z) (end_ : JSDate) : nat :=
  match getFullYear end_ with
  | None => O
  | Some endYear =>
    Z.to_nat (12 * Z.max 0 (endYear + 1 - currentYear)
              + Z.max 0 (11 - currentMonth))
  end.

(** Line 383: [allHistoricalReturns[marketIndex] || allHistoricalReturns.sp500].
    The key [sp500] is present, so the empty table is never produced. *)
Definition select_returns (marketIndex : string) : HistoricalReturns :=
  match lookup marketIndex allHistoricalReturns with
  | Some table => table
  | None =>
    match lookup "sp500" allHistoricalReturns with
    | Some table => table
    | None => []
    end
  end.

(** Line 384: [MARKET_INDICES[marketIndex]?.averageReturn ||
    MARKET_INDICES.sp500.averageReturn]. *)
Definition select_default (marketIndex : string) : Q :=
  JS.or_else
    (option_map averageReturn (lookup marketIndex MARKET_INDICES))
    (match lookup "sp500" MARKET_INDICES with
     | Some mi => averageReturn mi
     | None => 0
     end).

(** The annual return that a pass of the month loop reads (line 402). *)
Definition annual_return (marketIndex : string) (currentYear : Z) : Q :=
  JS.or_else (year_lookup currentYear (select_returns marketIndex))
             (select_default marketIndex).

(** Lines 389-399: the figures before the first pass. *)
Definition initial_walk (principal : Q) : Walk :=
  {| ledger := {| currentAmount := principal;
                  totalContributions := principal;
                  totalDeposits := principal;
                  totalWithdrawals := 0;
                  transactionIndex := O |};
     totalMonths := 0%Z;
     w_monthlyData := [];
     w_yearlyData := [] |}.

(** The state in which the month loop of lines 401-482 ends.  With an
    invalid [start] the cursor is [NaN] and the guard is false at once. *)
Definition run_walk (principal : Q) (transactions : list Transaction)
    (start end_ : JSDate) (marketIndex : string) : Walk :=
  match getFullYear start, getMonth start with
  | Some currentYear, Some currentMonth =>
    month_loop (passes_bound currentYear currentMonth end_)
      (select_returns marketIndex) (select_default marketIndex)
      (sort_by_date transactions) end_ currentYear currentMonth
      (initial_walk principal)
  | _, _ => initial_walk principal
  end.

(** Lines 501-506: the years of the table that lie between the two years,
    and the mean of their returns. *)
Definition years_in_range (historicalReturns : HistoricalReturns)
    (start end_ : JSDate) : list Z :=
  filter (fun year => nan_leb (getFullYear start) (Some year) &&
                      nan_leb (Some year) (getFullYear end_))
         (map fst historicalReturns).

Definition avgReturn (historicalReturns : HistoricalReturns)
    (defaultReturn : Q) (start end_ : JSDate) : option Q :=
  average
    (map (fun year =>
            JS.or_else (year_lookup year historicalReturns) defaultReturn)
         (years_in_range historicalReturns start end_)).

(** [calculateCompoundInterestWithDates]; [startDate] and [endDate] are the
    [Date] objects built from the two strings on lines 336 and 338. *)
Definition calculateCompoundInterestWithDates (principal : Q)
    (transactions : list Transaction) (startDate endDate : JSDate)
    (useHistoricalData : bool) (marketIndex : string)
  : Completion CalculationResult :=
  let start := setHoursNoon startDate in
  let end_ := setHoursNoon endDate in
  let historicalReturns := select_returns marketIndex in
  let defaultReturn := select_default marketIndex in
  let w := run_walk principal transactions start end_ marketIndex in
  let finalAmount := currentAmount (ledger w) in
  let totalContributions := totalContributions (ledger w) in
  let totalDeposits := totalDeposits (ledger w) in
  let totalWithdrawals := totalWithdrawals (ledger w) in
  let netInvestment := JS.sub totalDeposits totalWithdrawals in
  let totalGains := JS.sub finalAmount totalContributions in
  let netGains := JS.sub finalAmount netInvestment in
  let totalROI :=
    if JS.gtb totalContributions 0
    then JS.mul (JS.div totalGains totalContributions) 100
    else 0 in
  let netROI :=
    if negb (JS.eqb netInvestment 0)
    then JS.mul (JS.div netGains (JS.abs netInvestment)) 100
    else 0 in
  let avgReturn := avgReturn historicalReturns defaultReturn start end_ in
  periodStart <- toISODate start ;;
  periodEnd <- toISODate end_ ;;
  Normal
    {| summary :=
         {| s_finalAmount := JS.round2 finalAmount;
            s_totalContributions := JS.round2 totalContributions;
            s_totalGains := JS.round2 totalGains;
            s_totalROI := JS.round2 totalROI;
            s_totalDeposits := JS.round2 totalDeposits;
            s_totalWithdrawals := JS.round2 totalWithdrawals;
            s_netInvestment := JS.round2 netInvestment;
            s_netGains := JS.round2 netGains;
            s_netROI := JS.round2 netROI;
            s_averageAnnualReturn :=
              JS.toFixed2_nan (option_map (fun a => JS.mul a 100) avgReturn);
            s_investmentPeriod :=
              {| p_startDate := periodStart;
                 p_endDate := periodEnd;
                 p_totalMonths := totalMonths w |} |};
       monthlyData := w_monthlyData w;
       yearlyData := w_yearlyData w |}.

(* ------------------------------------------------------------------ *)
(** ** The transaction filter of the request handler *)

(** A value of a parsed JSON body.  Arrays are left out. *)
#[warnings="-register-all"]
Inductive JSValue : Type :=
| JSUndefined
| JSNull
| JSBool (b : bool)
| JSNumber (q : Q)
| JSString (s : string)
| JSObject (props : list (string * JSValue)).

(** Truthiness: [undefined], [null], [false], [0] and [""] are falsy. *)
Definition truthy (v : JSValue) : bool :=
  match v with
  | JSUndefined | JSNull => false
  | JSBool b => b
  | JSNumber q => JS.truthy q
  | JSString s => negb (String.eqb s "")
  | JSObject _ => true
  end.

(** [v.key]: a missing property reads [undefined]. *)
Definition get (v : JSValue) (key : string) : JSValue :=
  match v with
  | JSObject props =>
    match lookup key props with
    | Some x => x
    | None => JSUndefined
    end
  | _ => JSUndefined
  end.

(** [v === s] for a string literal [s]. *)
Definition is_string (v : JSValue) (s : string) : bool :=
  match v with
  | JSString s' => String.eqb s' s
  | _ => false
  end.

Module Parse.

Definition is_digit (c : ascii) : bool :=
  (48 <=? nat_of_ascii c)%nat && (nat_of_ascii c <=? 57)%nat.

Definition digit_value (c : ascii) : Z := (Z.of_nat (nat_of_ascii c) - 48)%Z.

(** Tab, line feed, vertical tab, form feed, carriage return, space. *)
Definition is_space (c : ascii) : bool :=
  let n := nat_of_ascii c in
  ((9 <=? n)%nat && (n <=? 13)%nat) || (n =? 32)%nat.

Fixpoint trim_start (s : string) : string :=
  match s with
  | String c s' => if is_space c then trim_start s' else s
  | EmptyString => s
  end.

(** A run of decimal digits: its value, its length and the rest. *)
Fixpoint read_digits (s : string) (acc : Z) (n : nat) : Z * nat * string :=
  match s with
  | String c s' =>
    if is_digit c then read_digits s' (acc * 10 + digit_value c)%Z (S n)
    else (acc, n, s)
  | EmptyString => (acc, n, s)
  end.

Definition is_char (c : ascii) (d : string) : bool :=
  String.eqb (String c EmptyString) d.

(** [ExponentPart]: [e] or [E], an optional sign and at least one digit;
    anything else is no exponent. *)
Definition read_exponent (s : string) : Z :=
  match s with
  | String c s' =>
    if is_char c "e" || is_char c "E" then
      match s' with
      | String c' s'' =>
        if is_char c' "-" then
          let '(e, n, _) := read_digits s'' 0%Z O in
          match n with O => 0%Z | S _ => (- e)%Z end
        else if is_char c' "+" then
          let '(e, _, _) := read_digits s'' 0%Z O in e
        else
          let '(e, _, _) := read_digits s' 0%Z O in e
      | EmptyString => 0%Z
      end
    else 0%Z
  | EmptyString => 0%Z
  end.

Definition scale (m : Q) (e : Z) : Q :=
  if (e <? 0)%Z then JS.div m (inject_Z (10 ^ (- e)))
  else JS.mul m (inject_Z (10 ^ e)).

(** [StrUnsignedDecimalLiteral]: digits, an optional fraction and an
    optional exponent, with a digit before or after the point. *)
Definition read_unsigned (s : string) : option Q :=
  let '(ip, ni, r1) := read_digits s 0%Z O in
  let '(fp, nf, r2) :=
    match r1 with
    | String c r =>
      if is_char c "." then read_digits r 0%Z O else (0%Z, O, r1)
    | EmptyString => (0%Z, O, r1)
    end in
  match (ni + nf)%nat with
  | O => None
  | S _ =>
    let m := JS.div (inject_Z (ip * 10 ^ Z.of_nat nf + fp))
                    (inject_Z (10 ^ Z.of_nat nf)) in
    Some (scale m (read_exponent r2))
  end.

(** [parseFloat(s)]: the longest numeric prefix after leading white
    space; [None] is [NaN].  The literal [Infinity] reads an infinite
    number, which a rational cannot hold, and is not recognized. *)
Definition parseFloat (s : string) : option Q :=
  match trim_start s with
  | String c s' =>
    if is_char c "-" then option_map (fun q => JS.sub 0 q) (read_unsigned s')
    else if is_char c "+" then read_unsigned s'
    else read_unsigned (String c s')
  | EmptyString => None
  end.

End Parse.

(** [v.toString()] of a truthy value. *)
Definition toString (v : JSValue) : string :=
  match v with
  | JSUndefined => "undefined"
  | JSNull => "null"
  | JSBool true => "true"
  | JSBool false => "false"
  | JSNumber _ => ""   (* not used: see [parseFloat_toString] *)
  | JSString s => s
  | JSObject _ => "[object Object]"
  end.

(** [parseFloat(v.toString())].  The decimal text of a finite number reads
    back as the same number. *)
Definition parseFloat_toString (v : JSValue) : option Q :=
  match v with
  | JSNumber q => Some q
  | _ => Parse.parseFloat (toString v)
  end.

Definition isNaN (x : option Q) : bool :=
  match x with
  | Some _ => false
  | None => true
  end.

(** The predicate of the [filter] on lines 203-206. *)
Definition well_formed (t : JSValue) : bool :=
  truthy t && truthy (get t "date") && truthy (get t "amount") &&
  truthy (get t "type") &&
  (is_string (get t "type") "deposit" ||
   is_string (get t "type") "withdrawal") &&
  negb (isNaN (parseFloat_toString (get t "amount"))).

(** An element of [validTransactions]: the entry with its amount replaced
    by the parsed number (lines 207-210). *)
Record Validated : Type := mkValidated {
  v_date : JSValue;
  v_amount : option Q;
  v_type : JSValue
}.

Definition normalize (t : JSValue) : Validated :=
  {| v_date := get t "date";
     v_amount := parseFloat_toString (get t "amount");
     v_type := get t "type" |}.

Definition validTransactions (transactions : list JSValue) : list Validated :=
  map normalize (filter well_formed transactions).

(* ------------------------------------------------------------------ *)
(** ** The client: the figures drawn from the transactions *)

(** [a < b] on two [Date] objects. *)
Definition date_ltb (a b : DateFields) : bool :=
  match date_compare a b with Lt => true | _ => false end.

(** [transaction.type === 'deposit'] and [transaction.type === 'withdrawal']. *)
Definition is_deposit (t : Transaction) : bool :=
  match t_type t with deposit => true | withdrawal => false end.

Definition is_withdrawal (t : Transaction) : bool :=
  match t_type t with deposit => false | withdrawal => true end.

(** The memoized figures of [src/client/src/App.tsx].  A transaction of
    the client carries its date as a string; [t_date] is the [Date] that
    [new Date] reads from it. *)
Module App.

Record DateRange : Type := mkRange {
  startDate : DateFields;
  endDate : DateFields;
  firstTransaction : Transaction;
  lastTransaction : Transaction
}.

(** Lines 226-230. *)
Definition totalWithdrawals (transactions : list Transaction) : Q :=
  sum (map t_amount (filter is_withdrawal transactions)).

(** Lines 232-236. *)
Definition totalDeposits (transactions : list Transaction) : Q :=
  sum (map t_amount (filter is_deposit transactions)).

(** Lines 447-463.  A [reduce] without an initial value starts from the
    first element of the array. *)
Definition transactionDateRange (transactions : list Transaction)
  : option DateRange :=
  match transactions with
  | [] => None
  | t0 :: rest =>
    let firstTransaction :=
      fold_left (fun earliest transaction =>
                   if date_ltb (t_date transaction) (t_date earliest)
                   then transaction else earliest) rest t0 in
    let lastTransaction :=
      fold_left (fun latest transaction =>
                   if date_gtb (t_date transaction) (t_date latest)
                   then transaction else latest) rest t0 in
    Some {| startDate := t_date firstTransaction;
            endDate := t_date lastTransaction;
            firstTransaction := firstTransaction;
            lastTransaction := lastTransaction |}
  end.

End App.

(** The quick preview of [src/client/src/components/CompoundCalculator.tsx]. *)
Module CompoundCalculator.

(** Lines 193-201, shown when there is a transaction: the years and the
    remaining months since the first transaction; [now] is [new Date()].
    [Math.floor] of a quotient by 12 is [Z.div] and [%] is [Z.rem]. *)
Definition investmentPeriod (transactions : list Transaction)
    (now : DateFields) : option (Z * Z) :=
  match sort_by_date transactions with
  | [] => None
  | first :: _ =>
    let start := t_date first in
    let months :=
      ((dYear now - dYear start) * 12 + (dMonth now - dMonth start))%Z in
    let years := (months / 12)%Z in
    let remainingMonths := Z.rem months 12 in
    Some (years, remainingMonths)
  end.

End CompoundCalculator.

(* ================================================================== *)
(** * Vocabulary of the properties *)

(** Calendar months from the cursor to the month of [e], both included. *)
Definition months_left (currentYear currentMonth : Z) (e : DateFields) : Z :=
  (12 * (dYear e - currentYear) + (dMonth e - currentMonth) + 1)%Z.

(** A date at local midnight. *)
Definition day (y m d : Z) : JSDate := ValidDate (mkDate y m d 0).

(** The calendar years from [y] on, [n] of them. *)
Fixpoint years_from (y : Z) (n : nat) : list Z :=
  match n with
  | O => []
  | S n' => y :: years_from (y + 1)%Z n'
  end.

(** Every calendar year of [startYear..endYear], in order. *)
Definition year_span (startYear endYear : Z) : list Z :=
  years_from startYear (Z.to_nat (endYear - startYear + 1)).

(** The sum of a list of rationals. *)
Definition total (xs : list Q) : Q := fold_right Qplus 0 xs.

(** The return of a year as a table gives it: the entry of the year, or
    the default when the table has no entry for it. *)
Definition tabulated_or_default (table : HistoricalReturns) (default : Q)
    (year : Z) : Q :=
  match year_lookup year table with
  | Some r => r
  | None => default
  end.

(** No entry of the table is zero. *)
Definition nonzero_entries (table : HistoricalReturns) : bool :=
  forallb (fun yr => JS.truthy (snd yr)) table.

(** The value of a decimal digit: the characters [0] to [9] have the codes
    48 to 57. *)
Definition digit_value (c : ascii) : option Z :=
  let code := Z.of_nat (nat_of_ascii c) in
  if ((48 <=? code) && (code <=? 57))%Z then Some (code - 48)%Z else None.

(** The number that a string of decimal digits spells after the digits
    read so far, which spell [acc]. *)
Fixpoint digits_value (acc : Z) (s : string) : option Z :=
  match s with
  | EmptyString => Some acc
  | String c s' =>
    match digit_value c with
    | Some d => digits_value (10 * acc + d) s'
    | None => None
    end
  end.

(** The integer that a decimal numeral spells: digits, at least one, after
    an optional minus sign. *)
Definition numeral_value (s : string) : option Z :=
  match s with
  | EmptyString => None
  | String "-" EmptyString => None
  | String "-" s' => option_map Z.opp (digits_value 0 s')
  | _ => digits_value 0 s
  end.

(** The numeral has no digit to spare: it does not open with a zero that
    another digit follows. *)
Definition no_leading_zero (s : string) : Prop :=
  match s with
  | String "0" (String _ _) => False
  | String "-" (String "0" (String _ _)) => False
  | _ => True
  end.

(** The entry that a pass of the loop pushes for a year. *)
Definition series_point (index indexName : string)
    (table : HistoricalReturns) (defaultReturn : Q) (year : Z)
  : HistoricalDataPoint :=
  let annualReturn := JS.or_else (year_lookup year table) defaultReturn in
  {| h_year := year;
     h_return := annualReturn;
     h_returnPercentage := JS.toFixed2 (JS.mul annualReturn 100);
     h_date := (JS.digits year ++ "-12-31")%string;
     h_index := index;
     h_indexName := indexName |}.

(** The monthly snapshot shows the figures of the ledger it was taken of. *)
Definition snapshot_of (l : Ledger) (p : MonthlyDataPoint) : Prop :=
  m_amount p = JS.round2 (currentAmount l) /\
  m_contributions p = JS.round2 (totalContributions l) /\
  m_netInvestment p =
    JS.round2 (JS.sub (totalDeposits l) (totalWithdrawals l)) /\
  m_gains p = JS.round2 (JS.sub (currentAmount l) (totalContributions l)).

(** The average as the specification words it: the mean, over every
    calendar year of the window, of the return that the walk reads for the
    year, as a percentage with two decimals. *)
Definition window_mean_percentage (marketIndex : string)
    (startYear endYear : Z) : string :=
  JS.toFixed2_nan
    (option_map (fun a => JS.mul a 100)
       (average (map (annual_return marketIndex)
                     (year_span startYear endYear)))).

(** A deposit does not carry a negative amount. *)
Definition no_negative_deposit (t : Transaction) : Prop :=
  t_type t = deposit -> 0 <= t_amount t.

(** Every entry of the table is above -12, so that a month of growth
    multiplies by a non-negative factor. *)
Definition above_minus_twelve (table : HistoricalReturns) : bool :=
  forallb (fun yr => negb (JS.ltb (snd yr) (-12))) table.

(** A request entry with the given amount. *)
Definition entry (amount : JSValue) : JSValue :=
  JSObject [ ("date"%string, JSString "2020-01-15");
             ("amount"%string, amount);
             ("type"%string, JSString "withdrawal") ].

(** The transaction is dated in a calendar month before the cursor month. *)
Definition before_month (cy cm : Z) (t : Transaction) : bool :=
  (dYear (t_date t) <? cy)%Z ||
  ((dYear (t_date t) =? cy)%Z && (dMonth (t_date t) <? cm)%Z).

(** The ledger with its pointer moved [k] places on. *)
Definition advance (k : nat) (l : Ledger) : Ledger :=
  {| currentAmount := currentAmount l;
     totalContributions := totalContributions l;
     totalDeposits := totalDeposits l;
     totalWithdrawals := totalWithdrawals l;
     transactionIndex := (transactionIndex l + k)%nat |}.

Definition advance_walk (k : nat) (w : Walk) : Walk :=
  {| ledger := advance k (ledger w);
     totalMonths := totalMonths w;
     w_monthlyData := w_monthlyData w;
     w_yearlyData := w_yearlyData w |}.

(** The transaction is dated in a calendar month after the month
    [(ey, em)]. *)
Definition after_month (ey em : Z) (t : Transaction) : bool :=
  (ey <? dYear (t_date t))%Z ||
  ((ey =? dYear (t_date t))%Z && (em <? dMonth (t_date t))%Z).

(** The transaction is dated in a calendar month of the window: not before
    the month of [s] and not after the month of [e]. *)
Definition in_window (s e : DateFields) (t : Transaction) : bool :=
  negb (before_month (dYear s) (dMonth s) t) &&
  negb (after_month (dYear e) (dMonth e) t).

(** [a] comes strictly before [b] in time. *)
Definition date_lt (a b : DateFields) : Prop :=
  (dYear a < dYear b \/
   dYear a = dYear b /\
   (dMonth a < dMonth b \/
    dMonth a = dMonth b /\
    (dDay a < dDay b \/ dDay a = dDay b /\ dMs a < dMs b)))%Z.

(** [a] does not come after [b]. *)
Definition not_later (a b : Transaction) : Prop :=
  date_gtb (t_date a) (t_date b) = false.

(** The two dates are the same instant. *)
Definition same_date (d : DateFields) (t : Transaction) : bool :=
  match date_compare d (t_date t) with Eq => true | _ => false end.

(** The date of the transaction has its month index in 0..11. *)
Definition wf_transaction (t : Transaction) : Prop := wf_fields (t_date t).

(** Line 439: a month of growth. *)
Definition grow (monthlyReturn : Q) (l : Ledger) : Ledger :=
  {| currentAmount := JS.mul (currentAmount l) (JS.add 1 monthlyReturn);
     totalContributions := totalContributions l;
     totalDeposits := totalDeposits l;
     totalWithdrawals := totalWithdrawals l;
     transactionIndex := transactionIndex l |}.

(** The ledgers that come from the principal by applying the
    transactions of a list, in the order of the list, with months of
    growth in between. *)
Inductive Reached (principal : Q) : list Transaction -> Ledger -> Prop :=
| reached_start :
    Reached principal [] (ledger (initial_walk principal))
| reached_apply ts l t :
    Reached principal ts l ->
    Reached principal (ts ++ [t]) (apply_transaction t l)
| reached_grow ts l r :
    Reached principal ts l -> Reached principal ts (grow r l).

(** The transactions of a list applied in order. *)
Definition apply_all (ts : list Transaction) (l : Ledger) : Ledger :=
  fold_left (fun l t => apply_transaction t l) ts l.

(** The transactions that [consume] applies, in the order in which it
    applies them, each with the ledger as it stands just before. *)
Fixpoint applied_in_month (currentYearNum currentMonthNum : Z)
    (pending : list Transaction) (l : Ledger)
  : list (Transaction * Ledger) :=
  match pending with
  | [] => []
  | transaction :: pending' =>
    if in_month currentYearNum currentMonthNum transaction then
      (transaction, l) ::
      applied_in_month currentYearNum currentMonthNum pending'
        (apply_transaction transaction l)
    else if date_gtb (t_date transaction)
                     (mkDate currentYearNum currentMonthNum 1 0) then []
    else
      applied_in_month currentYearNum currentMonthNum pending'
        (skip_transaction l)
  end.

(** The transactions that the month loop applies, pass after pass. *)
Fixpoint applied_in_loop (fuel : nat) (historicalReturns : HistoricalReturns)
    (defaultReturn : Q) (sortedTransactions : list Transaction)
    (end_ : JSDate) (currentYear currentMonth : Z) (w : Walk)
  : list (Transaction * Ledger) :=
  match fuel with
  | O => []
  | S fuel' =>
    if loop_guard currentYear currentMonth end_ then
      let w' := month_body historicalReturns defaultReturn
                  sortedTransactions currentYear currentMonth w in
      let '(nextYear, nextMonth) := next_cursor currentYear currentMonth in
      applied_in_month currentYear currentMonth
        (skipn (transactionIndex (ledger w)) sortedTransactions) (ledger w)
      ++ applied_in_loop fuel' historicalReturns defaultReturn
           sortedTransactions end_ nextYear nextMonth w'
    else []
  end.

(** The steps of a walk of the engine: every transaction that the walk
    applies, in the order of application, with the ledger as it stands
    just before the transaction is applied. *)
Definition applied_in_walk (principal : Q) (transactions : list Transaction)
    (start end_ : JSDate) (marketIndex : string)
  : list (Transaction * Ledger) :=
  match getFullYear start, getMonth start with
  | Some currentYear, Some currentMonth =>
    applied_in_loop (passes_bound currentYear currentMonth end_)
      (select_returns marketIndex) (select_default marketIndex)
      (sort_by_date transactions) end_ currentYear currentMonth
      (initial_walk principal)
  | _, _ => []
  end.

(** What a step takes off the balance: nothing when it is a deposit, the
    clamped amount when it is a withdrawal. *)
Definition taken_by (step : Transaction * Ledger) : Q :=
  match t_type (fst step) with
  | deposit => 0
  | withdrawal =>
    Qmin (t_amount (fst step)) (Qmax 0 (currentAmount (snd step)))
  end.

(** The two ledgers show the same four figures. *)
Definition same_figures (l l' : Ledger) : Prop :=
  currentAmount l = currentAmount l' /\
  totalContributions l = totalContributions l' /\
  totalDeposits l = totalDeposits l' /\
  totalWithdrawals l = totalWithdrawals l'.

(** The sum of the amounts of the deposits of a list, and of the amounts
    asked by its withdrawals. *)
Definition deposited (ts : list Transaction) : Q :=
  total (map t_amount (filter is_deposit ts)).

Definition asked_back (ts : list Transaction) : Q :=
  total (map t_amount (filter is_withdrawal ts)).

(** A withdrawal does not ask a negative amount. *)
Definition no_negative_withdrawal (t : Transaction) : Prop :=
  t_type t = withdrawal -> 0 <= t_amount t.

(** The figures of a yearly snapshot that a monthly snapshot has too. *)
Definition yearly_figures (y : YearlyDataPoint)
  : Z * ISODate * Q * Q * Q * Q * string :=
  (y_year y, y_date y, y_amount y, y_contributions y, y_netInvestment y,
   y_gains y, y_annualReturn y).

Definition monthly_figures (m : MonthlyDataPoint)
  : Z * ISODate * Q * Q * Q * Q * string :=
  (m_year m, m_date m, m_amount m, m_contributions m, m_netInvestment m,
   m_gains m, m_annualReturn m).

Definition is_december (m : MonthlyDataPoint) : bool :=
  (m_monthOfYear m =? 12)%Z.

(** A leap year of the Gregorian calendar. *)
Definition gregorian_leap (y : Z) : Prop :=
  ((y mod 4 = 0 /\ y mod 100 <> 0) \/ y mod 400 = 0)%Z.

(** The day is the last day of its month. *)
Definition last_of_month (d : CalendarDay) : Prop :=
  ((c_month d = 2 /\
    ((gregorian_leap (c_year d) /\ c_day d = 29) \/
     (~ gregorian_leap (c_year d) /\ c_day d = 28))) \/
   ((c_month d = 4 \/ c_month d = 6 \/ c_month d = 9 \/ c_month d = 11) /\
    c_day d = 30) \/
   ((c_month d = 1 \/ c_month d = 3 \/ c_month d = 5 \/ c_month d = 7 \/
     c_month d = 8 \/ c_month d = 10 \/ c_month d = 12) /\
    c_day d = 31))%Z.

(** The engine returned [r] on some input. *)
Definition returned_by_engine (r : CalculationResult) : Prop :=
  exists principal transactions startDate endDate useHistoricalData
         marketIndex,
    calculateCompoundInterestWithDates principal transactions
      startDate endDate useHistoricalData marketIndex = Normal r.

(** The factor by which [n] months of growth multiply a balance, from the
    month numbered [month] on, where month number [12 * year + index]
    stands for the month of that index (0-11) of that year. *)
Fixpoint compound_from (marketIndex : string) (month : Z) (n : nat) : Q :=
  match n with
  | O => 1
  | S n' =>
    (1 + annual_return marketIndex (month / 12) / 12) *
    compound_from marketIndex (month + 1) n'
  end.

(* ================================================================== *)
(** * Properties *)

Arguments month_body : simpl never.

(** Runs the engine on a closed input and hands back what it returned. *)
Ltac run_engine := eexists; split; [vm_compute; reflexivity|].

(* ------------------------------------------------------------------ *)
(** ** Runs on concrete inputs *)

(** A deposit of 10000 in January 2020 walked through December 2020 on the
    S&P 500: twelve monthly snapshots, one yearly snapshot, and twelve
    months of growth at 16.4 % a year. *)
Example one_year_of_sp500 :
  exists r,
    calculateCompoundInterestWithDates 0
      [mkTx (mkDate 2020 0 15 0) 10000 deposit]
      (day 2020 0 10) (day 2020 11 20) true "sp500" = Normal r /\
    length (monthlyData r) = 12%nat /\
    map y_year (yearlyData r) = [2020%Z] /\
    s_totalContributions (summary r) = 10000 /\
    s_totalDeposits (summary r) = 10000 /\
    s_totalWithdrawals (summary r) = 0 /\
    s_finalAmount (summary r) = 11769.07 /\
    s_averageAnnualReturn (summary r) = "16.40"%string.
Proof. run_engine. repeat split. Qed.

Example invalid_start_date_throws :
  calculateCompoundInterestWithDates 1000 [] InvalidDate (day 2020 11 20)
    true "sp500" = Throw RangeError.
Proof. reflexivity. Qed.

Example unknown_index_throws :
  generateRealisticMarketData "dowjones" (day 2020 0 10) (day 2020 11 20)
  = Throw TypeError.
Proof. reflexivity. Qed.

Example parseFloat_reads_a_prefix :
  Parse.parseFloat "12.5abc" = Some (25 # 2) /\
  Parse.parseFloat "  -3e2" = Some (-300) /\
  Parse.parseFloat ".5" = Some (1 # 2) /\
  Parse.parseFloat "abc" = None /\
  Parse.parseFloat "" = None.
Proof. repeat split. Qed.

Example toFixed2_rounds_to_hundredths :
  JS.toFixed2 16.4 = "16.40"%string /\
  JS.toFixed2 (-19.6) = "-19.60"%string /\
  JS.toFixed2 0.004 = "0.00"%string /\
  JS.toFixed2 1234.5 = "1234.50"%string.
Proof. repeat split. Qed.

(* ------------------------------------------------------------------ *)
(** ** Arithmetic of the number operations *)

Module JSFacts.

Lemma add_eq (x y : Q) : JS.add x y == x + y.
Proof. unfold JS.add. apply Qred_correct. Qed.

Lemma sub_eq (x y : Q) : JS.sub x y == x - y.
Proof. unfold JS.sub. apply Qred_correct. Qed.

Lemma mul_eq (x y : Q) : JS.mul x y == x * y.
Proof. unfold JS.mul. apply Qred_correct. Qed.

Lemma div_eq (x y : Q) : JS.div x y == x / y.
Proof. unfold JS.div. apply Qred_correct. Qed.

Lemma min_eq (x y : Q) : JS.min x y == Qmin x y.
Proof. unfold JS.min. apply Qred_correct. Qed.

Lemma max_eq (x y : Q) : JS.max x y == Qmax x y.
Proof. unfold JS.max. apply Qred_correct. Qed.

Lemma ltb_spec (x y : Q) : JS.ltb x y = true <-> x < y.
Proof.
  unfold JS.ltb. rewrite Qlt_alt. destruct (x ?= y); split; congruence.
Qed.

Lemma truthy_spec (x : Q) : JS.truthy x = true <-> ~ x == 0.
Proof.
  unfold JS.truthy. rewrite negb_true_iff.
  split.
  - intros H E. apply Qeq_bool_iff in E. congruence.
  - intro H. destruct (Qeq_bool x 0) eqn:E; [|reflexivity].
    apply Qeq_bool_iff in E. contradiction.
Qed.

End JSFacts.

(* ------------------------------------------------------------------ *)
(** ** The month loop: how many passes it makes *)

Section MonthLoop.

Variable historicalReturns : HistoricalReturns.
Variable defaultReturn : Q.
Variable sortedTransactions : list Transaction.

Let body := month_body historicalReturns defaultReturn sortedTransactions.
Let loop fuel := month_loop fuel historicalReturns defaultReturn
                   sortedTransactions.

Lemma guard_valid (cy cm : Z) (e : DateFields) :
  loop_guard cy cm (ValidDate e) =
  ((cy <? dYear e)%Z || ((cy =? dYear e)%Z && (cm <=? dMonth e)%Z)).
Proof. reflexivity. Qed.

Lemma guard_invalid (cy cm : Z) : loop_guard cy cm InvalidDate = false.
Proof. reflexivity. Qed.

Lemma guard_months_left (cy cm : Z) (e : DateFields) :
  (0 <= cm <= 11)%Z -> wf_fields e ->
  loop_guard cy cm (ValidDate e) = true <-> (0 < months_left cy cm e)%Z.
Proof.
  unfold wf_fields, months_left. intros Hc He. rewrite guard_valid.
  rewrite orb_true_iff, andb_true_iff, Z.ltb_lt, Z.eqb_eq, Z.leb_le. lia.
Qed.

Lemma next_cursor_months_left (cy cm : Z) (e : DateFields) :
  (0 <= cm <= 11)%Z ->
  let '(ny, nm) := next_cursor cy cm in
  (0 <= nm <= 11)%Z /\ months_left ny nm e = (months_left cy cm e - 1)%Z.
Proof.
  intro Hc. unfold next_cursor, months_left.
  destruct (cm + 1 >? 11)%Z eqn:E.
  - apply Z.gtb_lt in E. lia.
  - rewrite Z.gtb_ltb, Z.ltb_ge in E. lia.
Qed.

Lemma body_monthlyData (cy cm : Z) (w : Walk) :
  exists p, w_monthlyData (body cy cm w) = w_monthlyData w ++ [p].
Proof. eexists. reflexivity. Qed.

Lemma body_totalMonths (cy cm : Z) (w : Walk) :
  totalMonths (body cy cm w) = (totalMonths w + 1)%Z.
Proof. reflexivity. Qed.

Lemma loop_unfold (fuel : nat) (end_ : JSDate) (cy cm : Z) (w : Walk) :
  loop (S fuel) end_ cy cm w =
  if loop_guard cy cm end_ then
    loop fuel end_ (fst (next_cursor cy cm)) (snd (next_cursor cy cm))
      (body cy cm w)
  else w.
Proof.
  unfold loop, body. simpl. destruct (next_cursor cy cm). reflexivity.
Qed.

Lemma loop_guard_false (fuel : nat) (end_ : JSDate) (cy cm : Z) (w : Walk) :
  loop_guard cy cm end_ = false -> loop fuel end_ cy cm w = w.
Proof.
  intro H. destruct fuel; [reflexivity|]. rewrite loop_unfold, H. reflexivity.
Qed.

(** With enough fuel the loop makes one pass per calendar month left. *)
Lemma loop_count (fuel : nat) (e : DateFields) :
  wf_fields e ->
  forall (cy cm : Z) (w : Walk),
    (0 <= cm <= 11)%Z ->
    (months_left cy cm e <= Z.of_nat fuel)%Z ->
    let w' := loop fuel (ValidDate e) cy cm w in
    length (w_monthlyData w') =
      (length (w_monthlyData w) + Z.to_nat (months_left cy cm e))%nat /\
    totalMonths w' = (totalMonths w + Z.max 0 (months_left cy cm e))%Z.
Proof.
  intro He. induction fuel as [|fuel IH]; intros cy cm w Hc Hf.
  - cbv zeta. unfold loop. cbn [month_loop]. split; [|lia].
    replace (Z.to_nat (months_left cy cm e)) with O by lia. lia.
  - cbv zeta. rewrite loop_unfold.
    destruct (loop_guard cy cm (ValidDate e)) eqn:G.
    + apply guard_months_left in G; trivial.
      pose proof (next_cursor_months_left cy cm e Hc) as N.
      destruct (next_cursor cy cm) as [ny nm]. destruct N as [Hn Hm].
      cbn [fst snd].
      destruct (IH ny nm (body cy cm w) Hn) as [L T]; [lia|].
      rewrite L, T, Hm, body_totalMonths.
      destruct (body_monthlyData cy cm w) as [p ->].
      rewrite length_app. simpl. split; lia.
    + assert (months_left cy cm e <= 0)%Z as M.
      { destruct (Z.lt_ge_cases 0 (months_left cy cm e)) as [C|C]; [|lia].
        apply guard_months_left in C; trivial. congruence. }
      split; [|lia].
      replace (Z.to_nat (months_left cy cm e)) with O by lia. lia.
Qed.

Lemma passes_bound_enough (cy cm : Z) (e : DateFields) :
  (0 <= cm <= 11)%Z -> wf_fields e ->
  (months_left cy cm e <= Z.of_nat (passes_bound cy cm (ValidDate e)))%Z.
Proof.
  unfold passes_bound, months_left, wf_fields. cbn [getFullYear]. lia.
Qed.

(** The fuel handed to the loop never runs out: the loop stops because
    its guard is false, whatever the cursor and the end date. *)
Lemma loop_stops_by_guard (fuel : nat) (end_ : JSDate) :
  forall (cy cm : Z) (w : Walk),
    (passes_bound cy cm end_ <= fuel)%nat ->
    exists (k : nat) (cy' cm' : Z),
      (k <= fuel)%nat /\
      loop_guard cy' cm' end_ = false /\
      forall fuel', (k <= fuel')%nat ->
        loop fuel' end_ cy cm w = loop fuel end_ cy cm w.
Proof.
  induction fuel as [|fuel IH]; intros cy cm w Hf.
  - exists O, cy, cm. split; [lia|].
    assert (loop_guard cy cm end_ = false) as G.
    { destruct end_ as [|e]; [reflexivity|].
      rewrite guard_valid. unfold passes_bound in Hf.
      cbn [getFullYear] in Hf.
      destruct (cy <? dYear e)%Z eqn:A; [apply Z.ltb_lt in A; lia|].
      destruct (cy =? dYear e)%Z eqn:B; [apply Z.eqb_eq in B; lia|].
      reflexivity. }
    split; [exact G|]. intros fuel' _. now rewrite !loop_guard_false.
  - destruct (loop_guard cy cm end_) eqn:G.
    + destruct end_ as [|e]; [discriminate|].
      assert (cy <= dYear e)%Z as Hy.
      { rewrite guard_valid in G.
        rewrite orb_true_iff, andb_true_iff, Z.ltb_lt, Z.eqb_eq in G. lia. }
      destruct (IH (fst (next_cursor cy cm)) (snd (next_cursor cy cm))
                   (body cy cm w)) as (k & cy' & cm' & Hk & G' & E).
      { unfold passes_bound, next_cursor in *. cbn [getFullYear] in *.
        destruct (cm + 1 >? 11)%Z eqn:C; cbn [fst snd].
        - apply Z.gtb_lt in C. lia.
        - rewrite Z.gtb_ltb, Z.ltb_ge in C. lia. }
      exists (S k), cy', cm'. split; [lia|]. split; [exact G'|].
      intros fuel' Hk'. destruct fuel' as [|fuel']; [lia|].
      rewrite !loop_unfold, G. apply E. lia.
    + exists O, cy, cm. split; [lia|]. split; [exact G|].
      intros fuel' _. now rewrite !loop_guard_false.
Qed.

(** Fuel beyond the bound changes nothing: the loop has ended by then. *)
Lemma fuel_beyond_bound (fuel : nat) (end_ : JSDate) (cy cm : Z) (w : Walk) :
  (passes_bound cy cm end_ <= fuel)%nat ->
  loop fuel end_ cy cm w = loop (passes_bound cy cm end_) end_ cy cm w.
Proof.
  intro H.
  destruct (loop_stops_by_guard (passes_bound cy cm end_) end_ cy cm w
              (le_n _)) as (k & _ & _ & Hk & _ & E).
  apply E. lia.
Qed.

End MonthLoop.

(* ------------------------------------------------------------------ *)
(** ** The engine on a range of dates *)

(** Rounding to two decimal places gives the multiple of 0.01 that is
    nearest to the number, the upper one when the number lies half way
    between two. *)
Lemma round2_nearest_cent (x : Q) :
  exists k : Z,
    JS.round2 x == inject_Z k / 100 /\
    inject_Z k - (1 # 2) <= x * 100 < inject_Z k + (1 # 2).
Proof.
  exists (JS.round (JS.mul x 100)). split.
  - unfold JS.round2. now rewrite JSFacts.div_eq.
  - unfold JS.round.
    pose proof (Qfloor_le (JS.mul x 100 + (1 # 2))) as L.
    pose proof (Qlt_floor (JS.mul x 100 + (1 # 2))) as U.
    rewrite inject_Z_plus in U. change (inject_Z 1) with 1 in U.
    set (k := inject_Z (Qfloor (JS.mul x 100 + (1 # 2)))) in *.
    pose proof (JSFacts.mul_eq x 100) as M. split; lra.
Qed.

Section Engine.

Variable principal : Q.
Variable transactions : list Transaction.
Variable useHistoricalData : bool.
Variable marketIndex : string.

Let project (startDate endDate : JSDate) : Completion CalculationResult :=
  calculateCompoundInterestWithDates principal transactions
    startDate endDate useHistoricalData marketIndex.

Let walk (startDate endDate : JSDate) : Walk :=
  run_walk principal transactions
    (setHoursNoon startDate) (setHoursNoon endDate) marketIndex.

(** On two valid dates the engine returns, and what it returns is read
    off the state in which the month loop ended. *)
Lemma project_valid (s e : DateFields) :
  exists r,
    project (ValidDate s) (ValidDate e) = Normal r /\
    monthlyData r = w_monthlyData (walk (ValidDate s) (ValidDate e)) /\
    yearlyData r = w_yearlyData (walk (ValidDate s) (ValidDate e)) /\
    p_totalMonths (s_investmentPeriod (summary r)) =
      totalMonths (walk (ValidDate s) (ValidDate e)) /\
    s_finalAmount (summary r) =
      JS.round2 (currentAmount (ledger (walk (ValidDate s) (ValidDate e)))).
Proof. eexists. split; [reflexivity|]. repeat split. Qed.

(** An exception can only be the [RangeError] of an invalid date, and
    then the month loop made no pass. *)
Lemma project_throw (startDate endDate : JSDate) (err : JSError) :
  project startDate endDate = Throw err ->
  err = RangeError /\
  (startDate = InvalidDate \/ endDate = InvalidDate) /\
  walk startDate endDate = initial_walk principal.
Proof.
  unfold project, walk, calculateCompoundInterestWithDates, run_walk.
  destruct startDate as [|s]; cbn.
  - intro H. inversion H. auto.
  - destruct endDate as [|e]; cbn.
    + intro H. inversion H. auto.
    + discriminate.
Qed.

(** The walk when the end month comes before the start month. *)
Lemma walk_empty_window (s e : DateFields) :
  (dYear e < dYear s \/ dYear e = dYear s /\ dMonth e < dMonth s)%Z ->
  walk (ValidDate s) (ValidDate e) = initial_walk principal.
Proof.
  intro H. unfold walk, run_walk. cbn [setHoursNoon getFullYear getMonth].
  apply loop_guard_false. rewrite guard_valid. cbn [dYear dMonth].
  rewrite orb_false_iff, andb_false_iff, Z.ltb_ge, Z.eqb_neq, Z.leb_gt. lia.
Qed.

(** The walk over a well-formed range. *)
Lemma walk_count (s e : DateFields) :
  wf_fields s -> wf_fields e ->
  let w := walk (ValidDate s) (ValidDate e) in
  length (w_monthlyData w) =
    Z.to_nat (months_left (dYear s) (dMonth s) e) /\
  totalMonths w = Z.max 0 (months_left (dYear s) (dMonth s) e).
Proof.
  intros Hs He. unfold walk, run_walk.
  cbn [setHoursNoon getFullYear getMonth dYear dMonth].
  set (e' := mkDate (dYear e) (dMonth e) (dDay e) 43200000).
  assert (wf_fields e') as He' by exact He.
  change (months_left (dYear s) (dMonth s) e)
    with (months_left (dYear s) (dMonth s) e').
  apply (loop_count (select_returns marketIndex)
           (select_default marketIndex) (sort_by_date transactions)
           (passes_bound (dYear s) (dMonth s) (ValidDate e')) e' He'
           (dYear s) (dMonth s) (initial_walk principal) Hs).
  now apply passes_bound_enough.
Qed.

(** C10. If the end date falls in a calendar month strictly before the
    month of the start date, the engine returns normally: it emits no
    monthly and no yearly snapshot, reports zero months, and its final
    amount is the principal rounded to two decimal places, that is, the
    multiple [k / 100] of 0.01 that is nearest to the principal, the upper
    one when the principal lies half way between two. *)
Theorem end_month_before_start_month (s e : DateFields) :
  (dYear e < dYear s \/ dYear e = dYear s /\ dMonth e < dMonth s)%Z ->
  exists r,
    project (ValidDate s) (ValidDate e) = Normal r /\
    monthlyData r = [] /\
    yearlyData r = [] /\
    p_totalMonths (s_investmentPeriod (summary r)) = 0%Z /\
    exists k : Z,
      s_finalAmount (summary r) == inject_Z k / 100 /\
      inject_Z k - (1 # 2) <= principal * 100 < inject_Z k + (1 # 2).
Proof.
  intro H. destruct (project_valid s e) as (r & E & M & Y & T & F).
  exists r. rewrite M, Y, T, F, (walk_empty_window s e H).
  split; [exact E|]. split; [reflexivity|]. split; [reflexivity|].
  split; [reflexivity|]. cbn [initial_walk ledger currentAmount].
  apply round2_nearest_cent.
Qed.

(** C5. On a range whose start does not come after its end, the number
    of monthly snapshots is the number of calendar months from the start
    month to the end month, both included; [totalMonths] is that same
    number; and two dates of one calendar month give exactly one monthly
    snapshot, whatever their days. *)
Theorem monthly_snapshots_count (s e : DateFields) :
  wf_fields s -> wf_fields e ->
  exists r,
    project (ValidDate s) (ValidDate e) = Normal r /\
    (date_leb s e = true ->
     Z.of_nat (length (monthlyData r)) =
       months_left (dYear s) (dMonth s) e /\
     p_totalMonths (s_investmentPeriod (summary r)) =
       months_left (dYear s) (dMonth s) e) /\
    (dYear s = dYear e -> dMonth s = dMonth e ->
     length (monthlyData r) = 1%nat /\
     p_totalMonths (s_investmentPeriod (summary r)) = 1%Z).
Proof.
  intros Hs He. destruct (project_valid s e) as (r & E & M & _ & T & _).
  destruct (walk_count s e Hs He) as [L N].
  exists r. rewrite M, T, L, N. split; [exact E|]. split.
  - intro Hle.
    assert (0 < months_left (dYear s) (dMonth s) e)%Z as P.
    { unfold date_leb, date_gtb, date_compare in Hle.
      unfold months_left, wf_fields in *.
      destruct (dYear s ?= dYear e)%Z eqn:A.
      - apply Z.compare_eq in A.
        destruct (dMonth s ?= dMonth e)%Z eqn:B.
        + apply Z.compare_eq in B. lia.
        + rewrite Z.compare_lt_iff in B. lia.
        + discriminate.
      - rewrite Z.compare_lt_iff in A. lia.
      - discriminate. }
    lia.
  - intros Hy Hm. unfold months_left. rewrite Hy, Hm.
    replace (12 * (dYear e - dYear e) + (dMonth e - dMonth e) + 1)%Z
      with 1%Z by lia.
    split; reflexivity.
Qed.

(** C1, as the code has it. A start date that comes after the end date
    is not an error: on any two valid dates the engine returns a result,
    which for such a range holds at most one monthly snapshot.  The only
    exception the engine raises is the [RangeError] of an invalid date,
    and when it is raised the month loop has made no pass, so that no
    monthly and no yearly snapshot has been emitted. *)
Theorem reversed_range_is_not_an_error (startDate endDate : JSDate) :
  (forall s e : DateFields,
      startDate = ValidDate s -> endDate = ValidDate e ->
      date_gtb s e = true ->
      exists r,
        project startDate endDate = Normal r /\
        (length (monthlyData r) <= 1)%nat) /\
  (forall err : JSError,
      project startDate endDate = Throw err ->
      err = RangeError /\
      (startDate = InvalidDate \/ endDate = InvalidDate) /\
      w_monthlyData (walk startDate endDate) = [] /\
      w_yearlyData (walk startDate endDate) = []).
Proof.
  split.
  - intros s e -> -> Hgt.
    destruct (project_valid s e) as (r & E & M & _).
    exists r. split; [exact E|]. rewrite M.
    unfold walk, run_walk.
    cbn [setHoursNoon getFullYear getMonth dYear dMonth].
    set (e' := ValidDate _).
    assert (passes_bound (dYear s) (dMonth s) e' <> O \/
            loop_guard (dYear s) (dMonth s) e' = false) as [F|G].
    { destruct (loop_guard (dYear s) (dMonth s) e') eqn:G; [left|now right].
      subst e'. rewrite guard_valid in G. cbn [dYear dMonth] in G.
      rewrite orb_true_iff, andb_true_iff, Z.ltb_lt, Z.eqb_eq, Z.leb_le in G.
      unfold passes_bound. cbn [getFullYear dYear]. lia. }
    + destruct (passes_bound (dYear s) (dMonth s) e') as [|fuel];
        [congruence|].
      rewrite loop_unfold.
      destruct (loop_guard (dYear s) (dMonth s) e') eqn:G; [|cbn; lia].
      rewrite loop_guard_false.
      * destruct (body_monthlyData (select_returns marketIndex)
                    (select_default marketIndex)
                    (sort_by_date transactions)
                    (dYear s) (dMonth s) (initial_walk principal))
          as [p ->].
        cbn. lia.
      * subst e'. rewrite guard_valid in *. cbn [dYear dMonth] in *.
        rewrite orb_true_iff, andb_true_iff, Z.ltb_lt, Z.eqb_eq, Z.leb_le
          in G.
        unfold date_gtb, date_compare in Hgt.
        assert (dYear s = dYear e /\ dMonth s = dMonth e) as [Hy Hm].
        { destruct (dYear s ?= dYear e)%Z eqn:A.
          - apply Z.compare_eq in A.
            destruct (dMonth s ?= dMonth e)%Z eqn:B.
            + apply Z.compare_eq in B. lia.
            + discriminate.
            + rewrite Z.compare_gt_iff in B. lia.
          - discriminate.
          - rewrite Z.compare_gt_iff in A. lia. }
        unfold next_cursor.
        destruct (dMonth s + 1 >? 11)%Z eqn:C; cbn [fst snd];
          rewrite orb_false_iff, andb_false_iff, Z.ltb_ge, Z.eqb_neq,
            Z.leb_gt; lia.
    + rewrite loop_guard_false by exact G. cbn. lia.
  - intros err H. destruct (project_throw _ _ _ H) as (A & B & C).
    rewrite C. repeat split; trivial.
Qed.

End Engine.

Lemma end_month_before_start_month_witness :
  (dYear (mkDate 2020 2 10 0) = dYear (mkDate 2020 5 15 0) /\
   dMonth (mkDate 2020 2 10 0) < dMonth (mkDate 2020 5 15 0))%Z /\
  exists r,
    calculateCompoundInterestWithDates 1000.126 []
      (day 2020 5 15) (day 2020 2 10) true "sp500" = Normal r /\
    monthlyData r = [] /\
    yearlyData r = [] /\
    p_totalMonths (s_investmentPeriod (summary r)) = 0%Z /\
    s_finalAmount (summary r) == 1000.13.
Proof.
  assert (dYear (mkDate 2020 2 10 0) = dYear (mkDate 2020 5 15 0) /\
          dMonth (mkDate 2020 2 10 0) < dMonth (mkDate 2020 5 15 0))%Z as H
    by (cbn; lia).
  split; [exact H|].
  destruct (end_month_before_start_month 1000.126 [] true "sp500"
              (mkDate 2020 5 15 0) (mkDate 2020 2 10 0) (or_intror H))
    as (r & E & M & Y & T & k & F & L & U).
  exists r. split; [exact E|]. split; [exact M|]. split; [exact Y|].
  split; [exact T|].
  assert (k = 100013%Z) as ->.
  { unfold Qle in L. unfold Qlt in U. cbn in L, U. lia. }
  rewrite F. reflexivity.
Defined.

Lemma monthly_snapshots_count_witness :
  exists r,
    calculateCompoundInterestWithDates 0
      [mkTx (mkDate 2020 0 15 0) 10000 deposit]
      (day 2020 0 10) (day 2021 1 20) true "sp500" = Normal r /\
    Z.of_nat (length (monthlyData r)) = 14%Z /\
    p_totalMonths (s_investmentPeriod (summary r)) = 14%Z.
Proof.
  assert (wf_fields (mkDate 2020 0 10 0)) as Hs by (unfold wf_fields; cbn; lia).
  assert (wf_fields (mkDate 2021 1 20 0)) as He by (unfold wf_fields; cbn; lia).
  destruct (monthly_snapshots_count 0
              [mkTx (mkDate 2020 0 15 0) 10000 deposit] true "sp500"
              (mkDate 2020 0 10 0) (mkDate 2021 1 20 0) Hs He)
    as (r & E & C & _).
  exists r. split; [exact E|]. exact (C eq_refl).
Defined.

(** C1 fails on the code: with an end date five days before the start date
    the engine raises nothing; it returns a result that holds a monthly
    snapshot. *)
Lemma reversed_range_returns_a_snapshot :
  date_gtb (mkDate 2020 2 15 0) (mkDate 2020 2 10 0) = true /\
  (forall err,
      calculateCompoundInterestWithDates 1000 [] (day 2020 2 15)
        (day 2020 2 10) true "sp500" <> Throw err) /\
  exists r,
    calculateCompoundInterestWithDates 1000 [] (day 2020 2 15)
      (day 2020 2 10) true "sp500" = Normal r /\
    length (monthlyData r) = 1%nat.
Proof.
  split; [reflexivity|]. split.
  - intros err H. vm_compute in H. discriminate.
  - eexists. split; [vm_compute; reflexivity|reflexivity].
Qed.

Lemma reversed_range_is_not_an_error_witness :
  (exists r,
      calculateCompoundInterestWithDates 1000 [] (day 2020 2 15)
        (day 2020 2 10) true "sp500" = Normal r /\
      (length (monthlyData r) <= 1)%nat) /\
  (w_monthlyData (run_walk 1000 [] InvalidDate (day 2020 2 10) "sp500") = [] /\
   w_yearlyData (run_walk 1000 [] InvalidDate (day 2020 2 10) "sp500") = []).
Proof.
  split.
  - exact (proj1 (reversed_range_is_not_an_error 1000 [] true "sp500"
                    (day 2020 2 15) (day 2020 2 10))
             (mkDate 2020 2 15 0) (mkDate 2020 2 10 0)
             eq_refl eq_refl eq_refl).
  - exact (proj2 (proj2 (proj2 (reversed_range_is_not_an_error
                    1000 [] true "sp500" InvalidDate (day 2020 2 10))
             RangeError eq_refl))).
Defined.

(* ------------------------------------------------------------------ *)
(** ** The market series *)

Lemma year_span_cons (cy ey : Z) :
  (cy <= ey)%Z -> year_span cy ey = cy :: year_span (cy + 1) ey.
Proof.
  intro H. unfold year_span.
  replace (Z.to_nat (ey - cy + 1)) with (S (Z.to_nat (ey - (cy + 1) + 1)))
    by lia.
  reflexivity.
Qed.

Lemma year_span_nil (cy ey : Z) : (ey < cy)%Z -> year_span cy ey = [].
Proof.
  intro H. unfold year_span.
  replace (Z.to_nat (ey - cy + 1)) with O by lia. reflexivity.
Qed.

Lemma or_else_nonzero (table : HistoricalReturns) (default : Q) (year : Z) :
  nonzero_entries table = true ->
  JS.or_else (year_lookup year table) default =
  tabulated_or_default table default year.
Proof.
  unfold nonzero_entries, tabulated_or_default.
  induction table as [|[y r] table IH]; intro H; [reflexivity|].
  cbn in H. apply andb_true_iff in H. destruct H as [Hr Ht].
  cbn [year_lookup]. destruct (year =? y)%Z.
  - cbn. now rewrite Hr.
  - now apply IH.
Qed.

Lemma sum_from (xs : list Q) (a : Q) : fold_left JS.add xs a == a + total xs.
Proof.
  revert a. induction xs as [|x xs IH]; intro a; cbn [fold_left].
  - unfold total. cbn [fold_right]. ring.
  - rewrite IH, JSFacts.add_eq. unfold total. cbn [fold_right]. ring.
Qed.

Lemma sum_total (xs : list Q) : sum xs == total xs.
Proof. unfold sum. rewrite sum_from. ring. Qed.

Lemma total_app (xs ys : list Q) : total (xs ++ ys) == total xs + total ys.
Proof.
  induction xs as [|x xs IH]; unfold total in *; cbn [app fold_right].
  - ring.
  - rewrite IH. ring.
Qed.

(** A computed mean is the sum divided by the count; it is [NaN] exactly
    on the empty list. *)
Lemma average_spec (xs : list Q) :
  match average xs with
  | Some a => xs <> [] /\ a == total xs / inject_Z (Z.of_nat (length xs))
  | None => xs = []
  end.
Proof.
  destruct xs as [|x xs]; [reflexivity|].
  unfold average. split; [discriminate|].
  now rewrite JSFacts.div_eq, sum_total.
Qed.

Section Series.

Variable index indexName : string.
Variable table : HistoricalReturns.
Variable defaultReturn : Q.

Lemma series_loop_spec (endYear : Z) (fuel : nat) :
  forall (currentYear : Z) (data : list HistoricalDataPoint),
    (endYear - currentYear + 1 <= Z.of_nat fuel)%Z ->
    series_loop fuel index indexName (Some table) defaultReturn
      currentYear endYear data =
    Normal (data ++ map (series_point index indexName table defaultReturn)
                        (year_span currentYear endYear)).
Proof.
  induction fuel as [|fuel IH]; intros cy data Hf.
  - cbn. rewrite year_span_nil by lia. now rewrite app_nil_r.
  - cbn [series_loop]. destruct (cy <=? endYear)%Z eqn:G.
    + apply Z.leb_le in G. rewrite IH by lia.
      rewrite (year_span_cons cy endYear G). cbn [map].
      rewrite <- app_assoc. reflexivity.
    + apply Z.leb_gt in G. rewrite year_span_nil by lia.
      now rewrite app_nil_r.
Qed.

End Series.

(** Each recognized index has its own table in the responder, and no
    entry of these tables is zero. *)
Lemma recognized_cases (index : string) :
  recognized index = true ->
  exists mi table,
    lookup index MARKET_INDICES = Some mi /\
    lookup index generator_historicalReturns = Some table /\
    nonzero_entries table = true.
Proof.
  unfold recognized. unfold MARKET_INDICES. cbn [lookup].
  repeat
    (match goal with
     | |- context [String.eqb index ?k] =>
       let E := fresh "E" in
       destruct (String.eqb index k) eqn:E;
       [ apply String.eqb_eq in E; subst index; intros _;
         eexists; eexists; repeat split; vm_compute; reflexivity
       | ]
     end).
  discriminate.
Qed.

(* ------------------------------------------------------------------ *)
(** ** The year of an entry, spelled in decimal *)

Ltac read_digit :=
  match goal with
  | |- context [digit_value ?c] =>
    let v := eval vm_compute in (digit_value c) in
    change (digit_value c) with v; cbv beta iota
  end.

Lemma digits_value_acc (d : Decimal.uint) :
  forall acc : positive,
    digits_value (Z.pos acc) (NilEmpty.string_of_uint d) =
    Some (Z.pos (Pos.of_uint_acc d acc)).
Proof.
  induction d; intro acc;
    cbn [NilEmpty.string_of_uint digits_value Pos.of_uint_acc];
    [reflexivity|..]; read_digit; rewrite <- IHd; f_equal; lia.
Qed.

Lemma digits_value_uint (d : Decimal.uint) :
  digits_value 0 (NilEmpty.string_of_uint d) = Some (Z.of_N (Pos.of_uint d)).
Proof.
  induction d; cbn [NilEmpty.string_of_uint digits_value Pos.of_uint];
    [reflexivity|..]; read_digit; [exact IHd|..];
    cbn [Z.mul Z.add Z.of_N]; apply digits_value_acc.
Qed.

Lemma nzhead_no_zero (d : Decimal.uint) :
  match Decimal.nzhead d with Decimal.D0 _ => False | _ => True end.
Proof. induction d; cbn [Decimal.nzhead]; auto. Qed.

(** The digits of a positive number: one at least, the first of them not
    a zero. *)
Lemma to_uint_head (p : positive) :
  match Pos.to_uint p with
  | Decimal.Nil | Decimal.D0 _ => False
  | _ => True
  end.
Proof.
  pose proof (DecimalPos.Unsigned.to_of (Pos.to_uint p)) as H.
  rewrite DecimalPos.Unsigned.of_to in H. cbn [N.to_uint] in H.
  pose proof (nzhead_no_zero (Pos.to_uint p)) as Z.
  pose proof (DecimalPos.Unsigned.to_uint_nonzero p) as N.
  rewrite H in N |- *. unfold Decimal.unorm in *.
  destruct (Decimal.nzhead (Pos.to_uint p)); try exact I; try contradiction.
Qed.

Lemma digits_numeral (z : Z) :
  numeral_value (JS.digits z) = Some z /\ no_leading_zero (JS.digits z).
Proof.
  unfold JS.digits. destruct z as [|p|p]; cbn [Z.to_int NilZero.string_of_int].
  - split; [reflexivity|exact I].
  - pose proof (to_uint_head p) as H.
    pose proof (digits_value_uint (Pos.to_uint p)) as V.
    rewrite DecimalPos.Unsigned.of_to in V. cbn [Z.of_N] in V.
    destruct (Pos.to_uint p); try contradiction;
      (split; [exact V|exact I]).
  - pose proof (to_uint_head p) as H.
    pose proof (digits_value_uint (Pos.to_uint p)) as V.
    rewrite DecimalPos.Unsigned.of_to in V. cbn [Z.of_N] in V.
    destruct (Pos.to_uint p); try contradiction;
      (split; [|exact I]);
      unfold NilZero.string_of_uint;
      cbn [numeral_value NilEmpty.string_of_uint];
      cbn [NilEmpty.string_of_uint] in V; rewrite V; reflexivity.
Qed.

(** C9. For a recognized market index and any two valid dates, the
    market-series response holds exactly one entry per calendar year from
    the start year to the end year, in order; each entry carries the
    tabulated return of its year, or the default return of the index when
    the year is not tabulated, and the date December 31 of its year: a
    decimal numeral without a spare leading zero that spells the year,
    followed by [-12-31]; and the average return of the response is the
    arithmetic mean of the returns of the entries (it is [NaN], the
    quotient [0 / 0], when the end year precedes the start year and the
    series is empty). *)
Theorem market_series_per_year (index : string) (s e : DateFields) :
  recognized index = true ->
  exists r mi table,
    generateRealisticMarketData index (ValidDate s) (ValidDate e) = Normal r /\
    lookup index MARKET_INDICES = Some mi /\
    lookup index generator_historicalReturns = Some table /\
    map h_year (r_historicalData r) = year_span (dYear s) (dYear e) /\
    (forall p, In p (r_historicalData r) ->
       h_return p =
         tabulated_or_default table (averageReturn mi) (h_year p) /\
       exists year : string,
         h_date p = (year ++ "-12-31")%string /\
         numeral_value year = Some (h_year p) /\
         no_leading_zero year) /\
    match r_averageReturn r with
    | Some a =>
      r_historicalData r <> [] /\
      a == total (map h_return (r_historicalData r)) /
           inject_Z (Z.of_nat (length (r_historicalData r)))
    | None => r_historicalData r = []
    end.
Proof.
  intro H. destruct (recognized_cases index H) as (mi & table & Hm & Ht & Hz).
  unfold generateRealisticMarketData. rewrite Hm, Ht.
  cbn [getFullYear toISODate bind].
  rewrite series_loop_spec by lia. cbn [app bind].
  eexists. exists mi, table. split; [reflexivity|].
  cbn [r_historicalData r_averageReturn].
  split; [reflexivity|]. split; [reflexivity|]. split; [|split].
  - rewrite map_map. cbn [series_point h_year]. apply map_id.
  - intros p Hp. apply in_map_iff in Hp. destruct Hp as (y & <- & _).
    cbn [series_point h_return h_year h_date].
    split; [now apply or_else_nonzero|].
    exists (JS.digits y). split; [reflexivity|]. apply digits_numeral.
  - pose proof (average_spec
        (map h_return (map (series_point index (name mi) table
                              (averageReturn mi))
                           (year_span (dYear s) (dYear e))))) as A.
    destruct (average _) as [a|].
    + destruct A as [N A]. split.
      * intro C. apply N. rewrite C. reflexivity.
      * rewrite A. now rewrite length_map.
    + now apply map_eq_nil in A.
Qed.

Lemma market_series_per_year_witness :
  recognized "nikkei225" = true /\
  exists r,
    generateRealisticMarketData "nikkei225" (day 2023 5 10) (day 2026 0 20)
      = Normal r /\
    map h_year (r_historicalData r) = [2023; 2024; 2025; 2026]%Z /\
    map h_return (r_historicalData r) = [0.2834; 0.095; 0.085; 0.085] /\
    map h_date (r_historicalData r) =
      ["2023-12-31"; "2024-12-31"; "2025-12-31"; "2026-12-31"]%string /\
    (forall p, In p (r_historicalData r) ->
       exists year : string,
         h_date p = (year ++ "-12-31")%string /\
         numeral_value year = Some (h_year p) /\
         no_leading_zero year).
Proof.
  split; [reflexivity|].
  destruct (market_series_per_year "nikkei225" (mkDate 2023 5 10 0)
              (mkDate 2026 0 20 0) eq_refl)
    as (r & mi & table & E & _ & _ & Y & D & _).
  exists r. split; [exact E|]. split; [exact Y|].
  split; [|split; [|intros p Hp; exact (proj2 (D p Hp))]];
    vm_compute in E; injection E as <-; reflexivity.
Defined.

(* ------------------------------------------------------------------ *)
(** ** What each pass of the month loop records *)

Section Passes.

Variable historicalReturns : HistoricalReturns.
Variable defaultReturn : Q.
Variable sortedTransactions : list Transaction.

(** A property of the walk that every pass keeps holds when the loop ends. *)
Lemma loop_invariant (I : Walk -> Prop) :
  (forall cy cm w, I w ->
     I (month_body historicalReturns defaultReturn sortedTransactions
          cy cm w)) ->
  forall fuel end_ cy cm w,
    I w ->
    I (month_loop fuel historicalReturns defaultReturn sortedTransactions
         end_ cy cm w).
Proof.
  intros Hbody. induction fuel as [|fuel IH]; intros end_ cy cm w Hw.
  - exact Hw.
  - rewrite loop_unfold. destruct (loop_guard cy cm end_); [|exact Hw].
    apply IH. now apply Hbody.
Qed.

(** After any number of passes, the last monthly snapshot, if there is
    one, was taken of the ledger as it stands. *)
Lemma loop_last_snapshot (principal : Q) fuel end_ cy cm :
  let w := month_loop fuel historicalReturns defaultReturn
             sortedTransactions end_ cy cm (initial_walk principal) in
  w_monthlyData w = [] \/
  exists before p,
    w_monthlyData w = before ++ [p] /\ snapshot_of (ledger w) p.
Proof.
  apply loop_invariant with
    (I := fun w => w_monthlyData w = [] \/
                   exists before p,
                     w_monthlyData w = before ++ [p] /\
                     snapshot_of (ledger w) p).
  - intros cy' cm' w _. right. eexists. eexists.
    split; [reflexivity|]. repeat split.
  - now left.
Qed.

(** Every monthly snapshot carries, as a percentage with two decimals, the
    annual return that line 402 reads for its year. *)
Lemma loop_annual_returns (principal : Q) fuel end_ cy cm :
  let w := month_loop fuel historicalReturns defaultReturn
             sortedTransactions end_ cy cm (initial_walk principal) in
  Forall (fun p =>
            m_annualReturn p =
            JS.toFixed2
              (JS.mul (JS.or_else (year_lookup (m_year p) historicalReturns)
                                  defaultReturn) 100))
         (w_monthlyData w).
Proof.
  apply loop_invariant with
    (I := fun w =>
            Forall (fun p =>
                      m_annualReturn p =
                      JS.toFixed2
                        (JS.mul (JS.or_else
                                   (year_lookup (m_year p) historicalReturns)
                                   defaultReturn) 100))
                   (w_monthlyData w)).
  - intros cy' cm' w Hw. unfold month_body. cbn [w_monthlyData].
    apply Forall_app. split; [exact Hw|]. constructor; [reflexivity|constructor].
  - constructor.
Qed.

End Passes.

(** In every result of the engine, the annual return shown by a monthly
    snapshot is [annual_return] of the market index and the year. *)
Lemma monthly_annual_return principal transactions startDate endDate
    useHistoricalData marketIndex r p :
  calculateCompoundInterestWithDates principal transactions startDate endDate
    useHistoricalData marketIndex = Normal r ->
  In p (monthlyData r) ->
  m_annualReturn p =
  JS.toFixed2 (JS.mul (annual_return marketIndex (m_year p)) 100).
Proof.
  unfold calculateCompoundInterestWithDates.
  destruct startDate as [|s]; [discriminate|].
  destruct endDate as [|e]; [discriminate|].
  cbn [setHoursNoon toISODate bind]. intros E Hp. injection E as <-.
  cbn [monthlyData] in Hp. unfold run_walk in Hp.
  cbn [getFullYear getMonth] in Hp.
  pose proof (loop_annual_returns (select_returns marketIndex)
                (select_default marketIndex) (sort_by_date transactions)
                principal
                (passes_bound (dYear s) (dMonth s)
                   (ValidDate (mkDate (dYear e) (dMonth e) (dDay e) 43200000)))
                (ValidDate (mkDate (dYear e) (dMonth e) (dDay e) 43200000))
                (dYear s) (dMonth s)) as F.
  cbv zeta in F. rewrite Forall_forall in F. exact (F p Hp).
Qed.

(** The three indices that have a table of their own in the engine read
    it, with their own default for a year that it lacks. *)
Lemma own_table_return (marketIndex : string) :
  In marketIndex ["sp500"; "nasdaq"; "russell2000"]%string ->
  exists mi table,
    lookup marketIndex MARKET_INDICES = Some mi /\
    lookup marketIndex allHistoricalReturns = Some table /\
    forall year,
      annual_return marketIndex year =
      tabulated_or_default table (averageReturn mi) year.
Proof.
  intros [<-|[<-|[<-|[]]]]; eexists; eexists;
    (split; [reflexivity|]); (split; [reflexivity|]); intro year;
    unfold annual_return; apply or_else_nonzero; vm_compute; reflexivity.
Qed.

(** The three recognized indices without a table in the engine read the
    table of [sp500], with their own default for a year that it lacks. *)
Lemma borrowed_table_return (marketIndex : string) :
  In marketIndex ["dow"; "ftse100"; "nikkei225"]%string ->
  exists mi table,
    lookup marketIndex MARKET_INDICES = Some mi /\
    lookup marketIndex allHistoricalReturns = None /\
    lookup "sp500" allHistoricalReturns = Some table /\
    forall year,
      annual_return marketIndex year =
      tabulated_or_default table (averageReturn mi) year.
Proof.
  intros [<-|[<-|[<-|[]]]]; eexists; eexists;
    (split; [reflexivity|]); (split; [reflexivity|]);
    (split; [reflexivity|]); intro year;
    unfold annual_return; apply or_else_nonzero; vm_compute; reflexivity.
Qed.

(** C3 on the code. The recognized index [dow] has no table of its own in
    the engine, whose Dow Jones table sits under the key [dowjones], so
    the walk reads the S&P 500 return of the year: 16.40 % for 2020, where
    the Dow Jones table of the engine and of the market-series responder
    both say 7.25 %.  For a year that the S&P 500 table lacks, the walk
    reads the default return of [dow], not the baseline default. *)
Theorem dow_walks_on_sp500_returns :
  recognized "dow" = true /\
  lookup "dow" allHistoricalReturns = None /\
  (exists table,
      lookup "dowjones" allHistoricalReturns = Some table /\
      lookup "dow" generator_historicalReturns = Some table /\
      year_lookup 2020 table = Some 0.0725) /\
  annual_return "dow" 2020 = 0.1640 /\
  annual_return "sp500" 2020 = 0.1640 /\
  annual_return "dow" 2025 = 0.095 /\
  annual_return "sp500" 2025 = 0.10 /\
  exists r,
    calculateCompoundInterestWithDates 1000 [] (day 2020 0 10) (day 2020 0 20)
      true "dow" = Normal r /\
    map m_annualReturn (monthlyData r) = ["16.40"%string] /\
    map m_amount (monthlyData r) = [1013.67].
Proof.
  split; [reflexivity|]. split; [reflexivity|]. split.
  { eexists. split; [reflexivity|]. split; reflexivity. }
  split; [reflexivity|]. split; [reflexivity|]. split; [reflexivity|].
  split; [reflexivity|].
  run_engine. split; reflexivity.
Qed.

(** C4 on the code. The average is taken over the tabulated years of the
    window only.  From January 2024 to December 2025 on [sp500] the walk
    reads 12 % for 2024 and the default 10 % for the untabulated 2025, whose
    mean is 11.00, but the summary reports 12.00; on a window past the end
    of the table (2025-2026) the summary reports NaN, where the mean of the
    returns read is 10.00. *)
Theorem average_skips_untabulated_years :
  (exists r,
      calculateCompoundInterestWithDates 1000 [] (day 2024 0 10)
        (day 2025 11 20) true "sp500" = Normal r /\
      s_averageAnnualReturn (summary r) = "12.00"%string /\
      map m_annualReturn (monthlyData r) =
        repeat "12.00"%string 12 ++ repeat "10.00"%string 12) /\
  window_mean_percentage "sp500" 2024 2025 = "11.00"%string /\
  (exists r,
      calculateCompoundInterestWithDates 1000 [] (day 2025 0 10)
        (day 2026 11 20) true "sp500" = Normal r /\
      s_averageAnnualReturn (summary r) = "NaN"%string) /\
  window_mean_percentage "sp500" 2025 2026 = "10.00"%string.
Proof.
  split.
  { run_engine. split; reflexivity. }
  split; [reflexivity|]. split.
  { run_engine. reflexivity. }
  reflexivity.
Qed.

(* ------------------------------------------------------------------ *)
(** ** Rounding to cents *)

Lemma round_bounds (x : Q) :
  inject_Z (JS.round x) <= x + (1 # 2) /\
  x + (1 # 2) < inject_Z (JS.round x) + 1.
Proof.
  unfold JS.round. split.
  - apply Qfloor_le.
  - pose proof (Qlt_floor (x + (1 # 2))) as H.
    rewrite inject_Z_plus in H. exact H.
Qed.

Lemma round2_eq (x : Q) :
  JS.round2 x == inject_Z (JS.round (x * 100)) / 100.
Proof.
  unfold JS.round2, JS.round. rewrite JSFacts.div_eq.
  rewrite (Qfloor_comp (JS.mul x 100 + (1 # 2)) (x * 100 + (1 # 2))).
  - reflexivity.
  - now rewrite JSFacts.mul_eq.
Qed.

(** Rounding a difference and subtracting two rounded figures differ by
    one cent at most. *)
Lemma round2_sub_within_a_cent (a b : Q) :
  Qabs (JS.round2 (JS.sub a b) - (JS.round2 a - JS.round2 b)) <= 0.01.
Proof.
  rewrite !round2_eq.
  assert (JS.round (JS.sub a b * 100) = JS.round (a * 100 - b * 100)) as ->.
  { unfold JS.round. apply Qfloor_comp. rewrite JSFacts.sub_eq. ring. }
  destruct (round_bounds (a * 100)) as [A1 A2].
  destruct (round_bounds (b * 100)) as [B1 B2].
  destruct (round_bounds (a * 100 - b * 100)) as [C1 C2].
  set (ra := JS.round (a * 100)) in *.
  set (rb := JS.round (b * 100)) in *.
  set (rc := JS.round (a * 100 - b * 100)) in *.
  assert (-2 < rc - ra + rb < 2)%Z as [L U].
  { split; rewrite Zlt_Qlt; unfold Z.sub;
      rewrite !inject_Z_plus, inject_Z_opp;
      change (inject_Z (-2)) with (-2); change (inject_Z 2) with 2; lra. }
  assert (-1 <= inject_Z rc - inject_Z ra + inject_Z rb <= 1) as [L' U'].
  { split.
    - assert (-1 <= rc - ra + rb)%Z as H by lia. rewrite Zle_Qle in H.
      unfold Z.sub in H. rewrite !inject_Z_plus, inject_Z_opp in H. exact H.
    - assert (rc - ra + rb <= 1)%Z as H by lia. rewrite Zle_Qle in H.
      unfold Z.sub in H. rewrite !inject_Z_plus, inject_Z_opp in H. exact H. }
  apply Qabs_Qle_condition. unfold Qdiv. change (/ 100) with (1 # 100).
  change 0.01 with (1 # 100). split; lra.
Qed.

(* ------------------------------------------------------------------ *)
(** ** The summary against the last monthly snapshot *)

(** C7, as the code has it. When the engine returns a result with at least
    one monthly snapshot, the final amount of the summary is the amount of
    the last monthly snapshot, and the total gains and the net investment
    of the summary are the gains and the net investment of that snapshot:
    each is a difference taken on the unrounded figures and rounded once.
    Against the rounded figures of the summary they are right to within
    one cent: [totalGains] differs from [finalAmount - totalContributions],
    and [netInvestment] from [totalDeposits - totalWithdrawals], by 0.01
    at most. *)
Theorem summary_matches_last_snapshot principal transactions
    startDate endDate useHistoricalData marketIndex r :
  calculateCompoundInterestWithDates principal transactions startDate endDate
    useHistoricalData marketIndex = Normal r ->
  monthlyData r <> [] ->
  exists before last,
    monthlyData r = before ++ [last] /\
    s_finalAmount (summary r) = m_amount last /\
    s_totalGains (summary r) = m_gains last /\
    s_netInvestment (summary r) = m_netInvestment last /\
    Qabs (s_totalGains (summary r) -
          (s_finalAmount (summary r) - s_totalContributions (summary r)))
      <= 0.01 /\
    Qabs (s_netInvestment (summary r) -
          (s_totalDeposits (summary r) - s_totalWithdrawals (summary r)))
      <= 0.01.
Proof.
  unfold calculateCompoundInterestWithDates.
  destruct startDate as [|s]; [discriminate|].
  destruct endDate as [|e]; [discriminate|].
  cbn [setHoursNoon toISODate bind]. intros E Hne. injection E as <-.
  cbn [monthlyData summary s_finalAmount s_totalGains s_netInvestment
       s_totalContributions s_totalDeposits s_totalWithdrawals] in *.
  unfold run_walk in *. cbn [getFullYear getMonth] in *.
  set (end_ := ValidDate (mkDate (dYear e) (dMonth e) (dDay e) 43200000)) in *.
  destruct (loop_last_snapshot (select_returns marketIndex)
              (select_default marketIndex) (sort_by_date transactions)
              principal (passes_bound (dYear s) (dMonth s) end_) end_
              (dYear s) (dMonth s))
    as [Hnil|(before & last & Hd & Ha & _ & Hn & Hg)];
    [contradiction|].
  exists before, last. rewrite Ha, Hg, Hn.
  repeat split; trivial; apply round2_sub_within_a_cent.
Qed.

(** C7 fails on the code: on a one-month walk from a principal of 1.002
    with a withdrawal of 0.236, the summary reports a final amount of 0.78,
    contributions of 1.00 and gains of -0.23, deposits of 1.00, withdrawals
    of 0.24 and a net investment of 0.77. *)
Lemma rounded_summary_off_by_a_cent :
  exists r,
    calculateCompoundInterestWithDates 1.002
      [mkTx (mkDate 2020 0 15 0) 0.236 withdrawal]
      (day 2020 0 10) (day 2020 0 20) true "sp500" = Normal r /\
    length (monthlyData r) = 1%nat /\
    s_finalAmount (summary r) == 0.78 /\
    s_totalContributions (summary r) == 1.00 /\
    s_totalGains (summary r) == -0.23 /\
    ~ s_totalGains (summary r) ==
      s_finalAmount (summary r) - s_totalContributions (summary r) /\
    s_totalDeposits (summary r) == 1.00 /\
    s_totalWithdrawals (summary r) == 0.24 /\
    s_netInvestment (summary r) == 0.77 /\
    ~ s_netInvestment (summary r) ==
      s_totalDeposits (summary r) - s_totalWithdrawals (summary r).
Proof.
  run_engine.
  cbn [summary monthlyData s_finalAmount s_totalContributions s_totalGains
       s_totalDeposits s_totalWithdrawals s_netInvestment].
  repeat split; try reflexivity; try (intro H; vm_compute in H; discriminate).
Qed.

Lemma summary_matches_last_snapshot_witness :
  exists r before last,
    calculateCompoundInterestWithDates 0
      [mkTx (mkDate 2020 0 15 0) 10000 deposit]
      (day 2020 0 10) (day 2020 2 20) true "sp500" = Normal r /\
    monthlyData r = before ++ [last] /\
    s_finalAmount (summary r) = m_amount last /\
    s_totalGains (summary r) = m_gains last /\
    s_netInvestment (summary r) = m_netInvestment last.
Proof.
  destruct (calculateCompoundInterestWithDates 0
              [mkTx (mkDate 2020 0 15 0) 10000 deposit]
              (day 2020 0 10) (day 2020 2 20) true "sp500")
    as [r|err] eqn:E; [|vm_compute in E; discriminate].
  assert (monthlyData r <> []) as Hne.
  { pose proof E as E'. vm_compute in E'. injection E' as <-. discriminate. }
  destruct (summary_matches_last_snapshot _ _ _ _ _ _ _ E Hne)
    as (before & last & Hd & Ha & Hg & Hn & _).
  exists r, before, last. repeat split; assumption.
Defined.

(* ------------------------------------------------------------------ *)
(** ** The withdrawal clamp *)

(** One step of withdrawal. A withdrawal that is applied takes
    [min(amount, max(0, currentAmount))] off the balance and adds exactly
    that to the total of withdrawals; contributions and deposits do not
    move.  When the balance before the step is not negative, the balance
    after it is not negative either, and if the requested amount exceeds
    the balance, the balance becomes exactly zero and the recorded
    withdrawal is the balance before the step.  When the balance before the
    step is negative, a withdrawal of a non-negative amount takes nothing
    and the balance stays as it was. *)
Theorem withdrawal_clamp (transaction : Transaction) (l : Ledger) :
  t_type transaction = withdrawal ->
  let taken := Qmin (t_amount transaction) (Qmax 0 (currentAmount l)) in
  let l' := apply_transaction transaction l in
  currentAmount l' == currentAmount l - taken /\
  totalWithdrawals l' == totalWithdrawals l + taken /\
  totalContributions l' = totalContributions l /\
  totalDeposits l' = totalDeposits l /\
  (0 <= currentAmount l -> 0 <= currentAmount l') /\
  (0 <= currentAmount l -> currentAmount l < t_amount transaction ->
   currentAmount l' = 0 /\
   totalWithdrawals l' == totalWithdrawals l + currentAmount l) /\
  (currentAmount l < 0 -> 0 <= t_amount transaction ->
   currentAmount l' == currentAmount l /\
   totalWithdrawals l' == totalWithdrawals l).
Proof.
  intros Ht taken l'. subst l'. unfold apply_transaction. rewrite Ht.
  cbn [currentAmount totalWithdrawals totalContributions totalDeposits].
  assert (JS.min (t_amount transaction) (JS.max 0 (currentAmount l)) == taken)
    as Hw.
  { subst taken. rewrite JSFacts.min_eq.
    apply Q.min_compat; [reflexivity|apply JSFacts.max_eq]. }
  assert (taken <= Qmax 0 (currentAmount l)) as Hle by apply Q.le_min_r.
  split; [now rewrite JSFacts.sub_eq, Hw|].
  split; [now rewrite JSFacts.add_eq, Hw|].
  split; [reflexivity|]. split; [reflexivity|]. split; [|split].
  - intro Hc. rewrite JSFacts.sub_eq, Hw.
    rewrite (Q.max_r 0 (currentAmount l) Hc) in Hle. lra.
  - intros Hc Ha.
    assert (taken == currentAmount l) as Hk.
    { subst taken. rewrite (Q.max_r 0 (currentAmount l) Hc).
      apply Q.min_r. lra. }
    split.
    + unfold JS.sub. change 0 with (Qred 0). apply Qred_complete.
      rewrite Hw, Hk. ring.
    + rewrite JSFacts.add_eq, Hw, Hk. reflexivity.
  - intros Hc Ha.
    assert (taken == 0) as Hk.
    { subst taken. rewrite (Q.max_l 0 (currentAmount l)) by lra.
      now apply Q.min_r. }
    split.
    + rewrite JSFacts.sub_eq, Hw, Hk. ring.
    + rewrite JSFacts.add_eq, Hw, Hk. ring.
Qed.

Lemma withdrawal_clamp_witness :
  let transaction := mkTx (mkDate 2020 1 10 0) 500 withdrawal in
  let l := mkLedger 120.50 1000 1000 0 O in
  currentAmount (apply_transaction transaction l) = 0 /\
  totalWithdrawals (apply_transaction transaction l) == 120.50.
Proof.
  intros transaction l.
  destruct (withdrawal_clamp transaction l eq_refl)
    as (_ & _ & _ & _ & _ & H & _).
  destruct H as [H1 H2].
  - cbn. lra.
  - cbn. lra.
  - split; [exact H1|]. rewrite H2. cbn. ring.
Defined.

(** A negative principal is not an input that the engine is written for.
    On one, the clamp reads differently: from a principal of -100, a
    withdrawal of 50 takes nothing, the balance after the step is -100 and
    the recorded withdrawal is zero. *)
Lemma withdrawal_from_negative_balance :
  let transaction := mkTx (mkDate 2020 0 15 0) 50 withdrawal in
  let l := ledger (initial_walk (-100)) in
  currentAmount l < t_amount transaction /\
  currentAmount (apply_transaction transaction l) < 0 /\
  ~ currentAmount (apply_transaction transaction l) == 0 /\
  totalWithdrawals (apply_transaction transaction l) == 0 /\
  ~ totalWithdrawals (apply_transaction transaction l) == currentAmount l /\
  exists r,
    calculateCompoundInterestWithDates (-100) [transaction]
      (day 2020 0 10) (day 2020 0 20) true "sp500" = Normal r /\
    s_totalWithdrawals (summary r) == 0 /\
    s_finalAmount (summary r) == -101.37.
Proof.
  cbv zeta. split; [reflexivity|]. split; [reflexivity|].
  split; [intro H; vm_compute in H; discriminate|].
  split; [reflexivity|].
  split; [intro H; vm_compute in H; discriminate|].
  run_engine. split; reflexivity.
Qed.

(* ------------------------------------------------------------------ *)
(** ** The balance of a walk on non-negative inputs *)

Lemma lookup_in {A : Type} (k : string) (o : list (string * A)) (v : A) :
  lookup k o = Some v -> In (k, v) o.
Proof.
  induction o as [|[k' v'] o IH]; cbn; [discriminate|].
  destruct (String.eqb k k') eqn:E.
  - apply String.eqb_eq in E. intro H. injection H as ->. left. now subst.
  - intro H. right. now apply IH.
Qed.

Lemma year_lookup_above (table : HistoricalReturns) (year : Z) (r : Q) :
  above_minus_twelve table = true ->
  year_lookup year table = Some r -> -12 <= r.
Proof.
  unfold above_minus_twelve.
  induction table as [|[y r'] table IH]; cbn; [discriminate|].
  intro H. apply andb_true_iff in H. destruct H as [Hr Ht].
  destruct (year =? y)%Z.
  - intro E. injection E as <-.
    apply negb_true_iff in Hr.
    destruct (Qlt_le_dec r' (-12)) as [C|C]; [|exact C].
    apply JSFacts.ltb_spec in C. congruence.
  - now apply IH.
Qed.

Lemma select_returns_above (marketIndex : string) :
  above_minus_twelve (select_returns marketIndex) = true.
Proof.
  assert (forallb (fun kt => above_minus_twelve (snd kt))
                  allHistoricalReturns = true) as All
    by (vm_compute; reflexivity).
  rewrite forallb_forall in All. unfold select_returns.
  destruct (lookup marketIndex allHistoricalReturns) as [table|] eqn:E.
  - exact (All _ (lookup_in _ _ _ E)).
  - vm_compute. reflexivity.
Qed.

Lemma select_default_above (marketIndex : string) :
  -12 <= select_default marketIndex.
Proof.
  assert (forallb (fun kv => negb (JS.ltb (averageReturn (snd kv)) (-12)))
                  MARKET_INDICES = true) as All
    by (vm_compute; reflexivity).
  rewrite forallb_forall in All. unfold select_default.
  destruct (lookup marketIndex MARKET_INDICES) as [mi|] eqn:E;
    cbn [option_map JS.or_else].
  - destruct (JS.truthy (averageReturn mi)).
    + pose proof (All _ (lookup_in _ _ _ E)) as H. cbn [snd] in H.
      apply negb_true_iff in H.
      destruct (Qlt_le_dec (averageReturn mi) (-12)) as [C|C]; [|exact C].
      apply JSFacts.ltb_spec in C. congruence.
    + vm_compute. discriminate.
  - vm_compute. discriminate.
Qed.

(** The annual return read for any index and year is above -12. *)
Lemma annual_return_above (marketIndex : string) (year : Z) :
  -12 <= annual_return marketIndex year.
Proof.
  unfold annual_return, JS.or_else.
  destruct (year_lookup year (select_returns marketIndex)) as [r|] eqn:E.
  - destruct (JS.truthy r).
    + exact (year_lookup_above _ _ _ (select_returns_above marketIndex) E).
    + apply select_default_above.
  - apply select_default_above.
Qed.

Lemma apply_transaction_nonneg (t : Transaction) (l : Ledger) :
  no_negative_deposit t -> 0 <= currentAmount l ->
  0 <= currentAmount (apply_transaction t l).
Proof.
  intros Ht Hc. destruct (t_type t) eqn:K.
  - unfold apply_transaction. rewrite K. cbn [currentAmount].
    rewrite JSFacts.add_eq. specialize (Ht K). lra.
  - unfold apply_transaction. rewrite K. cbn [currentAmount].
    rewrite JSFacts.sub_eq, JSFacts.min_eq.
    pose proof (Q.le_min_r (t_amount t) (JS.max 0 (currentAmount l))) as M.
    assert (JS.max 0 (currentAmount l) == currentAmount l) as E
      by (rewrite JSFacts.max_eq; now apply Q.max_r).
    lra.
Qed.

Lemma consume_nonneg (cy cm : Z) (pending : list Transaction) :
  Forall no_negative_deposit pending ->
  forall l, 0 <= currentAmount l ->
            0 <= currentAmount (consume cy cm pending l).
Proof.
  induction 1 as [|t pending Ht _ IH]; intros l Hl; cbn [consume];
    [exact Hl|].
  destruct (in_month cy cm t).
  - apply IH. now apply apply_transaction_nonneg.
  - destruct (date_gtb (t_date t) (mkDate cy cm 1 0)); [exact Hl|].
    apply IH. exact Hl.
Qed.

Lemma insert_by_date_forall (P : Transaction -> Prop) t l :
  P t -> Forall P l -> Forall P (insert_by_date t l).
Proof.
  intros Ht. induction 1 as [|u l Hu Hl IH]; cbn.
  - now repeat constructor.
  - destruct (date_gtb (t_date t) (t_date u)); now repeat constructor.
Qed.

Lemma sort_by_date_forall (P : Transaction -> Prop) l :
  Forall P l -> Forall P (sort_by_date l).
Proof.
  induction 1 as [|t l Ht Hl IH]; cbn; [constructor|].
  now apply insert_by_date_forall.
Qed.

Lemma skipn_forall {A : Type} (P : A -> Prop) (n : nat) (l : list A) :
  Forall P l -> Forall P (skipn n l).
Proof.
  revert l. induction n as [|n IH]; intros l H; [exact H|].
  destruct H; cbn; [constructor|now apply IH].
Qed.

Lemma round2_nonneg (x : Q) : 0 <= x -> 0 <= JS.round2 x.
Proof.
  intro H. rewrite round2_eq.
  assert (0 <= JS.round (x * 100))%Z as R.
  { unfold JS.round. change 0%Z with (Qfloor 0).
    apply Qfloor_resp_le. lra. }
  rewrite Zle_Qle in R. change (inject_Z 0) with 0 in R.
  unfold Qdiv. change (/ 100) with (1 # 100). lra.
Qed.

(** With a principal that is not negative and no negative deposit, the
    balance is never negative: not after any pass of the month loop, and
    so not before any withdrawal either. *)
Lemma balance_never_negative principal transactions start end_ marketIndex :
  0 <= principal ->
  Forall no_negative_deposit transactions ->
  let w := run_walk principal transactions start end_ marketIndex in
  0 <= currentAmount (ledger w) /\
  Forall (fun p => 0 <= m_amount p) (w_monthlyData w).
Proof.
  intros Hp Ht. unfold run_walk.
  destruct (getFullYear start) as [cy|]; [|cbn; split; [exact Hp|constructor]].
  destruct (getMonth start) as [cm|]; [|cbn; split; [exact Hp|constructor]].
  apply loop_invariant with
    (I := fun w => 0 <= currentAmount (ledger w) /\
                   Forall (fun p => 0 <= m_amount p) (w_monthlyData w)).
  - intros cy' cm' w [Hc Hm]. unfold month_body.
    cbn [ledger currentAmount w_monthlyData m_amount].
    assert (0 <= JS.mul
                   (currentAmount
                      (consume cy' cm'
                         (skipn (transactionIndex (ledger w))
                                (sort_by_date transactions)) (ledger w)))
                   (JS.add 1
                      (JS.div (JS.or_else
                                 (year_lookup cy' (select_returns marketIndex))
                                 (select_default marketIndex)) 12))) as G.
    { rewrite JSFacts.mul_eq, JSFacts.add_eq, JSFacts.div_eq.
      pose proof (annual_return_above marketIndex cy') as A.
      unfold annual_return in A.
      apply Qmult_le_0_compat.
      - apply consume_nonneg; [|exact Hc].
        apply skipn_forall. now apply sort_by_date_forall.
      - unfold Qdiv. change (/ 12) with (1 # 12). lra. }
    split; [exact G|].
    apply Forall_app. split; [exact Hm|].
    constructor; [|constructor]. cbn [m_amount]. now apply round2_nonneg.
  - cbn. split; [exact Hp|constructor].
Qed.

(* ------------------------------------------------------------------ *)
(** ** The withdrawals of a walk *)

Lemma apply_transaction_withdrawn (t : Transaction) (l : Ledger) :
  totalWithdrawals (apply_transaction t l) ==
  totalWithdrawals l + taken_by (t, l).
Proof.
  unfold apply_transaction, taken_by. cbn [fst snd].
  destruct (t_type t); cbn [totalWithdrawals]; [ring|].
  rewrite JSFacts.add_eq, JSFacts.min_eq.
  apply Qplus_comp; [reflexivity|].
  apply Q.min_compat; [reflexivity|apply JSFacts.max_eq].
Qed.

(** The steps of a pass account for the withdrawals of the pass. *)
Lemma consume_withdrawn (cy cm : Z) (pending : list Transaction) :
  forall l,
    totalWithdrawals (consume cy cm pending l) ==
    totalWithdrawals l + total (map taken_by (applied_in_month cy cm pending l)).
Proof.
  induction pending as [|t pending IH]; intro l;
    cbn [consume applied_in_month].
  - unfold total. cbn. ring.
  - destruct (in_month cy cm t).
    + rewrite IH, apply_transaction_withdrawn. cbn [map].
      unfold total. cbn [fold_right]. ring.
    + destruct (date_gtb (t_date t) (mkDate cy cm 1 0)).
      * unfold total. cbn. ring.
      * rewrite IH. reflexivity.
Qed.

(** The steps of a walk account for the withdrawals of the walk. *)
Lemma loop_withdrawn historicalReturns defaultReturn sortedTransactions
    end_ (fuel : nat) :
  forall cy cm w,
    totalWithdrawals
      (ledger (month_loop fuel historicalReturns defaultReturn
                 sortedTransactions end_ cy cm w)) ==
    totalWithdrawals (ledger w) +
    total (map taken_by
             (applied_in_loop fuel historicalReturns defaultReturn
                sortedTransactions end_ cy cm w)).
Proof.
  induction fuel as [|fuel IH]; intros cy cm w;
    cbn [month_loop applied_in_loop].
  - unfold total. cbn. ring.
  - destruct (loop_guard cy cm end_); [|unfold total; cbn; ring].
    destruct (next_cursor cy cm) as [ny nm].
    rewrite IH, map_app, total_app.
    unfold month_body at 1. cbn [ledger totalWithdrawals].
    rewrite consume_withdrawn. ring.
Qed.

Lemma walk_withdrawn principal transactions start end_ marketIndex :
  totalWithdrawals
    (ledger (run_walk principal transactions start end_ marketIndex)) ==
  total (map taken_by
           (applied_in_walk principal transactions start end_ marketIndex)).
Proof.
  unfold run_walk, applied_in_walk.
  destruct (getFullYear start); [|unfold total; cbn; ring].
  destruct (getMonth start); [|unfold total; cbn; ring].
  rewrite loop_withdrawn. cbn [initial_walk ledger totalWithdrawals]. ring.
Qed.

Lemma applied_in_month_nonneg (cy cm : Z) (pending : list Transaction) :
  Forall no_negative_deposit pending ->
  forall l, 0 <= currentAmount l ->
    Forall (fun step => 0 <= currentAmount (snd step))
           (applied_in_month cy cm pending l).
Proof.
  induction 1 as [|t pending Ht _ IH]; intros l Hl;
    cbn [applied_in_month]; [constructor|].
  destruct (in_month cy cm t).
  - constructor; [exact Hl|]. apply IH. now apply apply_transaction_nonneg.
  - destruct (date_gtb (t_date t) (mkDate cy cm 1 0)); [constructor|].
    apply IH. exact Hl.
Qed.

Lemma body_nonneg marketIndex (sortedTransactions : list Transaction)
    (cy cm : Z) (w : Walk) :
  Forall no_negative_deposit sortedTransactions ->
  0 <= currentAmount (ledger w) ->
  0 <= currentAmount
         (ledger (month_body (select_returns marketIndex)
                    (select_default marketIndex) sortedTransactions
                    cy cm w)).
Proof.
  intros Ht Hc. unfold month_body. cbn [ledger currentAmount].
  rewrite JSFacts.mul_eq, JSFacts.add_eq, JSFacts.div_eq.
  pose proof (annual_return_above marketIndex cy) as A.
  unfold annual_return in A.
  apply Qmult_le_0_compat.
  - apply consume_nonneg; [|exact Hc]. now apply skipn_forall.
  - unfold Qdiv. change (/ 12) with (1 # 12). lra.
Qed.

Lemma applied_in_loop_nonneg marketIndex
    (sortedTransactions : list Transaction) end_ (fuel : nat) :
  Forall no_negative_deposit sortedTransactions ->
  forall cy cm w,
    0 <= currentAmount (ledger w) ->
    Forall (fun step => 0 <= currentAmount (snd step))
           (applied_in_loop fuel (select_returns marketIndex)
              (select_default marketIndex) sortedTransactions
              end_ cy cm w).
Proof.
  intro Ht. induction fuel as [|fuel IH]; intros cy cm w Hw;
    cbn [applied_in_loop]; [constructor|].
  destruct (loop_guard cy cm end_); [|constructor].
  destruct (next_cursor cy cm) as [ny nm].
  apply Forall_app. split.
  - apply applied_in_month_nonneg; [now apply skipn_forall|exact Hw].
  - apply IH. now apply body_nonneg.
Qed.

Lemma applied_in_walk_nonneg principal transactions start end_ marketIndex :
  0 <= principal ->
  Forall no_negative_deposit transactions ->
  Forall (fun step => 0 <= currentAmount (snd step))
         (applied_in_walk principal transactions start end_ marketIndex).
Proof.
  intros Hp Ht. unfold applied_in_walk.
  destruct (getFullYear start); [|constructor].
  destruct (getMonth start); [|constructor].
  apply applied_in_loop_nonneg; [now apply sort_by_date_forall|exact Hp].
Qed.

Lemma same_figures_refl (l : Ledger) : same_figures l l.
Proof. repeat split. Qed.

Lemma same_figures_trans (a b c : Ledger) :
  same_figures a b -> same_figures b c -> same_figures a c.
Proof.
  intros (A1 & A2 & A3 & A4) (B1 & B2 & B3 & B4).
  repeat split; congruence.
Qed.

Lemma apply_same_figures (t : Transaction) (a b : Ledger) :
  same_figures a b ->
  same_figures (apply_transaction t a) (apply_transaction t b).
Proof.
  intros (H1 & H2 & H3 & H4). unfold apply_transaction.
  destruct (t_type t);
    cbn [currentAmount totalContributions totalDeposits totalWithdrawals];
    rewrite ?H1, ?H2, ?H3, ?H4; repeat split.
Qed.

Lemma apply_all_same_figures (ts : list Transaction) :
  forall a b, same_figures a b ->
              same_figures (apply_all ts a) (apply_all ts b).
Proof.
  induction ts as [|t ts IH]; intros a b H; [exact H|].
  apply (IH (apply_transaction t a) (apply_transaction t b)).
  now apply apply_same_figures.
Qed.

(** The figures after a pass over the pending transactions are the
    figures that the steps of the pass make, one after the other. *)
Lemma consume_replays (cy cm : Z) (pending : list Transaction) :
  forall l,
    same_figures (consume cy cm pending l)
      (apply_all (map fst (applied_in_month cy cm pending l)) l).
Proof.
  induction pending as [|t pending IH]; intro l;
    cbn [consume applied_in_month]; [apply same_figures_refl|].
  destruct (in_month cy cm t); [apply IH|].
  destruct (date_gtb (t_date t) (mkDate cy cm 1 0));
    [apply same_figures_refl|].
  apply same_figures_trans with (1 := IH (skip_transaction l)).
  apply apply_all_same_figures. repeat split.
Qed.

(** The ledger recorded with a step shows the figures that the steps
    before it in the pass have made. *)
Lemma applied_in_month_ledgers (cy cm : Z) (pending : list Transaction) :
  forall l before t l0 after,
    applied_in_month cy cm pending l = before ++ (t, l0) :: after ->
    same_figures l0 (apply_all (map fst before) l).
Proof.
  induction pending as [|u pending IH]; intros l before t l0 after E;
    cbn [applied_in_month] in E.
  - destruct before; discriminate.
  - destruct (in_month cy cm u).
    + destruct before as [|b before]; cbn [app] in E.
      * injection E as _ <- _. apply same_figures_refl.
      * injection E as <- E. cbn [map fst]. apply (IH _ _ _ _ _ E).
    + destruct (date_gtb (t_date u) (mkDate cy cm 1 0));
        [destruct before; discriminate|].
      apply same_figures_trans with (1 := IH _ _ _ _ _ E).
      apply apply_all_same_figures. repeat split.
Qed.

(** C6. On a principal that is not negative and deposits that are not
    negative, in every simulated month and for every withdrawal that is
    applied in it: the amount taken off the balance is
    [min(amount, max(0, currentAmount))] and exactly that amount is added
    to the total of withdrawals; the balance is not negative before the
    step and not negative right after it; and when the amount asked
    exceeds the balance before the step, the balance becomes exactly zero
    and the withdrawal recorded is the balance before the step. *)
Theorem withdrawals_are_clamped principal transactions startDate endDate
    marketIndex :
  0 <= principal ->
  Forall no_negative_deposit transactions ->
  forall transaction l,
    In (transaction, l)
       (applied_in_walk principal transactions
          (setHoursNoon startDate) (setHoursNoon endDate) marketIndex) ->
    t_type transaction = withdrawal ->
    let taken := Qmin (t_amount transaction) (Qmax 0 (currentAmount l)) in
    let l' := apply_transaction transaction l in
    currentAmount l' == currentAmount l - taken /\
    totalWithdrawals l' == totalWithdrawals l + taken /\
    0 <= currentAmount l /\
    0 <= currentAmount l' /\
    (currentAmount l < t_amount transaction ->
     currentAmount l' = 0 /\
     totalWithdrawals l' == totalWithdrawals l + currentAmount l).
Proof.
  intros Hp Ht transaction l Hin Hw taken l'.
  pose proof (applied_in_walk_nonneg principal transactions
                (setHoursNoon startDate) (setHoursNoon endDate) marketIndex
                Hp Ht) as N.
  rewrite Forall_forall in N. specialize (N _ Hin). cbn [snd] in N.
  destruct (withdrawal_clamp transaction l Hw) as (A & B & _ & _ & C & D & _).
  split; [exact A|]. split; [exact B|]. split; [exact N|].
  split; [exact (C N)|]. intro Hlt. exact (D N Hlt).
Qed.

Lemma withdrawals_are_clamped_witness :
  let asked := mkTx (mkDate 2020 1 15 0) 500 withdrawal in
  let transactions := [mkTx (mkDate 2020 2 15 0) 30 deposit; asked] in
  exists l r,
    map fst (applied_in_walk 100 transactions
               (setHoursNoon (day 2020 0 10)) (setHoursNoon (day 2020 3 20))
               "sp500") =
      [asked; mkTx (mkDate 2020 2 15 0) 30 deposit] /\
    In (asked, l)
       (applied_in_walk 100 transactions
          (setHoursNoon (day 2020 0 10)) (setHoursNoon (day 2020 3 20))
          "sp500") /\
    currentAmount l == 100 * (1 + 0.1640 / 12) /\
    currentAmount l < t_amount asked /\
    currentAmount (apply_transaction asked l) = 0 /\
    totalWithdrawals (apply_transaction asked l) == currentAmount l /\
    calculateCompoundInterestWithDates 100 transactions
      (day 2020 0 10) (day 2020 3 20) true "sp500" = Normal r /\
    s_totalWithdrawals (summary r) = JS.round2 (currentAmount l) /\
    s_totalWithdrawals (summary r) == 101.37.
Proof.
  intros asked transactions.
  assert (0 <= 100) as Hp by lra.
  assert (Forall no_negative_deposit transactions) as Hd.
  { repeat constructor; unfold no_negative_deposit; cbn; intros; lra. }
  pose proof (withdrawals_are_clamped 100 transactions
                (day 2020 0 10) (day 2020 3 20) "sp500" Hp Hd asked) as H.
  destruct (applied_in_walk 100 transactions
              (setHoursNoon (day 2020 0 10)) (setHoursNoon (day 2020 3 20))
              "sp500") as [|[t l] rest] eqn:S; [vm_compute in S; discriminate|].
  assert (t = asked) as -> by (vm_compute in S; now injection S).
  destruct (H l (or_introl eq_refl) eq_refl) as (_ & W & _ & _ & Z).
  assert (currentAmount l == 100 * (1 + 0.1640 / 12)) as C.
  { vm_compute in S. injection S as <- _. reflexivity. }
  assert (currentAmount l < t_amount asked) as Lt.
  { rewrite C. reflexivity. }
  destruct (Z Lt) as [Z0 ZW].
  assert (totalWithdrawals l = 0) as T0.
  { vm_compute in S. injection S as <- _. reflexivity. }
  eexists l, _. split.
  { vm_compute in S. injection S as _ <-. reflexivity. }
  split; [now left|].
  split; [exact C|]. split; [exact Lt|]. split; [exact Z0|].
  split; [rewrite ZW, T0; ring|].
  split; [reflexivity|].
  split; vm_compute in S; injection S as <- _; reflexivity.
Defined.

(* ------------------------------------------------------------------ *)
(** ** The transaction filter *)

Lemma is_string_spec (v : JSValue) (s : string) :
  is_string v s = true <-> v = JSString s.
Proof.
  destruct v; cbn; try (split; [discriminate|intro H; discriminate]).
  rewrite String.eqb_eq. split; [now intros ->|now intros [= ->]].
Qed.

(** What the predicate of the filter asks of an entry. *)
Lemma well_formed_spec (t : JSValue) :
  well_formed t = true <->
  truthy t = true /\
  truthy (get t "date") = true /\
  truthy (get t "amount") = true /\
  (get t "type" = JSString "deposit" \/
   get t "type" = JSString "withdrawal") /\
  exists q, parseFloat_toString (get t "amount") = Some q.
Proof.
  unfold well_formed.
  rewrite !andb_true_iff, orb_true_iff, !is_string_spec, negb_true_iff.
  split.
  - intros [[[[[Ht Hd] Ha] _] Hk] Hn]. repeat split; trivial.
    destruct (parseFloat_toString (get t "amount")) as [q|];
      [now exists q|discriminate].
  - intros (Ht & Hd & Ha & Hk & q & Hq). rewrite Hq.
    repeat split; trivial. destruct Hk as [-> | ->]; reflexivity.
Qed.

(** C8, as the code has it. Every element of [validTransactions] comes
    from an entry with a truthy date, a type that is [deposit] or
    [withdrawal], and a truthy amount that [parseFloat] reads as a number,
    which is the amount delivered to the engine; an amount given as a JSON
    number is delivered as it is and is not zero, but nothing makes an
    amount positive.  The filter keeps exactly the truthy entries whose
    date, amount and type are truthy, whose type is one of the two, and
    whose amount reads as a number. *)
Theorem filter_keeps_well_formed_entries (transactions : list JSValue) :
  (forall v, In v (validTransactions transactions) ->
     exists t q,
       In t transactions /\ v = normalize t /\
       v_amount v = Some q /\
       (v_type v = JSString "deposit" \/ v_type v = JSString "withdrawal") /\
       truthy (v_date v) = true /\
       (forall n, get t "amount" = JSNumber n -> q = n /\ ~ n == 0)) /\
  (forall t,
     In t (filter well_formed transactions) <->
     In t transactions /\
     truthy t = true /\
     truthy (get t "date") = true /\
     truthy (get t "amount") = true /\
     (get t "type" = JSString "deposit" \/
      get t "type" = JSString "withdrawal") /\
     exists q, parseFloat_toString (get t "amount") = Some q).
Proof.
  split.
  - intros v Hv. unfold validTransactions in Hv.
    apply in_map_iff in Hv. destruct Hv as (t & <- & Ht).
    apply filter_In in Ht. destruct Ht as [Hin Hw].
    apply well_formed_spec in Hw.
    destruct Hw as (_ & Hd & Ha & Hk & q & Hq).
    exists t, q. cbn [normalize v_amount v_type v_date].
    split; [exact Hin|]. split; [reflexivity|]. split; [exact Hq|].
    split; [exact Hk|]. split; [exact Hd|]. intros n Hn. split.
    + rewrite Hn in Hq. cbn in Hq. congruence.
    + rewrite Hn in Ha. cbn [truthy] in Ha.
      now apply JSFacts.truthy_spec.
  - intro t. rewrite filter_In, well_formed_spec. reflexivity.
Qed.

Lemma filter_keeps_well_formed_entries_witness :
  exists t q,
    In t [entry (JSNumber 250); entry (JSString "abc")] /\
    normalize (entry (JSNumber 250)) = normalize t /\
    v_amount (normalize (entry (JSNumber 250))) = Some q /\
    q = 250.
Proof.
  assert (In (normalize (entry (JSNumber 250)))
             (validTransactions
                [entry (JSNumber 250); entry (JSString "abc")])) as Hin
    by (left; reflexivity).
  destruct (proj1 (filter_keeps_well_formed_entries
                     [entry (JSNumber 250); entry (JSString "abc")])
              _ Hin) as (t & q & Ht & Hn & Hq & _).
  exists t, q. repeat split; trivial.
  cbn in Hq. congruence.
Defined.

(** C8 fails on the code: a negative amount passes the filter and is
    delivered to the engine as it is, a string that reads as zero passes
    too, and an entry that has all three fields, a numeric amount and a
    valid type is dropped when that amount is the number zero. *)
Lemma filter_passes_non_positive_amounts :
  validTransactions [entry (JSNumber (-5)); entry (JSString "0");
                     entry (JSNumber 0)] =
  [ {| v_date := JSString "2020-01-15";
       v_amount := Some (-5);
       v_type := JSString "withdrawal" |};
    {| v_date := JSString "2020-01-15";
       v_amount := Some 0;
       v_type := JSString "withdrawal" |} ].
Proof. reflexivity. Qed.

(* ------------------------------------------------------------------ *)
(** ** Transactions dated before the window *)

Section PastDue.

Variables cy cm : Z.

Lemma before_month_not_in_month t :
  before_month cy cm t = true -> in_month cy cm t = false.
Proof.
  unfold before_month, in_month.
  rewrite orb_true_iff, andb_true_iff, andb_false_iff, !Z.ltb_lt, Z.eqb_eq,
    !Z.eqb_neq. lia.
Qed.

Lemma before_month_not_after t :
  before_month cy cm t = true ->
  date_gtb (t_date t) (mkDate cy cm 1 0) = false.
Proof.
  unfold before_month, date_gtb, date_compare. cbn [dYear dMonth dDay dMs].
  rewrite orb_true_iff, andb_true_iff, !Z.ltb_lt, Z.eqb_eq.
  intros [H|[H1 H2]].
  - apply Z.compare_lt_iff in H. now rewrite H.
  - apply Z.compare_eq_iff in H1. apply Z.compare_lt_iff in H2.
    now rewrite H1, H2.
Qed.

(** A transaction dated before the cursor month is passed over: the
    pointer moves on and no figure changes. *)
Lemma consume_past_due t rest l :
  before_month cy cm t = true ->
  consume cy cm (t :: rest) l = consume cy cm rest (skip_transaction l).
Proof.
  intro H. cbn [consume].
  now rewrite (before_month_not_in_month t H), (before_month_not_after t H).
Qed.

Lemma advance_skip k l :
  advance k (skip_transaction l) = skip_transaction (advance k l).
Proof. reflexivity. Qed.

Lemma advance_apply k t l :
  advance k (apply_transaction t l) = apply_transaction t (advance k l).
Proof. unfold apply_transaction. destruct (t_type t); reflexivity. Qed.

Lemma consume_advance k pending :
  forall l,
    consume cy cm pending (advance k l) = advance k (consume cy cm pending l).
Proof.
  induction pending as [|t pending IH]; intro l; cbn [consume];
    [reflexivity|].
  destruct (in_month cy cm t).
  - rewrite <- advance_apply. apply IH.
  - destruct (date_gtb (t_date t) (mkDate cy cm 1 0)); [reflexivity|].
    rewrite <- advance_skip. apply IH.
Qed.

Lemma consume_past_due_prefix past rest :
  Forall (fun t => before_month cy cm t = true) past ->
  forall l,
    transactionIndex l = O ->
    consume cy cm (past ++ rest) l =
    advance (length past) (consume cy cm rest l).
Proof.
  induction 1 as [|t past Ht _ IH]; intros l Hl.
  - cbn. destruct (consume cy cm rest l) as [a b c d i].
    unfold advance. cbn. now rewrite Nat.add_0_r.
  - cbn [app]. rewrite (consume_past_due t (past ++ rest) l Ht).
    replace (skip_transaction l) with (advance 1 l).
    + rewrite consume_advance, IH by exact Hl.
      destruct (consume cy cm rest l) as [a b c d i].
      unfold advance. cbn. f_equal. lia.
    + unfold advance, skip_transaction. rewrite Hl. reflexivity.
Qed.

End PastDue.

Section SkippedPrefix.

Variable historicalReturns : HistoricalReturns.
Variable defaultReturn : Q.
Variables past rest : list Transaction.

Lemma skipn_past (i : nat) :
  skipn (i + length past) (past ++ rest) = skipn i rest.
Proof.
  rewrite skipn_app, skipn_all2 by lia.
  replace (i + length past - length past)%nat with i by lia. reflexivity.
Qed.

Lemma body_advance cy cm w :
  month_body historicalReturns defaultReturn (past ++ rest) cy cm
    (advance_walk (length past) w) =
  advance_walk (length past)
    (month_body historicalReturns defaultReturn rest cy cm w).
Proof.
  unfold month_body. cbn [ledger advance_walk advance transactionIndex].
  rewrite skipn_past.
  change {| currentAmount := currentAmount (ledger w);
            totalContributions := totalContributions (ledger w);
            totalDeposits := totalDeposits (ledger w);
            totalWithdrawals := totalWithdrawals (ledger w);
            transactionIndex :=
              (transactionIndex (ledger w) + length past)%nat |}
    with (advance (length past) (ledger w)).
  rewrite consume_advance. reflexivity.
Qed.

Lemma body_first_pass cy cm w :
  Forall (fun t => before_month cy cm t = true) past ->
  transactionIndex (ledger w) = O ->
  month_body historicalReturns defaultReturn (past ++ rest) cy cm w =
  advance_walk (length past)
    (month_body historicalReturns defaultReturn rest cy cm w).
Proof.
  intros Hp Hi. unfold month_body. rewrite Hi. cbn [skipn].
  rewrite (consume_past_due_prefix cy cm past rest Hp (ledger w) Hi).
  reflexivity.
Qed.

Lemma loop_advance end_ fuel :
  forall cy cm w,
    month_loop fuel historicalReturns defaultReturn (past ++ rest) end_
      cy cm (advance_walk (length past) w) =
    advance_walk (length past)
      (month_loop fuel historicalReturns defaultReturn rest end_ cy cm w).
Proof.
  induction fuel as [|fuel IH]; intros cy cm w; [reflexivity|].
  rewrite !loop_unfold. destruct (loop_guard cy cm end_); [|reflexivity].
  rewrite body_advance. apply IH.
Qed.

(** The walk over a list that starts with transactions dated before the
    first cursor month ends as the walk over the rest of the list does,
    but for the place of the pointer. *)
Lemma loop_skips_prefix end_ fuel cy cm w :
  Forall (fun t => before_month cy cm t = true) past ->
  transactionIndex (ledger w) = O ->
  exists k,
    month_loop fuel historicalReturns defaultReturn (past ++ rest) end_
      cy cm w =
    advance_walk k
      (month_loop fuel historicalReturns defaultReturn rest end_ cy cm w).
Proof.
  intros Hp Hi. destruct fuel as [|fuel].
  - exists O. cbn [month_loop]. destruct w as [[a b c d i] m ms ys].
    cbn in Hi. subst i. reflexivity.
  - rewrite !loop_unfold. destruct (loop_guard cy cm end_).
    + exists (length past). rewrite (body_first_pass cy cm w Hp Hi).
      apply loop_advance.
    + exists O. destruct w as [[a b c d i] m ms ys].
      cbn in Hi. subst i. reflexivity.
Qed.

End SkippedPrefix.

Section SortSplit.

Variables cy cm : Z.

Let past (t : Transaction) : bool := before_month cy cm t.
Let due (t : Transaction) : bool := negb (before_month cy cm t).

Lemma past_before_due t u :
  before_month cy cm t = true -> before_month cy cm u = false ->
  date_gtb (t_date t) (t_date u) = false /\
  date_gtb (t_date u) (t_date t) = true.
Proof.
  unfold before_month, date_gtb, date_compare.
  rewrite orb_true_iff, orb_false_iff, andb_true_iff, andb_false_iff,
    !Z.ltb_lt, !Z.ltb_ge, Z.eqb_eq, Z.eqb_neq.
  intros Ht Hu.
  assert ((dYear (t_date t) < dYear (t_date u))%Z \/
          (dYear (t_date t) = dYear (t_date u) /\
           (dMonth (t_date t) < dMonth (t_date u))%Z)) as [H|[H1 H2]] by lia.
  - rewrite (proj2 (Z.compare_lt_iff _ _) H).
    rewrite (proj2 (Z.compare_gt_iff _ _) H). split; reflexivity.
  - rewrite H1, Z.compare_refl.
    rewrite (proj2 (Z.compare_lt_iff _ _) H2).
    rewrite (proj2 (Z.compare_gt_iff _ _) H2). split; reflexivity.
Qed.

Lemma insert_past t P R :
  before_month cy cm t = true ->
  Forall (fun u => before_month cy cm u = false) R ->
  insert_by_date t (P ++ R) = insert_by_date t P ++ R.
Proof.
  intros Ht HR. induction P as [|u P IH]; cbn [app insert_by_date].
  - destruct HR as [|r R Hr _]; [reflexivity|]. cbn [insert_by_date].
    now rewrite (proj1 (past_before_due t r Ht Hr)).
  - destruct (date_gtb (t_date t) (t_date u)); [|reflexivity].
    now rewrite IH.
Qed.

Lemma insert_due t P R :
  before_month cy cm t = false ->
  Forall (fun u => before_month cy cm u = true) P ->
  insert_by_date t (P ++ R) = P ++ insert_by_date t R.
Proof.
  intros Ht. induction 1 as [|u P Hu _ IH]; cbn [app insert_by_date];
    [reflexivity|].
  rewrite (proj2 (past_before_due u t Hu Ht)). now rewrite IH.
Qed.

(** Sorting by date puts the transactions dated before the cursor month
    first and leaves the others in the order sorting alone gives them. *)
Lemma sort_by_date_split (l : list Transaction) :
  sort_by_date l =
  sort_by_date (filter past l) ++ sort_by_date (filter due l).
Proof.
  induction l as [|t l IH]; [reflexivity|].
  cbn [sort_by_date fold_right filter]. fold (sort_by_date l).
  unfold past at 1, due at 1. rewrite IH.
  destruct (before_month cy cm t) eqn:E; cbn [negb sort_by_date fold_right].
  - apply insert_past; [exact E|].
    apply sort_by_date_forall. apply Forall_forall. intros u Hu.
    apply filter_In in Hu. now apply negb_true_iff.
  - apply insert_due; [exact E|].
    apply sort_by_date_forall. apply Forall_forall. intros u Hu.
    now apply filter_In in Hu.
Qed.

End SortSplit.

(** The walk of the engine ends as the walk without the transactions
    dated before the start month does, but for the place of the pointer. *)
Lemma run_walk_without_past_due principal transactions s e marketIndex :
  exists k,
    run_walk principal transactions (ValidDate s) e marketIndex =
    advance_walk k
      (run_walk principal
         (filter (fun t => negb (before_month (dYear s) (dMonth s) t))
                 transactions)
         (ValidDate s) e marketIndex).
Proof.
  unfold run_walk. cbn [getFullYear getMonth].
  rewrite (sort_by_date_split (dYear s) (dMonth s) transactions).
  apply loop_skips_prefix; [|reflexivity].
  apply sort_by_date_forall. apply Forall_forall. intros u Hu.
  now apply filter_In in Hu.
Qed.

(** C2, as the code has it. A transaction dated in a calendar month before
    the cursor month is not applied: the pointer moves past it and the
    balance, the contributions, the deposits and the withdrawals stay as
    they were.  The transactions dated before the start month of the
    window therefore leave no trace: the engine returns on an input what
    it returns on the input without them. *)
Theorem past_due_transactions_are_skipped :
  (forall cy cm transaction pending l,
      before_month cy cm transaction = true ->
      consume cy cm (transaction :: pending) l =
      consume cy cm pending (skip_transaction l)) /\
  (forall principal transactions s endDate useHistoricalData marketIndex,
      calculateCompoundInterestWithDates principal transactions
        (ValidDate s) endDate useHistoricalData marketIndex =
      calculateCompoundInterestWithDates principal
        (filter (fun t => negb (before_month (dYear s) (dMonth s) t))
                transactions)
        (ValidDate s) endDate useHistoricalData marketIndex).
Proof.
  split; [exact consume_past_due|].
  intros principal transactions s endDate u marketIndex.
  unfold calculateCompoundInterestWithDates.
  cbn [setHoursNoon].
  destruct (run_walk_without_past_due principal transactions
              (mkDate (dYear s) (dMonth s) (dDay s) 43200000)
              (setHoursNoon endDate) marketIndex) as [k ->].
  cbn [dYear dMonth advance_walk ledger advance currentAmount
       totalContributions totalDeposits totalWithdrawals totalMonths
       w_monthlyData w_yearlyData].
  reflexivity.
Qed.

Lemma past_due_transactions_are_skipped_witness :
  before_month 2020 0 (mkTx (mkDate 2019 5 15 0) 1000 deposit) = true /\
  consume 2020 0
    [mkTx (mkDate 2019 5 15 0) 1000 deposit;
     mkTx (mkDate 2020 0 20 0) 300 deposit]
    (ledger (initial_walk 50)) =
  mkLedger 350 350 350 0 2.
Proof.
  split; [reflexivity|].
  rewrite (proj1 past_due_transactions_are_skipped 2020%Z 0%Z
             (mkTx (mkDate 2019 5 15 0) 1000 deposit)
             [mkTx (mkDate 2020 0 20 0) 300 deposit]
             (ledger (initial_walk 50)) eq_refl).
  reflexivity.
Defined.

(** C2 fails on the code: a deposit of 1000 dated June 2019 is the only
    transaction of a walk from January to March 2020; the first pass moves
    the pointer past it and adds it to nothing, and the summary shows no
    deposit at all. *)
Lemma past_due_deposit_is_not_applied :
  let transaction := mkTx (mkDate 2019 5 15 0) 1000 deposit in
  let l := month_body (select_returns "sp500") (select_default "sp500")
             (sort_by_date [transaction]) 2020 0 (initial_walk 0) in
  transactionIndex (ledger l) = 1%nat /\
  currentAmount (ledger l) = 0 /\
  totalContributions (ledger l) = 0 /\
  totalDeposits (ledger l) = 0 /\
  exists r,
    calculateCompoundInterestWithDates 0 [transaction]
      (day 2020 0 10) (day 2020 2 20) true "sp500" = Normal r /\
    length (monthlyData r) = 3%nat /\
    s_finalAmount (summary r) = 0 /\
    s_totalContributions (summary r) = 0 /\
    s_totalDeposits (summary r) = 0.
Proof.
  cbv zeta. repeat (split; [reflexivity|]).
  run_engine. repeat split.
Qed.

(* ================================================================== *)
(** * Further properties of the engine *)

(* ------------------------------------------------------------------ *)
(** ** Sorting splits along a cut of the calendar *)

Section SplitBy.

(** [lo] holds of the transactions on the early side of a cut: each of
    them is dated before each of the others. *)
Variable lo : Transaction -> bool.
Hypothesis lo_before_hi :
  forall t u, lo t = true -> lo u = false ->
              date_gtb (t_date t) (t_date u) = false /\
              date_gtb (t_date u) (t_date t) = true.

Lemma insert_lo t P R :
  lo t = true -> Forall (fun u => lo u = false) R ->
  insert_by_date t (P ++ R) = insert_by_date t P ++ R.
Proof.
  intros Ht HR. induction P as [|u P IH]; cbn [app insert_by_date].
  - destruct HR as [|r R Hr _]; [reflexivity|]. cbn [insert_by_date].
    now rewrite (proj1 (lo_before_hi t r Ht Hr)).
  - destruct (date_gtb (t_date t) (t_date u)); [|reflexivity].
    now rewrite IH.
Qed.

Lemma insert_hi t P R :
  lo t = false -> Forall (fun u => lo u = true) P ->
  insert_by_date t (P ++ R) = P ++ insert_by_date t R.
Proof.
  intros Ht. induction 1 as [|u P Hu _ IH]; cbn [app insert_by_date];
    [reflexivity|].
  rewrite (proj2 (lo_before_hi u t Hu Ht)). now rewrite IH.
Qed.

Lemma sort_by_date_cut (l : list Transaction) :
  sort_by_date l =
  sort_by_date (filter lo l) ++
  sort_by_date (filter (fun t => negb (lo t)) l).
Proof.
  induction l as [|t l IH]; [reflexivity|].
  cbn [sort_by_date fold_right filter]. fold (sort_by_date l). rewrite IH.
  destruct (lo t) eqn:E; cbn [negb sort_by_date fold_right].
  - apply insert_lo; [exact E|].
    apply sort_by_date_forall. apply Forall_forall. intros u Hu.
    apply filter_In in Hu. now apply negb_true_iff.
  - apply insert_hi; [exact E|].
    apply sort_by_date_forall. apply Forall_forall. intros u Hu.
    now apply filter_In in Hu.
Qed.

End SplitBy.

(* ------------------------------------------------------------------ *)
(** ** Transactions dated after the window *)

Lemma not_after_before_after (ey em : Z) t u :
  negb (after_month ey em t) = true -> negb (after_month ey em u) = false ->
  date_gtb (t_date t) (t_date u) = false /\
  date_gtb (t_date u) (t_date t) = true.
Proof.
  rewrite negb_true_iff, negb_false_iff.
  unfold after_month, date_gtb, date_compare.
  rewrite orb_true_iff, orb_false_iff, andb_true_iff, andb_false_iff,
    !Z.ltb_lt, !Z.ltb_ge, Z.eqb_eq, Z.eqb_neq.
  intros Ht Hu.
  assert ((dYear (t_date t) < dYear (t_date u))%Z \/
          (dYear (t_date t) = dYear (t_date u) /\
           (dMonth (t_date t) < dMonth (t_date u))%Z)) as [H|[H1 H2]] by lia.
  - rewrite (proj2 (Z.compare_lt_iff _ _) H).
    rewrite (proj2 (Z.compare_gt_iff _ _) H). split; reflexivity.
  - rewrite H1, Z.compare_refl.
    rewrite (proj2 (Z.compare_lt_iff _ _) H2).
    rewrite (proj2 (Z.compare_gt_iff _ _) H2). split; reflexivity.
Qed.

(** While the guard of the month loop holds, a transaction dated after
    the end month is dated after the cursor month. *)
Lemma after_end_after_cursor (cy cm : Z) (e : DateFields) t :
  loop_guard cy cm (ValidDate e) = true ->
  after_month (dYear e) (dMonth e) t = true ->
  after_month cy cm t = true.
Proof.
  rewrite guard_valid. unfold after_month.
  rewrite !orb_true_iff, !andb_true_iff, !Z.ltb_lt, !Z.eqb_eq, Z.leb_le. lia.
Qed.

Lemma after_month_breaks (cy cm : Z) t :
  after_month cy cm t = true ->
  in_month cy cm t = false /\
  date_gtb (t_date t) (mkDate cy cm 1 0) = true.
Proof.
  unfold after_month, in_month, date_gtb, date_compare.
  cbn [dYear dMonth dDay dMs].
  rewrite orb_true_iff, andb_true_iff, andb_false_iff, !Z.ltb_lt, Z.eqb_eq,
    !Z.eqb_neq.
  intros [H|[H1 H2]].
  - split; [lia|]. now rewrite (proj2 (Z.compare_gt_iff _ _) H).
  - split; [lia|]. rewrite <- H1, Z.compare_refl.
    now rewrite (proj2 (Z.compare_gt_iff _ _) H2).
Qed.

Lemma consume_stops_before_later (cy cm : Z) P B :
  Forall (fun t => after_month cy cm t = true) B ->
  forall l, consume cy cm (P ++ B) l = consume cy cm P l.
Proof.
  intro HB. induction P as [|t P IH]; intro l; cbn [app consume].
  - destruct HB as [|b B Hb _]; [reflexivity|]. cbn [consume].
    destruct (after_month_breaks cy cm b Hb) as [-> ->]. reflexivity.
  - destruct (in_month cy cm t); [apply IH|].
    destruct (date_gtb (t_date t) (mkDate cy cm 1 0)); [reflexivity|apply IH].
Qed.

(** The pointer moves by one place per transaction at most. *)
Lemma consume_pointer_bound (cy cm : Z) P :
  forall l,
    (transactionIndex l <= transactionIndex (consume cy cm P l)
     <= transactionIndex l + length P)%nat.
Proof.
  induction P as [|t P IH]; intro l; cbn [consume length]; [lia|].
  destruct (in_month cy cm t).
  - specialize (IH (apply_transaction t l)).
    assert (transactionIndex (apply_transaction t l) =
            S (transactionIndex l)) as E
      by (unfold apply_transaction; destruct (t_type t); reflexivity).
    rewrite E in IH. lia.
  - destruct (date_gtb (t_date t) (mkDate cy cm 1 0)); [lia|].
    specialize (IH (skip_transaction l)). cbn [skip_transaction
      transactionIndex] in IH. lia.
Qed.

Section IgnoredSuffix.

Variable historicalReturns : HistoricalReturns.
Variable defaultReturn : Q.
Variables A B : list Transaction.
Variable e : DateFields.
Hypothesis B_after_end :
  Forall (fun t => after_month (dYear e) (dMonth e) t = true) B.

Lemma body_ignores_suffix cy cm w :
  loop_guard cy cm (ValidDate e) = true ->
  (transactionIndex (ledger w) <= length A)%nat ->
  month_body historicalReturns defaultReturn (A ++ B) cy cm w =
  month_body historicalReturns defaultReturn A cy cm w /\
  (transactionIndex
     (ledger (month_body historicalReturns defaultReturn A cy cm w))
   <= length A)%nat.
Proof.
  intros G Hi. unfold month_body. cbn [ledger transactionIndex].
  rewrite skipn_app.
  replace (transactionIndex (ledger w) - length A)%nat with O by lia.
  cbn [skipn]. rewrite consume_stops_before_later.
  - split; [reflexivity|].
    pose proof (consume_pointer_bound cy cm
                  (skipn (transactionIndex (ledger w)) A) (ledger w)) as Hb.
    rewrite length_skipn in Hb. lia.
  - apply Forall_forall. intros t Ht. rewrite Forall_forall in B_after_end.
    apply (after_end_after_cursor cy cm e t G). now apply B_after_end.
Qed.

Lemma loop_ignores_suffix fuel :
  forall cy cm w,
    (transactionIndex (ledger w) <= length A)%nat ->
    month_loop fuel historicalReturns defaultReturn (A ++ B) (ValidDate e)
      cy cm w =
    month_loop fuel historicalReturns defaultReturn A (ValidDate e) cy cm w.
Proof.
  induction fuel as [|fuel IH]; intros cy cm w Hi; [reflexivity|].
  rewrite !loop_unfold.
  destruct (loop_guard cy cm (ValidDate e)) eqn:G; [|reflexivity].
  destruct (body_ignores_suffix cy cm w G Hi) as [-> Hi'].
  now apply IH.
Qed.

End IgnoredSuffix.

(** The walk does not read the transactions dated after the end month. *)
Lemma run_walk_without_later principal transactions start e marketIndex :
  run_walk principal transactions start (ValidDate e) marketIndex =
  run_walk principal
    (filter (fun t => negb (after_month (dYear e) (dMonth e) t))
            transactions)
    start (ValidDate e) marketIndex.
Proof.
  unfold run_walk.
  destruct (getFullYear start) as [cy|]; [|reflexivity].
  destruct (getMonth start) as [cm|]; [|reflexivity].
  rewrite (sort_by_date_cut
             (fun t => negb (after_month (dYear e) (dMonth e) t))
             (not_after_before_after (dYear e) (dMonth e)) transactions).
  apply loop_ignores_suffix; [|cbn; lia].
  apply sort_by_date_forall. apply Forall_forall. intros t Ht.
  apply filter_In in Ht. destruct Ht as [_ Ht].
  now rewrite negb_involutive in Ht.
Qed.

Lemma filter_twice {A : Type} (f g : A -> bool) (l : list A) :
  filter f (filter g l) = filter (fun x => g x && f x) l.
Proof.
  induction l as [|x l IH]; [reflexivity|]. cbn [filter].
  destruct (g x); cbn [andb filter]; [destruct (f x)|]; now rewrite IH.
Qed.

(** X1. The engine reads the transactions of the window only: the
    transactions dated before the start month or after the end month can
    be taken out of the input without any change to what it returns. *)
Theorem only_window_transactions_matter principal transactions s e
    useHistoricalData marketIndex :
  calculateCompoundInterestWithDates principal transactions
    (ValidDate s) (ValidDate e) useHistoricalData marketIndex =
  calculateCompoundInterestWithDates principal
    (filter (in_window s e) transactions)
    (ValidDate s) (ValidDate e) useHistoricalData marketIndex.
Proof.
  unfold calculateCompoundInterestWithDates. cbn [setHoursNoon].
  set (s' := mkDate (dYear s) (dMonth s) (dDay s) 43200000).
  set (e' := mkDate (dYear e) (dMonth e) (dDay e) 43200000).
  destruct (run_walk_without_past_due principal transactions s'
              (ValidDate e') marketIndex) as [k ->].
  rewrite (run_walk_without_later principal _ (ValidDate s') e' marketIndex).
  rewrite filter_twice.
  change (fun x : Transaction =>
            negb (before_month (dYear s') (dMonth s') x) &&
            negb (after_month (dYear e') (dMonth e') x))
    with (in_window s e).
  cbn [advance_walk ledger advance currentAmount totalContributions
       totalDeposits totalWithdrawals totalMonths w_monthlyData w_yearlyData].
  reflexivity.
Qed.

(* ------------------------------------------------------------------ *)
(** ** The sort of the transactions *)

Lemma date_gtb_spec (a b : DateFields) : date_gtb a b = true <-> date_lt b a.
Proof.
  unfold date_gtb, date_compare, date_lt.
  destruct (Z.compare_spec (dYear a) (dYear b));
    [destruct (Z.compare_spec (dMonth a) (dMonth b));
     [destruct (Z.compare_spec (dDay a) (dDay b));
      [destruct (Z.compare_spec (dMs a) (dMs b))|..]|..]|..];
    split; try discriminate; try reflexivity; lia.
Qed.

Lemma date_gtb_false (a b : DateFields) :
  date_gtb a b = false <-> ~ date_lt b a.
Proof.
  rewrite <- date_gtb_spec. destruct (date_gtb a b); split; congruence.
Qed.

Lemma date_compare_eq (a b : DateFields) : date_compare a b = Eq <-> a = b.
Proof.
  split.
  - destruct a as [ya ma da sa], b as [yb mb db sb].
    unfold date_compare. cbn [dYear dMonth dDay dMs].
    destruct (Z.compare_spec ya yb); try discriminate.
    destruct (Z.compare_spec ma mb); try discriminate.
    destruct (Z.compare_spec da db); try discriminate.
    destruct (Z.compare_spec sa sb); try discriminate.
    intros _. now subst.
  - intros ->. unfold date_compare. now rewrite !Z.compare_refl.
Qed.

Lemma date_lt_total (a b : DateFields) : date_lt a b \/ a = b \/ date_lt b a.
Proof.
  destruct a as [ya ma da sa], b as [yb mb db sb].
  unfold date_lt. cbn [dYear dMonth dDay dMs].
  assert ((ya < yb \/ ya = yb /\ (ma < mb \/ ma = mb /\
            (da < db \/ da = db /\ sa < sb))) \/
          (ya = yb /\ ma = mb /\ da = db /\ sa = sb) \/
          (yb < ya \/ yb = ya /\ (mb < ma \/ mb = ma /\
            (db < da \/ db = da /\ sb < sa))))%Z as [H|[H|H]] by lia.
  - now left.
  - right. left. destruct H as (-> & -> & -> & ->). reflexivity.
  - now right; right.
Qed.

Lemma date_lt_trans (a b c : DateFields) :
  date_lt a b -> date_lt b c -> date_lt a c.
Proof. unfold date_lt. lia. Qed.

Lemma date_lt_irrefl (a : DateFields) : ~ date_lt a a.
Proof. unfold date_lt. lia. Qed.

Lemma not_later_trans (a b c : Transaction) :
  not_later a b -> not_later b c -> not_later a c.
Proof.
  unfold not_later. rewrite !date_gtb_false. intros H1 H2 H3.
  destruct (date_lt_total (t_date a) (t_date b)) as [H|[H|H]].
  - apply H2. now apply date_lt_trans with (t_date a).
  - apply H2. now rewrite <- H.
  - now apply H1.
Qed.

Lemma insert_by_date_perm t l : Permutation (insert_by_date t l) (t :: l).
Proof.
  induction l as [|u l IH]; cbn [insert_by_date]; [reflexivity|].
  destruct (date_gtb (t_date t) (t_date u)); [|reflexivity].
  rewrite IH. apply perm_swap.
Qed.

Lemma sort_by_date_perm l : Permutation (sort_by_date l) l.
Proof.
  induction l as [|t l IH]; cbn; [constructor|].
  rewrite insert_by_date_perm. now constructor.
Qed.

Lemma insert_by_date_sorted t l :
  StronglySorted not_later l -> StronglySorted not_later (insert_by_date t l).
Proof.
  induction 1 as [|u l Hl IH Hu]; cbn [insert_by_date].
  - repeat constructor.
  - destruct (date_gtb (t_date t) (t_date u)) eqn:E.
    + constructor; [exact IH|].
      apply Forall_forall. intros x Hx.
      apply (Permutation_in _ (insert_by_date_perm t l)) in Hx.
      destruct Hx as [<-|Hx].
      * unfold not_later. apply date_gtb_false. intro C.
        apply date_gtb_spec in E.
        exact (date_lt_irrefl _ (date_lt_trans _ _ _ C E)).
      * rewrite Forall_forall in Hu. now apply Hu.
    + constructor; [now constructor|].
      constructor; [exact E|].
      apply Forall_forall. intros x Hx. rewrite Forall_forall in Hu.
      apply not_later_trans with u; [exact E|now apply Hu].
Qed.

Lemma sort_by_date_sorted l : StronglySorted not_later (sort_by_date l).
Proof.
  induction l as [|t l IH]; cbn; [constructor|].
  now apply insert_by_date_sorted.
Qed.

Lemma insert_by_date_same_date d t l :
  filter (same_date d) (insert_by_date t l) =
  filter (same_date d) (t :: l).
Proof.
  induction l as [|u l IH]; cbn [insert_by_date]; [reflexivity|].
  destruct (date_gtb (t_date t) (t_date u)) eqn:E; [|reflexivity].
  cbn [filter] in *. rewrite IH.
  destruct (same_date d t) eqn:Dt; [|reflexivity].
  destruct (same_date d u) eqn:Du; [|reflexivity].
  unfold same_date in Dt, Du.
  destruct (date_compare d (t_date t)) eqn:Ct; try discriminate.
  destruct (date_compare d (t_date u)) eqn:Cu; try discriminate.
  apply date_compare_eq in Ct, Cu. rewrite <- Ct, <- Cu in E.
  apply date_gtb_spec in E. now apply date_lt_irrefl in E.
Qed.

(** X2. The sort is a stable sort by date: its output holds the transactions
    of its input, each as often, in an order in which no transaction comes
    after a later one, and the transactions of one same date stay in the
    order of the input. *)
Theorem sort_by_date_is_a_stable_sort (l : list Transaction) :
  Permutation (sort_by_date l) l /\
  StronglySorted not_later (sort_by_date l) /\
  forall d, filter (same_date d) (sort_by_date l) = filter (same_date d) l.
Proof.
  split; [apply sort_by_date_perm|]. split; [apply sort_by_date_sorted|].
  intro d. induction l as [|t l IH]; [reflexivity|].
  cbn [sort_by_date fold_right]. fold (sort_by_date l).
  rewrite insert_by_date_same_date. cbn [filter]. now rewrite IH.
Qed.

Lemma sort_by_date_of_sorted l :
  StronglySorted not_later l -> sort_by_date l = l.
Proof.
  induction 1 as [|t l Hl IH Ht]; [reflexivity|].
  cbn [sort_by_date fold_right]. fold (sort_by_date l). rewrite IH.
  destruct l as [|u l]; [reflexivity|]. cbn [insert_by_date].
  inversion Ht as [|? ? Hu _]; subst. unfold not_later in Hu. now rewrite Hu.
Qed.

Lemma insert_by_date_comm x y l :
  t_date x <> t_date y ->
  insert_by_date x (insert_by_date y l) =
  insert_by_date y (insert_by_date x l).
Proof.
  intro Hd.
  assert (date_gtb (t_date x) (t_date y) = negb (date_gtb (t_date y) (t_date x)))
    as Hxy.
  { destruct (date_lt_total (t_date x) (t_date y)) as [H|[H|H]];
      [|contradiction|].
    - rewrite (proj2 (date_gtb_spec (t_date y) (t_date x)) H). cbn [negb].
      apply date_gtb_false. intro C.
      exact (date_lt_irrefl _ (date_lt_trans _ _ _ C H)).
    - rewrite (proj2 (date_gtb_spec (t_date x) (t_date y)) H).
      assert (date_gtb (t_date y) (t_date x) = false) as ->; [|reflexivity].
      apply date_gtb_false. intro C.
      exact (date_lt_irrefl _ (date_lt_trans _ _ _ C H)). }
  induction l as [|u l IH]; cbn [insert_by_date].
  - rewrite Hxy. destruct (date_gtb (t_date y) (t_date x)); reflexivity.
  - destruct (date_gtb (t_date x) (t_date u)) eqn:Xu,
             (date_gtb (t_date y) (t_date u)) eqn:Yu; cbn [insert_by_date];
      rewrite ?Xu, ?Yu.
    + now rewrite IH.
    + assert (date_gtb (t_date x) (t_date y) = true) as G.
      { apply date_gtb_spec. apply date_gtb_spec in Xu.
        apply date_gtb_false in Yu.
        destruct (date_lt_total (t_date y) (t_date u)) as [H|[H|H]].
        - now apply date_lt_trans with (t_date u).
        - now rewrite H.
        - contradiction. }
      rewrite G. reflexivity.
    + assert (date_gtb (t_date y) (t_date x) = true) as G.
      { apply date_gtb_spec. apply date_gtb_spec in Yu.
        apply date_gtb_false in Xu.
        destruct (date_lt_total (t_date x) (t_date u)) as [H|[H|H]].
        - now apply date_lt_trans with (t_date u).
        - now rewrite H.
        - contradiction. }
      rewrite G. reflexivity.
    + rewrite Hxy. destruct (date_gtb (t_date y) (t_date x)); cbn [negb];
        cbn [insert_by_date]; rewrite ?Xu, ?Yu; reflexivity.
Qed.

(** On transactions of pairwise distinct dates, the sort does not depend
    on the order of its input. *)
Lemma sort_by_date_of_permutation l l' :
  Permutation l l' -> NoDup (map t_date l) -> sort_by_date l = sort_by_date l'.
Proof.
  induction 1 as [|x l l' Hp IH|x y l|l l' l'' Hp1 IH1 Hp2 IH2]; intro Hn.
  - reflexivity.
  - unfold sort_by_date in *. cbn [fold_right map] in *.
    inversion Hn; subst. now rewrite IH.
  - unfold sort_by_date. cbn [fold_right].
    apply insert_by_date_comm. cbn [map] in Hn.
    inversion Hn as [|? ? Hy _]; subst. intro E. apply Hy. left.
    now symmetry.
  - rewrite IH1 by exact Hn. apply IH2.
    apply (Permutation_NoDup (Permutation_map t_date Hp1) Hn).
Qed.

(** X3. What the engine returns does not depend on the order in which the
    transactions are given, when no two of them carry the same date. *)
Theorem engine_ignores_input_order principal transactions transactions'
    startDate endDate useHistoricalData marketIndex :
  Permutation transactions transactions' ->
  NoDup (map t_date transactions) ->
  calculateCompoundInterestWithDates principal transactions
    startDate endDate useHistoricalData marketIndex =
  calculateCompoundInterestWithDates principal transactions'
    startDate endDate useHistoricalData marketIndex.
Proof.
  intros Hp Hn. unfold calculateCompoundInterestWithDates, run_walk.
  now rewrite (sort_by_date_of_permutation transactions transactions' Hp Hn).
Qed.

(** X4. Sorting the transactions by date before the call changes nothing. *)
Theorem engine_on_sorted_input principal transactions
    startDate endDate useHistoricalData marketIndex :
  calculateCompoundInterestWithDates principal (sort_by_date transactions)
    startDate endDate useHistoricalData marketIndex =
  calculateCompoundInterestWithDates principal transactions
    startDate endDate useHistoricalData marketIndex.
Proof.
  unfold calculateCompoundInterestWithDates, run_walk.
  now rewrite (sort_by_date_of_sorted _ (sort_by_date_sorted transactions)).
Qed.

(* ------------------------------------------------------------------ *)
(** ** The transactions of the window are all applied *)

Lemma reached_apply_all principal ts l us :
  Reached principal ts l -> Reached principal (ts ++ us) (apply_all us l).
Proof.
  revert ts l. induction us as [|u us IH]; intros ts l H; cbn.
  - now rewrite app_nil_r.
  - change (u :: us) with ([u] ++ us). rewrite app_assoc.
    apply IH. now constructor.
Qed.

Lemma apply_all_pointer us :
  forall l,
    transactionIndex (apply_all us l) = (transactionIndex l + length us)%nat.
Proof.
  induction us as [|u us IH]; intro l; cbn; [lia|].
  unfold apply_all in IH. rewrite IH.
  assert (transactionIndex (apply_transaction u l) = S (transactionIndex l))
    as -> by (unfold apply_transaction; destruct (t_type u); reflexivity).
  lia.
Qed.

Lemma strongly_sorted_suffix {A : Type} (R : A -> A -> Prop) (l1 l2 : list A) :
  StronglySorted R (l1 ++ l2) -> StronglySorted R l2.
Proof.
  induction l1 as [|x l1 IH]; cbn; [trivial|].
  intro H. inversion H; subst. now apply IH.
Qed.

(** One of three: a transaction is dated before the cursor month, in it, or
    after it. *)
Lemma month_trichotomy (cy cm : Z) t :
  before_month cy cm t = false -> in_month cy cm t = false ->
  after_month cy cm t = true.
Proof.
  unfold before_month, in_month, after_month.
  rewrite orb_false_iff, !andb_false_iff, orb_true_iff, andb_true_iff,
    !Z.ltb_lt, !Z.ltb_ge, !Z.eqb_eq, !Z.eqb_neq. lia.
Qed.

Lemma after_month_later (cy cm : Z) t u :
  after_month cy cm t = true -> not_later t u -> after_month cy cm u = true.
Proof.
  unfold after_month, not_later. rewrite date_gtb_false. unfold date_lt.
  rewrite !orb_true_iff, !andb_true_iff, !Z.ltb_lt, !Z.eqb_eq. lia.
Qed.

(** On sorted transactions none of which is dated before the cursor
    month, the transaction loop applies the transactions of the cursor
    month, which come first, and stops at the first later one. *)
Lemma consume_sorted (cy cm : Z) (P : list Transaction) :
  StronglySorted not_later P ->
  Forall (fun t => before_month cy cm t = false) P ->
  exists ins rest,
    P = ins ++ rest /\
    Forall (fun t => in_month cy cm t = true) ins /\
    Forall (fun t => after_month cy cm t = true) rest /\
    forall l, consume cy cm P l = apply_all ins l.
Proof.
  induction 1 as [|t P HP IH Ht]; intro Hb.
  - exists [], []. repeat split; constructor.
  - inversion Hb as [|? ? Hbt HbP]; subst.
    destruct (in_month cy cm t) eqn:E.
    + destruct (IH HbP) as (ins & rest & -> & Hi & Ha & Hc).
      exists (t :: ins), rest. split; [reflexivity|].
      split; [now constructor|]. split; [exact Ha|].
      intro l. cbn [consume]. rewrite E. apply Hc.
    + pose proof (month_trichotomy cy cm t Hbt E) as A.
      exists [], (t :: P). split; [reflexivity|]. split; [constructor|].
      split.
      * constructor; [exact A|].
        apply Forall_forall. intros u Hu. rewrite Forall_forall in Ht.
        exact (after_month_later cy cm t u A (Ht u Hu)).
      * intro l. cbn [consume]. rewrite E.
        now rewrite (proj2 (after_month_breaks cy cm t A)).
Qed.

Lemma before_month_next (cy cm : Z) t :
  (0 <= cm <= 11)%Z ->
  before_month cy cm t = true \/ in_month cy cm t = true ->
  before_month (fst (next_cursor cy cm)) (snd (next_cursor cy cm)) t = true.
Proof.
  intros Hc. unfold next_cursor, before_month, in_month.
  destruct (cm + 1 >? 11)%Z eqn:C; cbn [fst snd];
    [apply Z.gtb_lt in C|rewrite Z.gtb_ltb, Z.ltb_ge in C];
    rewrite !orb_true_iff, !andb_true_iff, !Z.ltb_lt, !Z.eqb_eq; lia.
Qed.

Lemma after_month_not_before_next (cy cm : Z) t :
  (0 <= cm <= 11)%Z -> wf_transaction t ->
  after_month cy cm t = true ->
  before_month (fst (next_cursor cy cm)) (snd (next_cursor cy cm)) t = false.
Proof.
  intros Hc Ht. unfold wf_transaction, wf_fields in Ht.
  unfold next_cursor, before_month, after_month.
  destruct (cm + 1 >? 11)%Z eqn:C; cbn [fst snd];
    [apply Z.gtb_lt in C|rewrite Z.gtb_ltb, Z.ltb_ge in C];
    rewrite orb_true_iff, andb_true_iff, orb_false_iff, andb_false_iff,
      !Z.ltb_lt, !Z.ltb_ge, !Z.eqb_eq, Z.eqb_neq; lia.
Qed.

Lemma next_cursor_wf (cy cm : Z) :
  (0 <= cm <= 11)%Z -> (0 <= snd (next_cursor cy cm) <= 11)%Z.
Proof.
  intro Hc. unfold next_cursor.
  destruct (cm + 1 >? 11)%Z eqn:C; cbn [snd];
    [lia|rewrite Z.gtb_ltb, Z.ltb_ge in C; lia].
Qed.

Lemma not_before_past_end (cy cm : Z) (e : DateFields) t :
  loop_guard cy cm (ValidDate e) = false ->
  before_month cy cm t = false ->
  after_month (dYear e) (dMonth e) t = true.
Proof.
  rewrite guard_valid. unfold before_month, after_month.
  rewrite !orb_false_iff, !andb_false_iff, orb_true_iff, andb_true_iff,
    !Z.ltb_lt, !Z.ltb_ge, !Z.eqb_eq, !Z.eqb_neq, Z.leb_gt. lia.
Qed.

Section WindowWalk.

Variable historicalReturns : HistoricalReturns.
Variable defaultReturn : Q.
Variable principal : Q.
Variable L : list Transaction.
Variable e : DateFields.
Hypothesis L_sorted : StronglySorted not_later L.
Hypothesis L_wf : Forall wf_transaction L.
Hypothesis e_wf : wf_fields e.

(** At the cursor month, the transactions dated before it have been
    applied, and the pointer stands at the first of the others. *)
Definition on_track (cy cm : Z) (w : Walk) : Prop :=
  exists applied rest,
    L = applied ++ rest /\
    transactionIndex (ledger w) = length applied /\
    Reached principal applied (ledger w) /\
    Forall (fun t => before_month cy cm t = true) applied /\
    Forall (fun t => before_month cy cm t = false) rest.

Lemma body_on_track cy cm w :
  (0 <= cm <= 11)%Z ->
  on_track cy cm w ->
  on_track (fst (next_cursor cy cm)) (snd (next_cursor cy cm))
    (month_body historicalReturns defaultReturn L cy cm w).
Proof.
  intros Hc (applied & rest & HL & Hi & Hr & Ha & Hb).
  assert (skipn (transactionIndex (ledger w)) L = rest) as Hs.
  { rewrite Hi, HL, skipn_app, skipn_all, Nat.sub_diag. reflexivity. }
  assert (StronglySorted not_later rest) as Sr
    by (apply (strongly_sorted_suffix not_later applied); now rewrite <- HL).
  destruct (consume_sorted cy cm rest Sr Hb)
    as (ins & rest' & -> & Hin & Haf & Hc').
  exists (applied ++ ins), rest'.
  unfold month_body. cbn [ledger transactionIndex]. rewrite Hs, Hc'.
  split; [now rewrite <- app_assoc|]. split.
  - rewrite apply_all_pointer, Hi, length_app. reflexivity.
  - split.
    + apply (reached_grow principal (applied ++ ins)
               (apply_all ins (ledger w))).
      now apply reached_apply_all.
    + split.
      * apply Forall_app. split.
        -- apply Forall_forall. intros t Ht. rewrite Forall_forall in Ha.
           apply before_month_next; [exact Hc|]. left. now apply Ha.
        -- apply Forall_forall. intros t Ht. rewrite Forall_forall in Hin.
           apply before_month_next; [exact Hc|]. right. now apply Hin.
      * apply Forall_forall. intros t Ht. rewrite Forall_forall in Haf.
        apply after_month_not_before_next; [exact Hc| |now apply Haf].
        rewrite Forall_forall in L_wf. apply L_wf. rewrite HL.
        apply in_or_app. right. apply in_or_app. now right.
Qed.

Lemma loop_on_track fuel :
  forall cy cm w,
    (0 <= cm <= 11)%Z ->
    (months_left cy cm e <= Z.of_nat fuel)%Z ->
    on_track cy cm w ->
    exists cy' cm',
      on_track cy' cm'
        (month_loop fuel historicalReturns defaultReturn L (ValidDate e)
           cy cm w) /\
      loop_guard cy' cm' (ValidDate e) = false.
Proof.
  induction fuel as [|fuel IH]; intros cy cm w Hc Hf Ht.
  - exists cy, cm. split; [exact Ht|].
    destruct (loop_guard cy cm (ValidDate e)) eqn:G; [|reflexivity].
    apply guard_months_left in G; trivial. lia.
  - rewrite loop_unfold.
    destruct (loop_guard cy cm (ValidDate e)) eqn:G.
    + apply IH.
      * now apply next_cursor_wf.
      * pose proof (next_cursor_months_left cy cm e Hc) as N.
        destruct (next_cursor cy cm) as [ny nm]. cbn [fst snd].
        destruct N as [_ ->]. lia.
      * now apply body_on_track.
    + exists cy, cm. now split.
Qed.

(** When every transaction of the list is dated in the window, the walk
    applies them all. *)
Lemma loop_applies_all fuel cy cm :
  (0 <= cm <= 11)%Z ->
  (months_left cy cm e <= Z.of_nat fuel)%Z ->
  Forall (fun t => before_month cy cm t = false) L ->
  Forall (fun t => after_month (dYear e) (dMonth e) t = false) L ->
  Reached principal L
    (ledger (month_loop fuel historicalReturns defaultReturn L (ValidDate e)
               cy cm (initial_walk principal))).
Proof.
  intros Hc Hf Hb Ha.
  destruct (loop_on_track fuel cy cm (initial_walk principal) Hc Hf)
    as (cy' & cm' & (applied & rest & HL & _ & Hr & _ & Hn) & G).
  { exists [], L. repeat split; trivial; constructor. }
  destruct rest as [|t rest].
  - rewrite app_nil_r in HL. rewrite <- HL in Hr. exact Hr.
  - exfalso. inversion Hn as [|? ? Ht _]; subst.
    pose proof (not_before_past_end cy' cm' e t G Ht) as A.
    rewrite Forall_forall in Ha. rewrite Ha in A; [discriminate|].
    apply in_or_app. right. now left.
Qed.

End WindowWalk.

(** On dates and transactions with month indices in 0..11, the ledger in
    which the walk ends is reached by applying the transactions of the
    window, in the order of their dates, with months of growth in
    between. *)
Lemma walk_applies_window principal transactions s e marketIndex :
  wf_fields s -> wf_fields e -> Forall wf_transaction transactions ->
  exists l,
    Reached principal
      (sort_by_date (filter (in_window s e) transactions)) l /\
    same_figures l
      (ledger (run_walk principal transactions (ValidDate s) (ValidDate e)
                 marketIndex)).
Proof.
  intros Hs He Ht.
  destruct (run_walk_without_past_due principal transactions s
              (ValidDate e) marketIndex) as [k ->].
  rewrite (run_walk_without_later principal _ (ValidDate s) e marketIndex).
  rewrite filter_twice.
  change (fun x : Transaction =>
            negb (before_month (dYear s) (dMonth s) x) &&
            negb (after_month (dYear e) (dMonth e) x))
    with (in_window s e).
  set (txs := filter (in_window s e) transactions).
  exists (ledger (run_walk principal txs (ValidDate s) (ValidDate e)
                    marketIndex)).
  split; [|repeat split].
  unfold run_walk. cbn [getFullYear getMonth].
  assert (forall t, In t txs ->
            wf_transaction t /\
            before_month (dYear s) (dMonth s) t = false /\
            after_month (dYear e) (dMonth e) t = false) as Hin.
  { intros t Hin. apply filter_In in Hin. destruct Hin as [Hin Hw].
    unfold in_window in Hw. apply andb_true_iff in Hw.
    rewrite !negb_true_iff in Hw. rewrite Forall_forall in Ht.
    split; [now apply Ht|exact Hw]. }
  apply loop_applies_all.
  - apply sort_by_date_sorted.
  - apply sort_by_date_forall, Forall_forall. intros t H. now apply Hin.
  - exact He.
  - exact Hs.
  - now apply passes_bound_enough.
  - apply sort_by_date_forall, Forall_forall. intros t H. now apply Hin.
  - apply sort_by_date_forall, Forall_forall. intros t H. now apply Hin.
Qed.

Lemma total_perm (xs ys : list Q) :
  Permutation xs ys -> total xs == total ys.
Proof.
  induction 1 as [|x xs ys _ IH|x y xs|xs ys zs _ IH1 _ IH2];
    unfold total in *; cbn [fold_right].
  - reflexivity.
  - now rewrite IH.
  - ring.
  - now rewrite IH1.
Qed.

Lemma filter_perm {A : Type} (f : A -> bool) (l l' : list A) :
  Permutation l l' -> Permutation (filter f l) (filter f l').
Proof.
  induction 1 as [|x l l' _ IH|x y l|l l' l'' _ IH1 _ IH2]; cbn [filter].
  - constructor.
  - destruct (f x); [now constructor|exact IH].
  - destruct (f x), (f y); try reflexivity. apply perm_swap.
  - now rewrite IH1.
Qed.

Lemma deposited_perm ts ts' :
  Permutation ts ts' -> deposited ts == deposited ts'.
Proof.
  intro H. unfold deposited. apply total_perm, Permutation_map.
  now apply filter_perm.
Qed.

Lemma asked_back_perm ts ts' :
  Permutation ts ts' -> asked_back ts == asked_back ts'.
Proof.
  intro H. unfold asked_back. apply total_perm, Permutation_map.
  now apply filter_perm.
Qed.

Lemma deposited_snoc ts t :
  deposited (ts ++ [t]) ==
  deposited ts + (if is_deposit t then t_amount t else 0).
Proof.
  unfold deposited. rewrite filter_app, map_app, total_app. cbn [filter].
  destruct (is_deposit t); unfold total; cbn; ring.
Qed.

Lemma asked_back_snoc ts t :
  asked_back (ts ++ [t]) ==
  asked_back ts + (if is_withdrawal t then t_amount t else 0).
Proof.
  unfold asked_back. rewrite filter_app, map_app, total_app. cbn [filter].
  destruct (is_withdrawal t); unfold total; cbn; ring.
Qed.

(** Contributions and deposits are one figure: the principal and the
    deposits applied. *)
Lemma reached_contributions principal ts l :
  Reached principal ts l ->
  totalContributions l == principal + deposited ts /\
  totalDeposits l = totalContributions l.
Proof.
  induction 1 as [|ts l t _ [IH1 IH2]|ts l r _ IH].
  - cbn. split; [unfold deposited, total; cbn; ring|reflexivity].
  - rewrite deposited_snoc. unfold apply_transaction, is_deposit.
    destruct (t_type t); cbn [totalContributions totalDeposits].
    + rewrite IH2. split; [|reflexivity]. rewrite JSFacts.add_eq, IH1. ring.
    + split; [rewrite IH1; ring|exact IH2].
  - exact IH.
Qed.

(** What the withdrawals took lies between nothing and what they asked,
    when no withdrawal asks a negative amount. *)
Lemma reached_withdrawals principal ts l :
  Reached principal ts l ->
  Forall no_negative_withdrawal ts ->
  0 <= totalWithdrawals l <= asked_back ts.
Proof.
  induction 1 as [|ts l t _ IH|ts l r _ IH]; intro Hp.
  - cbn. unfold asked_back, total. cbn. lra.
  - apply Forall_app in Hp. destruct Hp as [Hp Ht].
    inversion Ht as [|? ? Ha _]; subst. specialize (IH Hp).
    unfold no_negative_withdrawal in Ha.
    rewrite asked_back_snoc. unfold apply_transaction, is_withdrawal.
    destruct (t_type t); cbn [totalWithdrawals]; [lra|].
    specialize (Ha eq_refl).
    rewrite JSFacts.add_eq, JSFacts.min_eq.
    pose proof (Q.le_min_l (t_amount t) (JS.max 0 (currentAmount l))) as M1.
    assert (0 <= Qmin (t_amount t) (JS.max 0 (currentAmount l))) as M2.
    { apply Q.min_glb; [exact Ha|]. rewrite JSFacts.max_eq.
      apply Q.le_max_l. }
    lra.
  - now apply IH.
Qed.

Lemma round2_comp (x y : Q) : x == y -> JS.round2 x = JS.round2 y.
Proof.
  intro H. unfold JS.round2, JS.round.
  rewrite (Qfloor_comp (JS.mul x 100 + (1 # 2)) (JS.mul y 100 + (1 # 2)));
    [reflexivity|].
  now rewrite !JSFacts.mul_eq, H.
Qed.

Lemma round2_le (x y : Q) : x <= y -> JS.round2 x <= JS.round2 y.
Proof.
  intro H. rewrite !round2_eq.
  assert (JS.round (x * 100) <= JS.round (y * 100))%Z as R
    by (unfold JS.round; apply Qfloor_resp_le; lra).
  rewrite Zle_Qle in R. unfold Qdiv. change (/ 100) with (1 # 100). lra.
Qed.

(** X5. On dates and transactions with month indices in 0..11, the total of
    contributions that the summary reports is the principal plus the
    deposits dated in the window, whatever the withdrawals and the
    returns are. *)
Theorem contributions_are_the_window_deposits principal transactions s e
    useHistoricalData marketIndex :
  wf_fields s -> wf_fields e -> Forall wf_transaction transactions ->
  exists r,
    calculateCompoundInterestWithDates principal transactions
      (ValidDate s) (ValidDate e) useHistoricalData marketIndex = Normal r /\
    s_totalContributions (summary r) =
      JS.round2 (principal + deposited (filter (in_window s e) transactions)).
Proof.
  intros Hs He Ht. eexists. split; [reflexivity|].
  cbn [summary s_totalContributions setHoursNoon].
  destruct (walk_applies_window principal transactions
              (mkDate (dYear s) (dMonth s) (dDay s) 43200000)
              (mkDate (dYear e) (dMonth e) (dDay e) 43200000)
              marketIndex Hs He Ht) as (l & Hr & _ & <- & _).
  apply round2_comp.
  rewrite (proj1 (reached_contributions principal _ l Hr)).
  apply Qplus_comp; [reflexivity|].
  apply deposited_perm, sort_by_date_perm.
Qed.

Lemma contributions_are_the_window_deposits_witness :
  exists r,
    calculateCompoundInterestWithDates 100
      [ mkTx (mkDate 2020 3 15 0) 40 deposit;
        mkTx (mkDate 2019 11 15 0) 1000 deposit;
        mkTx (mkDate 2020 1 15 0) 500 withdrawal;
        mkTx (mkDate 2020 1 15 0) 25 deposit;
        mkTx (mkDate 2020 5 15 0) 3000 deposit ]
      (day 2020 0 10) (day 2020 3 20) true "nasdaq" = Normal r /\
    s_totalContributions (summary r) = 165.
Proof.
  destruct (contributions_are_the_window_deposits 100
              [ mkTx (mkDate 2020 3 15 0) 40 deposit;
                mkTx (mkDate 2019 11 15 0) 1000 deposit;
                mkTx (mkDate 2020 1 15 0) 500 withdrawal;
                mkTx (mkDate 2020 1 15 0) 25 deposit;
                mkTx (mkDate 2020 5 15 0) 3000 deposit ]
              (mkDate 2020 0 10 0) (mkDate 2020 3 20 0) true "nasdaq")
    as (r & E & C).
  - unfold wf_fields. cbn. lia.
  - unfold wf_fields. cbn. lia.
  - repeat constructor; unfold wf_transaction, wf_fields; cbn; lia.
  - exists r. split; [exact E|]. rewrite C. reflexivity.
Defined.

(** X6. On dates and transactions with month indices in 0..11 and withdrawals
    that ask no negative amount, the total of withdrawals that the summary
    reports is not negative and not above the rounded sum of the amounts
    asked by the withdrawals dated in the window. *)
Theorem withdrawals_within_requests principal transactions s e
    useHistoricalData marketIndex :
  wf_fields s -> wf_fields e -> Forall wf_transaction transactions ->
  Forall no_negative_withdrawal transactions ->
  exists r,
    calculateCompoundInterestWithDates principal transactions
      (ValidDate s) (ValidDate e) useHistoricalData marketIndex = Normal r /\
    0 <= s_totalWithdrawals (summary r) <=
      JS.round2 (asked_back (filter (in_window s e) transactions)).
Proof.
  intros Hs He Ht Hn. eexists. split; [reflexivity|].
  cbn [summary s_totalWithdrawals setHoursNoon].
  destruct (walk_applies_window principal transactions
              (mkDate (dYear s) (dMonth s) (dDay s) 43200000)
              (mkDate (dYear e) (dMonth e) (dDay e) 43200000)
              marketIndex Hs He Ht) as (l & Hr & _ & _ & _ & <-).
  destruct (reached_withdrawals principal _ l Hr) as [W0 W1].
  { apply sort_by_date_forall, Forall_forall. intros t Hin.
    apply filter_In in Hin. rewrite Forall_forall in Hn. now apply Hn. }
  split; [now apply round2_nonneg|].
  apply round2_le. apply Qle_trans with (1 := W1).
  apply Qle_lteq. right. apply asked_back_perm, sort_by_date_perm.
Qed.

Lemma withdrawals_within_requests_witness :
  exists r,
    calculateCompoundInterestWithDates 100
      [ mkTx (mkDate 2020 1 15 0) 500 withdrawal;
        mkTx (mkDate 2020 2 15 0) 30 deposit;
        mkTx (mkDate 2020 2 16 0) 10 withdrawal ]
      (day 2020 0 10) (day 2020 3 20) true "sp500" = Normal r /\
    0 <= s_totalWithdrawals (summary r) <= 510.
Proof.
  destruct (withdrawals_within_requests 100
              [ mkTx (mkDate 2020 1 15 0) 500 withdrawal;
                mkTx (mkDate 2020 2 15 0) 30 deposit;
                mkTx (mkDate 2020 2 16 0) 10 withdrawal ]
              (mkDate 2020 0 10 0) (mkDate 2020 3 20 0) true "sp500")
    as (r & E & C).
  - unfold wf_fields. cbn. lia.
  - unfold wf_fields. cbn. lia.
  - repeat constructor; unfold wf_transaction, wf_fields; cbn; lia.
  - repeat constructor; unfold no_negative_withdrawal; cbn; intros _; lra.
  - exists r. split; [exact E|]. exact C.
Defined.

(* ------------------------------------------------------------------ *)
(** ** What the snapshots hold *)

Section Snapshots.

Variable historicalReturns : HistoricalReturns.
Variable defaultReturn : Q.
Variable sortedTransactions : list Transaction.

(** A property of the cursor and the walk that every pass carries to the
    next cursor holds when the loop ends, at the cursor it ends on. *)
Lemma loop_invariant_cursor (I : Z -> Z -> Walk -> Prop) :
  (forall cy cm w,
      (0 <= cm <= 11)%Z -> I cy cm w ->
      I (fst (next_cursor cy cm)) (snd (next_cursor cy cm))
        (month_body historicalReturns defaultReturn sortedTransactions
           cy cm w)) ->
  forall fuel end_ cy cm w,
    (0 <= cm <= 11)%Z -> I cy cm w ->
    exists cy' cm',
      (0 <= cm' <= 11)%Z /\
      I cy' cm'
        (month_loop fuel historicalReturns defaultReturn sortedTransactions
           end_ cy cm w).
Proof.
  intros Hbody. induction fuel as [|fuel IH]; intros end_ cy cm w Hc Hw.
  - exists cy, cm. now split.
  - rewrite loop_unfold. destruct (loop_guard cy cm end_).
    + apply IH; [now apply next_cursor_wf|now apply Hbody].
    + exists cy, cm. now split.
Qed.

Lemma consume_deposits_are_contributions cy cm P :
  forall l,
    totalDeposits l = totalContributions l ->
    totalDeposits (consume cy cm P l) = totalContributions (consume cy cm P l).
Proof.
  induction P as [|t P IH]; intros l H; cbn [consume]; [exact H|].
  destruct (in_month cy cm t).
  - apply IH. unfold apply_transaction.
    destruct (t_type t); cbn; [now rewrite H|exact H].
  - destruct (date_gtb (t_date t) (mkDate cy cm 1 0)); [exact H|].
    apply IH. exact H.
Qed.

End Snapshots.

(** What the engine returns is built from the walk. *)
Lemma result_of_walk principal transactions startDate endDate
    useHistoricalData marketIndex r :
  calculateCompoundInterestWithDates principal transactions
    startDate endDate useHistoricalData marketIndex = Normal r ->
  exists s e,
    startDate = ValidDate s /\ endDate = ValidDate e /\
    let w := run_walk principal transactions
               (setHoursNoon startDate) (setHoursNoon endDate) marketIndex in
    monthlyData r = w_monthlyData w /\
    yearlyData r = w_yearlyData w /\
    s_finalAmount (summary r) = JS.round2 (currentAmount (ledger w)) /\
    s_totalContributions (summary r) =
      JS.round2 (totalContributions (ledger w)) /\
    s_totalDeposits (summary r) = JS.round2 (totalDeposits (ledger w)) /\
    s_totalWithdrawals (summary r) =
      JS.round2 (totalWithdrawals (ledger w)) /\
    p_totalMonths (s_investmentPeriod (summary r)) = totalMonths w.
Proof.
  unfold calculateCompoundInterestWithDates.
  destruct startDate as [|s]; [discriminate|].
  destruct endDate as [|e]; [discriminate|].
  cbn [setHoursNoon toISODate bind]. intros E. injection E as <-.
  exists s, e. repeat split.
Qed.

(** X7. The yearly snapshots are the December monthly snapshots: the same
    years, dates, amounts, contributions, net investments, gains and annual
    returns, in the same order. *)
Theorem yearly_snapshots_are_the_decembers r :
  returned_by_engine r ->
  map yearly_figures (yearlyData r) =
  map monthly_figures (filter is_december (monthlyData r)).
Proof.
  intros (principal & transactions & startDate & endDate & u & idx & E).
  destruct (result_of_walk _ _ _ _ _ _ _ E)
    as (s & e & -> & -> & Hm & Hy & _).
  cbv zeta in Hm, Hy. rewrite Hm, Hy. unfold run_walk.
  cbn [setHoursNoon getFullYear getMonth].
  apply loop_invariant with
    (I := fun w => map yearly_figures (w_yearlyData w) =
                   map monthly_figures (filter is_december (w_monthlyData w))).
  - intros cy cm w H. unfold month_body. cbn [w_monthlyData w_yearlyData].
    rewrite filter_app, !map_app, H. f_equal.
    cbn [filter]. unfold is_december. cbn [m_monthOfYear].
    replace (cm + 1 =? 12)%Z with (cm =? 11)%Z.
    + destruct (cm =? 11)%Z; reflexivity.
    + destruct (cm =? 11)%Z eqn:A, (cm + 1 =? 12)%Z eqn:B; try reflexivity;
        rewrite ?Z.eqb_eq, ?Z.eqb_neq in *; lia.
  - reflexivity.
Qed.

Lemma yearly_snapshots_are_the_decembers_witness :
  exists r,
    calculateCompoundInterestWithDates 1000 [] (day 2020 10 10) (day 2022 1 20)
      true "sp500" = Normal r /\
    map y_year (yearlyData r) = [2020; 2021]%Z /\
    map yearly_figures (yearlyData r) =
    map monthly_figures (filter is_december (monthlyData r)).
Proof.
  destruct (calculateCompoundInterestWithDates 1000 [] (day 2020 10 10)
              (day 2022 1 20) true "sp500") as [r|err] eqn:E;
    [|vm_compute in E; discriminate].
  exists r. split; [reflexivity|]. split.
  - vm_compute in E. injection E as <-. reflexivity.
  - apply yearly_snapshots_are_the_decembers.
    now exists 1000, [], (day 2020 10 10), (day 2022 1 20), true, "sp500"%string.
Defined.

(** X8. The summary reports one figure twice: the total of deposits is the
    total of contributions. *)
Theorem deposits_are_contributions r :
  returned_by_engine r ->
  s_totalDeposits (summary r) = s_totalContributions (summary r).
Proof.
  intros (principal & transactions & startDate & endDate & u & idx & E).
  destruct (result_of_walk _ _ _ _ _ _ _ E)
    as (s & e & -> & -> & _ & _ & _ & Hc & Hd & _).
  cbv zeta in Hc, Hd. rewrite Hc, Hd. f_equal. unfold run_walk.
  cbn [setHoursNoon getFullYear getMonth].
  apply loop_invariant with
    (I := fun w => totalDeposits (ledger w) = totalContributions (ledger w)).
  - intros cy cm w H. unfold month_body.
    cbn [ledger totalDeposits totalContributions].
    now apply consume_deposits_are_contributions.
  - reflexivity.
Qed.

Lemma deposits_are_contributions_witness :
  exists r,
    calculateCompoundInterestWithDates 100
      [ mkTx (mkDate 2020 1 15 0) 500 withdrawal;
        mkTx (mkDate 2020 2 15 0) 30 deposit ]
      (day 2020 0 10) (day 2020 3 20) true "sp500" = Normal r /\
    s_totalDeposits (summary r) = 130 /\
    s_totalContributions (summary r) = 130.
Proof.
  destruct (calculateCompoundInterestWithDates 100
              [ mkTx (mkDate 2020 1 15 0) 500 withdrawal;
                mkTx (mkDate 2020 2 15 0) 30 deposit ]
              (day 2020 0 10) (day 2020 3 20) true "sp500")
    as [r|err] eqn:E; [|vm_compute in E; discriminate].
  assert (returned_by_engine r) as H.
  { now exists 100,
      [ mkTx (mkDate 2020 1 15 0) 500 withdrawal;
        mkTx (mkDate 2020 2 15 0) 30 deposit ],
      (day 2020 0 10), (day 2020 3 20), true, "sp500"%string. }
  pose proof (deposits_are_contributions r H) as D.
  exists r. split; [reflexivity|].
  rewrite <- D. vm_compute in E. injection E as <-. split; reflexivity.
Defined.

Lemma next_cursor_ordinal (cy cm : Z) :
  (0 <= cm <= 11)%Z ->
  (12 * fst (next_cursor cy cm) + snd (next_cursor cy cm) =
   12 * cy + cm + 1)%Z.
Proof.
  intro Hc. unfold next_cursor.
  destruct (cm + 1 >? 11)%Z eqn:C; cbn [fst snd];
    [apply Z.gtb_lt in C|rewrite Z.gtb_ltb, Z.ltb_ge in C]; lia.
Qed.

Lemma leap_year_spec (y : Z) : leap_year y = true <-> gregorian_leap y.
Proof.
  unfold leap_year, gregorian_leap.
  rewrite orb_true_iff, andb_true_iff, negb_true_iff, !Z.eqb_eq, Z.eqb_neq.
  tauto.
Qed.

(** The ISO date of the local midnight that opens a month: the first day
    of the month on a host at UTC or behind it, the last day of the month
    before on a host ahead of UTC. *)
Lemma first_midnight_utc (y m east : Z) :
  (0 <= m <= 11)%Z ->
  let d := utc_day east (isoDateOf (mkDate y m 1 0)) in
  ((-86400000 < east <= 0)%Z -> d = mkDay y (m + 1) 1) /\
  ((0 < east < 86400000)%Z ->
   (12 * c_year d + c_month d = 12 * y + m)%Z /\
   (1 <= c_month d <= 12)%Z /\ last_of_month d).
Proof.
  intros Hm d. subst d. unfold utc_day. cbn [dYear dMonth dDay dMs]. split.
  - intro He.
    destruct (Z.ltb_spec (0 - east) 0); [lia|].
    destruct (Z.ltb_spec (0 - east) 86400000); [reflexivity|lia].
  - intro He.
    destruct (Z.ltb_spec (0 - east) 0); [|lia].
    unfold day_before. rewrite Z.ltb_irrefl.
    destruct (Z.ltb_spec 0 m) as [Hp|Hp].
    + cbn [c_year c_month c_day]. split; [lia|]. split; [lia|].
      unfold last_of_month, days_in_month. cbn [c_year c_month c_day].
      destruct (Z.eqb_spec (m - 1) 1) as [E1|E1].
      * left. split; [lia|].
        destruct (leap_year y) eqn:L.
        -- left. split; [now apply leap_year_spec|reflexivity].
        -- right. split; [|reflexivity].
           intro G. apply leap_year_spec in G. congruence.
      * destruct (Z.eqb_spec (m - 1) 3); [cbn [orb]; right; left; lia|].
        destruct (Z.eqb_spec (m - 1) 5); [cbn [orb]; right; left; lia|].
        destruct (Z.eqb_spec (m - 1) 8); [cbn [orb]; right; left; lia|].
        destruct (Z.eqb_spec (m - 1) 10); [cbn [orb]; right; left; lia|].
        cbn [orb]. right. right. lia.
    + cbn [c_year c_month c_day]. split; [lia|]. split; [lia|].
      unfold last_of_month. cbn [c_year c_month c_day]. right. right. lia.
Qed.

(** X9. The monthly snapshots are numbered from 1 and stand for consecutive
    calendar months from the start month on.  The date of a snapshot is
    the ISO date of the local midnight that opens its month: on a host at
    UTC or behind it (by less than a day), it names the first day of that
    month; on a host ahead of UTC, it names the last day of the month
    before. *)
Theorem snapshots_are_consecutive_months principal transactions s endDate
    useHistoricalData marketIndex r :
  wf_fields s ->
  calculateCompoundInterestWithDates principal transactions
    (ValidDate s) endDate useHistoricalData marketIndex = Normal r ->
  forall i p,
    nth_error (monthlyData r) i = Some p ->
    m_month p = (Z.of_nat i + 1)%Z /\
    (1 <= m_monthOfYear p <= 12)%Z /\
    (12 * m_year p + (m_monthOfYear p - 1) =
     12 * dYear s + dMonth s + Z.of_nat i)%Z /\
    (forall east, (-86400000 < east <= 0)%Z ->
       utc_day east (m_date p) = mkDay (m_year p) (m_monthOfYear p) 1) /\
    (forall east, (0 < east < 86400000)%Z ->
       let d := utc_day east (m_date p) in
       (12 * c_year d + c_month d =
        12 * m_year p + (m_monthOfYear p - 1))%Z /\
       (1 <= c_month d <= 12)%Z /\ last_of_month d).
Proof.
  intros Hs E.
  destruct (result_of_walk _ _ _ _ _ _ _ E) as (s' & e & Es & -> & Hm & _).
  injection Es as <-. cbv zeta in Hm. rewrite Hm. clear Hm E.
  unfold run_walk. cbn [setHoursNoon getFullYear getMonth dYear dMonth].
  set (P := fun (i : nat) (p : MonthlyDataPoint) =>
              m_month p = (Z.of_nat i + 1)%Z /\
              (1 <= m_monthOfYear p <= 12)%Z /\
              (12 * m_year p + (m_monthOfYear p - 1) =
               12 * dYear s + dMonth s + Z.of_nat i)%Z /\
              m_date p =
                isoDateOf (mkDate (m_year p) (m_monthOfYear p - 1) 1 0)).
  assert (forall i p,
            nth_error
              (w_monthlyData
                 (month_loop
                    (passes_bound (dYear s) (dMonth s)
                       (ValidDate
                          (mkDate (dYear e) (dMonth e) (dDay e) 43200000)))
                    (select_returns marketIndex) (select_default marketIndex)
                    (sort_by_date transactions)
                    (ValidDate (mkDate (dYear e) (dMonth e) (dDay e) 43200000))
                    (dYear s) (dMonth s) (initial_walk principal))) i
            = Some p -> P i p) as H.
  { destruct (loop_invariant_cursor (select_returns marketIndex)
                (select_default marketIndex) (sort_by_date transactions)
                (fun cy cm w =>
                   totalMonths w = Z.of_nat (length (w_monthlyData w)) /\
                   (12 * cy + cm =
                    12 * dYear s + dMonth s + totalMonths w)%Z /\
                   forall i p,
                     nth_error (w_monthlyData w) i = Some p -> P i p))
      with (fuel := passes_bound (dYear s) (dMonth s)
                      (ValidDate
                         (mkDate (dYear e) (dMonth e) (dDay e) 43200000)))
           (end_ := ValidDate (mkDate (dYear e) (dMonth e) (dDay e) 43200000))
           (cy := dYear s) (cm := dMonth s) (w := initial_walk principal)
      as (cy' & cm' & _ & _ & _ & H).
    - intros cy cm w Hc (Ht & Ho & Hp). unfold month_body.
      cbn [totalMonths w_monthlyData]. rewrite length_app. cbn [length].
      split; [lia|]. split.
      + rewrite next_cursor_ordinal by exact Hc. lia.
      + intros i p Hi.
        destruct (Nat.lt_ge_cases i (length (w_monthlyData w))) as [Lt|Ge].
        * rewrite nth_error_app1 in Hi by exact Lt. now apply Hp.
        * rewrite nth_error_app2 in Hi by exact Ge.
          destruct (i - length (w_monthlyData w))%nat as [|k] eqn:K;
            [|destruct k; discriminate].
          cbn in Hi. injection Hi as <-. unfold P.
          cbn [m_month m_monthOfYear m_year m_date].
          repeat split; try lia. do 2 f_equal. lia.
    - exact Hs.
    - split; [reflexivity|]. split; [cbn; lia|].
      intros [|i] p Hi; discriminate.
    - exact H. }
  intros i p Hi. destruct (H i p Hi) as (A & B & C & D).
  split; [exact A|]. split; [exact B|]. split; [exact C|].
  rewrite D.
  assert (0 <= m_monthOfYear p - 1 <= 11)%Z as Hw by lia.
  split.
  - intros east He.
    destruct (first_midnight_utc (m_year p) (m_monthOfYear p - 1) east Hw)
      as [W _].
    rewrite (W He). f_equal. lia.
  - intros east He.
    destruct (first_midnight_utc (m_year p) (m_monthOfYear p - 1) east Hw)
      as [_ F].
    exact (F He).
Qed.

Lemma snapshots_are_consecutive_months_witness :
  exists r p0 p1 p2,
    calculateCompoundInterestWithDates 1000 [] (day 2020 0 10) (day 2020 2 20)
      true "sp500" = Normal r /\
    monthlyData r = [p0; p1; p2] /\
    map m_month [p0; p1; p2] = [1; 2; 3]%Z /\
    map m_monthOfYear [p0; p1; p2] = [1; 2; 3]%Z /\
    map (fun p => utc_day 0 (m_date p)) [p0; p1; p2] =
      [mkDay 2020 1 1; mkDay 2020 2 1; mkDay 2020 3 1] /\
    map (fun p => utc_day (-18000000) (m_date p)) [p0; p1; p2] =
      [mkDay 2020 1 1; mkDay 2020 2 1; mkDay 2020 3 1] /\
    map (fun p => utc_day 3600000 (m_date p)) [p0; p1; p2] =
      [mkDay 2019 12 31; mkDay 2020 1 31; mkDay 2020 2 29] /\
    last_of_month (utc_day 3600000 (m_date p2)).
Proof.
  destruct (calculateCompoundInterestWithDates 1000 [] (day 2020 0 10)
              (day 2020 2 20) true "sp500") as [r|err] eqn:E;
    [|vm_compute in E; discriminate].
  assert (wf_fields (mkDate 2020 0 10 0)) as Hs
    by (unfold wf_fields; cbn; lia).
  pose proof (snapshots_are_consecutive_months _ _ _ _ _ _ _ Hs E) as H.
  vm_compute in E. injection E as <-.
  eexists. eexists. eexists. eexists.
  split; [reflexivity|]. split; [reflexivity|].
  split; [reflexivity|]. split; [reflexivity|].
  split; [reflexivity|]. split; [reflexivity|]. split; [reflexivity|].
  destruct (H 2%nat _ eq_refl) as (_ & _ & _ & _ & F).
  destruct (F 3600000%Z ltac:(lia)) as (_ & _ & L). exact L.
Defined.

(* ------------------------------------------------------------------ *)
(** ** Growth alone *)

Lemma loop_growth marketIndex (e : DateFields) fuel :
  wf_fields e ->
  forall cy cm w,
    (0 <= cm <= 11)%Z ->
    (months_left cy cm e <= Z.of_nat fuel)%Z ->
    currentAmount
      (ledger (month_loop fuel (select_returns marketIndex)
                 (select_default marketIndex) [] (ValidDate e) cy cm w)) ==
    currentAmount (ledger w) *
    compound_from marketIndex (12 * cy + cm)
      (Z.to_nat (months_left cy cm e)).
Proof.
  intro He. induction fuel as [|fuel IH]; intros cy cm w Hc Hf.
  - cbn [month_loop].
    replace (Z.to_nat (months_left cy cm e)) with O by lia. cbn. ring.
  - rewrite loop_unfold.
    destruct (loop_guard cy cm (ValidDate e)) eqn:G.
    + apply guard_months_left in G; trivial.
      pose proof (next_cursor_months_left cy cm e Hc) as N.
      pose proof (next_cursor_ordinal cy cm Hc) as O.
      destruct (next_cursor cy cm) as [ny nm]. cbn [fst snd] in *.
      destruct N as [Hn Hm]. rewrite IH by (trivial; lia).
      rewrite O, Hm.
      replace (Z.to_nat (months_left cy cm e))
        with (S (Z.to_nat (months_left cy cm e - 1))) by lia.
      cbn [compound_from].
      replace ((12 * cy + cm) / 12)%Z with cy
        by (apply Z.div_unique with cm; lia).
      unfold month_body. cbn [ledger currentAmount].
      rewrite skipn_nil. cbn [consume].
      rewrite JSFacts.mul_eq, JSFacts.add_eq, JSFacts.div_eq.
      unfold annual_return. ring.
    + assert (months_left cy cm e <= 0)%Z as M.
      { destruct (Z.lt_ge_cases 0 (months_left cy cm e)) as [C|C]; [|lia].
        apply guard_months_left in C; trivial. congruence. }
      replace (Z.to_nat (months_left cy cm e)) with O by lia. cbn. ring.
Qed.

(** X10. With no transaction dated in the window, the final amount is the
    principal compounded month by month, each month at a twelfth of the
    annual return of its year, over the months of the window. *)
Theorem growth_without_transactions principal transactions s e
    useHistoricalData marketIndex :
  wf_fields s -> wf_fields e ->
  filter (in_window s e) transactions = [] ->
  exists r,
    calculateCompoundInterestWithDates principal transactions
      (ValidDate s) (ValidDate e) useHistoricalData marketIndex = Normal r /\
    s_finalAmount (summary r) =
      JS.round2
        (principal *
         compound_from marketIndex (12 * dYear s + dMonth s)
           (Z.to_nat (months_left (dYear s) (dMonth s) e))).
Proof.
  intros Hs He Hn. eexists. split; [reflexivity|].
  cbn [summary s_finalAmount setHoursNoon].
  set (s' := mkDate (dYear s) (dMonth s) (dDay s) 43200000).
  set (e' := mkDate (dYear e) (dMonth e) (dDay e) 43200000).
  destruct (run_walk_without_past_due principal transactions s'
              (ValidDate e') marketIndex) as [k ->].
  rewrite (run_walk_without_later principal _ (ValidDate s') e' marketIndex).
  rewrite filter_twice.
  change (fun x : Transaction =>
            negb (before_month (dYear s') (dMonth s') x) &&
            negb (after_month (dYear e') (dMonth e') x))
    with (in_window s e).
  rewrite Hn. cbn [advance_walk ledger advance currentAmount].
  apply round2_comp. unfold run_walk.
  cbn [getFullYear getMonth sort_by_date fold_right s' dYear dMonth].
  rewrite (loop_growth marketIndex e'); trivial.
  - reflexivity.
  - now apply passes_bound_enough.
Qed.

Lemma growth_without_transactions_witness :
  exists r,
    calculateCompoundInterestWithDates 1200
      [mkTx (mkDate 2021 0 15 0) 500 deposit]
      (day 2020 10 10) (day 2020 11 20) true "sp500" = Normal r /\
    s_finalAmount (summary r) == 1233.02.
Proof.
  destruct (growth_without_transactions 1200
              [mkTx (mkDate 2021 0 15 0) 500 deposit]
              (mkDate 2020 10 10 0) (mkDate 2020 11 20 0) true "sp500")
    as (r & E & F).
  - unfold wf_fields. cbn. lia.
  - unfold wf_fields. cbn. lia.
  - reflexivity.
  - exists r. split; [exact E|]. rewrite F. vm_compute. reflexivity.
Defined.

(* ------------------------------------------------------------------ *)
(** ** Contributions and balances along the walk *)

Lemma consume_contributions_grow cy cm P :
  Forall no_negative_deposit P ->
  forall l, totalContributions l <= totalContributions (consume cy cm P l).
Proof.
  induction 1 as [|t P Ht _ IH]; intro l; cbn [consume]; [lra|].
  destruct (in_month cy cm t).
  - apply Qle_trans with (totalContributions (apply_transaction t l));
      [|apply IH].
    unfold apply_transaction. destruct (t_type t) eqn:K;
      cbn [totalContributions]; [|lra].
    rewrite JSFacts.add_eq. specialize (Ht K). lra.
  - destruct (date_gtb (t_date t) (mkDate cy cm 1 0)); [lra|].
    apply (IH (skip_transaction l)).
Qed.

Lemma strongly_sorted_snoc {A : Type} (R : A -> A -> Prop) (l : list A) y :
  StronglySorted R l -> Forall (fun x => R x y) l ->
  StronglySorted R (l ++ [y]).
Proof.
  induction 1 as [|x l Hl IH Hx]; intro Hy; cbn.
  - repeat constructor.
  - inversion Hy; subst. constructor; [now apply IH|].
    apply Forall_app. split; [exact Hx|now repeat constructor].
Qed.

(** X11. When no deposit is negative, the contributions shown by the monthly
    snapshots never decrease from one month to the next; they start at the
    rounded principal or above and end at the total of the summary or
    below. *)
Theorem contributions_never_decrease principal transactions startDate endDate
    useHistoricalData marketIndex r :
  calculateCompoundInterestWithDates principal transactions
    startDate endDate useHistoricalData marketIndex = Normal r ->
  Forall no_negative_deposit transactions ->
  StronglySorted Qle (map m_contributions (monthlyData r)) /\
  Forall (fun c => JS.round2 principal <= c <=
                   s_totalContributions (summary r))
         (map m_contributions (monthlyData r)).
Proof.
  intros E Hd.
  destruct (result_of_walk _ _ _ _ _ _ _ E)
    as (s & e & -> & -> & Hm & _ & _ & Hc & _).
  cbv zeta in Hm, Hc. rewrite Hm, Hc. clear Hm Hc E.
  unfold run_walk. cbn [setHoursNoon getFullYear getMonth].
  match goal with
  | |- context [month_loop ?f ?hr ?dr ?st ?en ?cy ?cm ?w] =>
    set (W := month_loop f hr dr st en cy cm w)
  end.
  assert (principal <= totalContributions (ledger W) /\
          StronglySorted Qle (map m_contributions (w_monthlyData W)) /\
          Forall (fun c => JS.round2 principal <= c <=
                           JS.round2 (totalContributions (ledger W)))
                 (map m_contributions (w_monthlyData W))) as (_ & S & F).
  { subst W. apply loop_invariant.
    - intros cy cm w (Hp & Hs & Hf). unfold month_body.
      cbn [ledger totalContributions w_monthlyData].
      set (l' := consume cy cm _ (ledger w)).
      assert (totalContributions (ledger w) <= totalContributions l') as G.
      { apply consume_contributions_grow, skipn_forall.
        now apply sort_by_date_forall. }
      split; [lra|]. rewrite map_app. cbn [map m_contributions].
      assert (Forall (fun c => JS.round2 principal <= c <=
                               JS.round2 (totalContributions l'))
                     (map m_contributions (w_monthlyData w))) as Hf'.
      { apply Forall_forall. intros c Hc. rewrite Forall_forall in Hf.
        destruct (Hf c Hc) as [A B]. split; [exact A|].
        apply Qle_trans with (1 := B). now apply round2_le. }
      split.
      + apply strongly_sorted_snoc; [exact Hs|].
        apply Forall_forall. intros c Hc. rewrite Forall_forall in Hf'.
        now apply Hf'.
      + apply Forall_app. split; [exact Hf'|].
        constructor; [|constructor]. split; [|apply Qle_refl].
        apply round2_le. lra.
    - cbn. split; [lra|]. split; constructor. }
  split; [exact S|exact F].
Qed.

Lemma contributions_never_decrease_witness :
  exists r,
    calculateCompoundInterestWithDates 100
      [ mkTx (mkDate 2020 1 15 0) 500 withdrawal;
        mkTx (mkDate 2020 2 15 0) 30 deposit ]
      (day 2020 0 10) (day 2020 3 20) true "sp500" = Normal r /\
    map m_contributions (monthlyData r) = [100; 100; 130; 130] /\
    StronglySorted Qle (map m_contributions (monthlyData r)).
Proof.
  destruct (calculateCompoundInterestWithDates 100
              [ mkTx (mkDate 2020 1 15 0) 500 withdrawal;
                mkTx (mkDate 2020 2 15 0) 30 deposit ]
              (day 2020 0 10) (day 2020 3 20) true "sp500")
    as [r|err] eqn:E; [|vm_compute in E; discriminate].
  assert (Forall no_negative_deposit
            [ mkTx (mkDate 2020 1 15 0) 500 withdrawal;
              mkTx (mkDate 2020 2 15 0) 30 deposit ]) as Hd.
  { repeat constructor; unfold no_negative_deposit; cbn; intros _; lra. }
  destruct (contributions_never_decrease _ _ _ _ _ _ _ E Hd) as [S _].
  exists r. split; [reflexivity|]. split; [|exact S].
  vm_compute in E. injection E as <-. reflexivity.
Defined.

(** X12. With a principal that is not negative and no negative deposit, no
    monthly snapshot shows a negative amount and the final amount is not
    negative. *)
Theorem amounts_never_negative principal transactions startDate endDate
    useHistoricalData marketIndex r :
  calculateCompoundInterestWithDates principal transactions
    startDate endDate useHistoricalData marketIndex = Normal r ->
  0 <= principal ->
  Forall no_negative_deposit transactions ->
  0 <= s_finalAmount (summary r) /\
  Forall (fun p => 0 <= m_amount p) (monthlyData r).
Proof.
  intros E Hp Hd.
  destruct (result_of_walk _ _ _ _ _ _ _ E)
    as (s & e & -> & -> & Hm & _ & Hf & _).
  cbv zeta in Hm, Hf. rewrite Hm, Hf.
  destruct (balance_never_negative principal transactions
              (setHoursNoon (ValidDate s)) (setHoursNoon (ValidDate e))
              marketIndex Hp Hd) as [B M].
  split; [now apply round2_nonneg|exact M].
Qed.

Lemma amounts_never_negative_witness :
  exists r,
    calculateCompoundInterestWithDates 100
      [ mkTx (mkDate 2022 1 15 0) 500 withdrawal;
        mkTx (mkDate 2022 2 15 0) 30 deposit ]
      (day 2022 0 10) (day 2022 3 20) true "nasdaq" = Normal r /\
    0 <= s_finalAmount (summary r) /\
    map m_amount (monthlyData r) = [97.29; 0; 29.19; 28.39].
Proof.
  destruct (calculateCompoundInterestWithDates 100
              [ mkTx (mkDate 2022 1 15 0) 500 withdrawal;
                mkTx (mkDate 2022 2 15 0) 30 deposit ]
              (day 2022 0 10) (day 2022 3 20) true "nasdaq")
    as [r|err] eqn:E; [|vm_compute in E; discriminate].
  assert (0 <= 100) as Hp by lra.
  assert (Forall no_negative_deposit
            [ mkTx (mkDate 2022 1 15 0) 500 withdrawal;
              mkTx (mkDate 2022 2 15 0) 30 deposit ]) as Hd.
  { repeat constructor; unfold no_negative_deposit; cbn; intros _; lra. }
  destruct (amounts_never_negative _ _ _ _ _ _ _ E Hp Hd) as [F _].
  exists r. split; [reflexivity|]. split; [exact F|].
  vm_compute in E. injection E as <-. reflexivity.
Defined.

Lemma engine_ignores_input_order_witness :
  calculateCompoundInterestWithDates 100
    [ mkTx (mkDate 2020 2 15 0) 30 deposit;
      mkTx (mkDate 2020 1 15 0) 500 withdrawal ]
    (day 2020 0 10) (day 2020 3 20) true "sp500" =
  calculateCompoundInterestWithDates 100
    [ mkTx (mkDate 2020 1 15 0) 500 withdrawal;
      mkTx (mkDate 2020 2 15 0) 30 deposit ]
    (day 2020 0 10) (day 2020 3 20) true "sp500".
Proof.
  apply engine_ignores_input_order.
  - apply perm_swap.
  - cbn [map t_date]. constructor.
    + intros [H|[]]. discriminate H.
    + constructor; [intros []|constructor].
Defined.

(* ------------------------------------------------------------------ *)
(** ** The market series and the engine *)

(** What a response of the market-series responder is made of. *)
Lemma response_series index start end_ r :
  generateRealisticMarketData index start end_ = Normal r ->
  exists mi table s e,
    start = ValidDate s /\ end_ = ValidDate e /\
    lookup index MARKET_INDICES = Some mi /\
    lookup index generator_historicalReturns = Some table /\
    r_historicalData r =
      map (series_point index (name mi) table (averageReturn mi))
          (year_span (dYear s) (dYear e)).
Proof.
  intro H.
  assert (recognized index = true) as R.
  { unfold recognized. unfold generateRealisticMarketData in H.
    destruct (lookup index MARKET_INDICES); [reflexivity|discriminate]. }
  destruct (recognized_cases index R) as (mi & table & Hm & Ht & _).
  unfold generateRealisticMarketData in H. rewrite Hm, Ht in H.
  destruct start as [|s]; [cbn in H; destruct end_; discriminate|].
  destruct end_ as [|e]; [cbn in H; discriminate|].
  cbn [getFullYear toISODate] in H.
  rewrite series_loop_spec in H by lia. cbn [app bind] in H.
  injection H as <-. exists mi, table, s, e.
  split; [reflexivity|]. split; [reflexivity|].
  split; [exact Hm|]. split; [exact Ht|]. reflexivity.
Qed.

Lemma same_tables (marketIndex : string) :
  In marketIndex ["sp500"; "nasdaq"; "russell2000"]%string ->
  lookup marketIndex generator_historicalReturns =
    Some (select_returns marketIndex) /\
  option_map averageReturn (lookup marketIndex MARKET_INDICES) =
    Some (select_default marketIndex).
Proof.
  intros [<-|[<-|[<-|[]]]]; split; vm_compute; reflexivity.
Qed.

(** X13. A start or end date that cannot be read makes the market-series
    responder fail with the RangeError of [toISOString], for every
    recognized index: no series is returned. *)
Theorem market_series_invalid_date index start end_ :
  recognized index = true ->
  start = InvalidDate \/ end_ = InvalidDate ->
  generateRealisticMarketData index start end_ = Throw RangeError.
Proof.
  intros R H.
  destruct (recognized_cases index R) as (mi & table & Hm & Ht & _).
  unfold generateRealisticMarketData. rewrite Hm, Ht.
  destruct start as [|s]; [destruct end_; reflexivity|].
  destruct end_ as [|e]; [reflexivity|].
  destruct H; discriminate.
Qed.

Lemma market_series_invalid_date_witness :
  generateRealisticMarketData "nasdaq" (day 2020 0 1) InvalidDate =
  Throw RangeError.
Proof.
  apply market_series_invalid_date; [reflexivity|right; reflexivity].
Defined.

(** X14. Two responses of the market-series responder for one index carry the
    same entry for every year that both cover, whatever the two periods
    are. *)
Theorem market_series_entries_agree index start end_ start' end_' r r' p q :
  generateRealisticMarketData index start end_ = Normal r ->
  generateRealisticMarketData index start' end_' = Normal r' ->
  In p (r_historicalData r) -> In q (r_historicalData r') ->
  h_year p = h_year q -> p = q.
Proof.
  intros E E' Hp Hq Hy.
  destruct (response_series _ _ _ _ E)
    as (mi & table & s & e & _ & _ & Hm & Ht & D).
  destruct (response_series _ _ _ _ E')
    as (mi' & table' & s' & e' & _ & _ & Hm' & Ht' & D').
  rewrite Hm in Hm'. injection Hm' as <-.
  rewrite Ht in Ht'. injection Ht' as <-.
  rewrite D in Hp. rewrite D' in Hq.
  apply in_map_iff in Hp. destruct Hp as (y & <- & _).
  apply in_map_iff in Hq. destruct Hq as (y' & <- & _).
  cbn [series_point h_year] in Hy. now subst y'.
Qed.

Lemma market_series_entries_agree_witness :
  exists r r' p,
    generateRealisticMarketData "sp500" (day 1999 0 1) (day 2001 5 1)
      = Normal r /\
    generateRealisticMarketData "sp500" (day 2001 8 9) (day 2003 0 1)
      = Normal r' /\
    nth_error (r_historicalData r) 2 = Some p /\
    nth_error (r_historicalData r') 0 = Some p.
Proof.
  destruct (generateRealisticMarketData "sp500" (day 1999 0 1) (day 2001 5 1))
    as [r|err] eqn:E; [|vm_compute in E; discriminate].
  destruct (generateRealisticMarketData "sp500" (day 2001 8 9) (day 2003 0 1))
    as [r'|err] eqn:E'; [|vm_compute in E'; discriminate].
  destruct (nth_error (r_historicalData r) 2) as [p|] eqn:N;
    [|vm_compute in E; injection E as <-; discriminate N].
  destruct (nth_error (r_historicalData r') 0) as [q|] eqn:N';
    [|vm_compute in E'; injection E' as <-; discriminate N'].
  assert (h_year p = h_year q) as Hy.
  { vm_compute in E. injection E as <-. vm_compute in E'. injection E' as <-.
    injection N as <-. injection N' as <-. reflexivity. }
  pose proof (market_series_entries_agree _ _ _ _ _ _ _ _ _ E E'
                (nth_error_In _ _ N) (nth_error_In _ _ N') Hy) as Q.
  exists r, r', p. split; [reflexivity|]. split; [reflexivity|].
  split; [exact N|]. rewrite Q. exact N'.
Defined.

(** X15. For the S&P 500, the NASDAQ and the Russell 2000, the percentage that
    a monthly snapshot of the engine shows as the annual return of its year
    is the percentage that the market series shows for that year. *)
Theorem engine_and_series_agree principal transactions startDate endDate
    useHistoricalData marketIndex start end_ r g p q :
  In marketIndex ["sp500"; "nasdaq"; "russell2000"]%string ->
  calculateCompoundInterestWithDates principal transactions
    startDate endDate useHistoricalData marketIndex = Normal r ->
  generateRealisticMarketData marketIndex start end_ = Normal g ->
  In p (monthlyData r) -> In q (r_historicalData g) ->
  m_year p = h_year q ->
  m_annualReturn p = h_returnPercentage q.
Proof.
  intros Hi E G Hp Hq Hy.
  rewrite (monthly_annual_return _ _ _ _ _ _ _ _ E Hp).
  destruct (response_series _ _ _ _ G)
    as (mi & table & s & e & _ & _ & Hm & Ht & D).
  destruct (same_tables marketIndex Hi) as [T A].
  rewrite Ht in T. injection T as T.
  rewrite Hm in A. cbn [option_map] in A. injection A as A.
  rewrite D in Hq. apply in_map_iff in Hq. destruct Hq as (y & <- & _).
  cbn [series_point h_year h_returnPercentage] in *.
  rewrite Hy, T, A. reflexivity.
Qed.

Lemma engine_and_series_agree_witness :
  exists r g p q,
    calculateCompoundInterestWithDates 100 []
      (day 2008 10 10) (day 2009 1 20) true "russell2000" = Normal r /\
    generateRealisticMarketData "russell2000" (day 2007 0 1) (day 2008 0 1)
      = Normal g /\
    nth_error (monthlyData r) 1 = Some p /\
    nth_error (r_historicalData g) 1 = Some q /\
    m_annualReturn p = h_returnPercentage q.
Proof.
  destruct (calculateCompoundInterestWithDates 100 []
              (day 2008 10 10) (day 2009 1 20) true "russell2000")
    as [r|err] eqn:E; [|vm_compute in E; discriminate].
  destruct (generateRealisticMarketData "russell2000"
              (day 2007 0 1) (day 2008 0 1))
    as [g|err] eqn:G; [|vm_compute in G; discriminate].
  destruct (nth_error (monthlyData r) 1) as [p|] eqn:N;
    [|vm_compute in E; injection E as <-; discriminate N].
  destruct (nth_error (r_historicalData g) 1) as [q|] eqn:N';
    [|vm_compute in G; injection G as <-; discriminate N'].
  assert (m_year p = h_year q) as Hy.
  { vm_compute in E. injection E as <-. vm_compute in G. injection G as <-.
    injection N as <-. injection N' as <-. reflexivity. }
  exists r, g, p, q. split; [reflexivity|]. split; [reflexivity|].
  split; [exact N|]. split; [exact N'|].
  apply (engine_and_series_agree 100 [] (day 2008 10 10) (day 2009 1 20)
           true "russell2000" (day 2007 0 1) (day 2008 0 1) r g p q);
    [cbn; tauto|exact E|exact G| | |exact Hy].
  - exact (nth_error_In _ _ N).
  - exact (nth_error_In _ _ N').
Defined.

(* ------------------------------------------------------------------ *)
(** ** The client's reading of the transactions *)

Lemma date_ltb_spec (a b : DateFields) : date_ltb a b = true <-> date_lt a b.
Proof.
  unfold date_ltb, date_compare, date_lt.
  destruct (Z.compare_spec (dYear a) (dYear b));
    [destruct (Z.compare_spec (dMonth a) (dMonth b));
     [destruct (Z.compare_spec (dDay a) (dDay b));
      [destruct (Z.compare_spec (dMs a) (dMs b))|..]|..]|..];
    split; try discriminate; try reflexivity; lia.
Qed.

Lemma date_lt_not_later (a b : Transaction) :
  date_lt (t_date a) (t_date b) -> not_later a b.
Proof.
  intro H. apply date_gtb_false. intro H'.
  exact (date_lt_irrefl _ (date_lt_trans _ _ _ H H')).
Qed.

Lemma not_later_refl (a : Transaction) : not_later a a.
Proof. apply date_gtb_false, date_lt_irrefl. Qed.

Lemma not_later_antisym (a b : Transaction) :
  not_later a b -> not_later b a -> t_date a = t_date b.
Proof.
  unfold not_later. rewrite !date_gtb_false. intros H1 H2.
  destruct (date_lt_total (t_date a) (t_date b)) as [H|[H|H]];
    [contradiction|exact H|contradiction].
Qed.

(** The earliest transaction of the scan splits the array: the ones before
    it are strictly later, the ones after it are not earlier. *)
Lemma earliest_split (rest : list Transaction) :
  forall l1 acc l2,
    Forall (fun t => date_lt (t_date acc) (t_date t)) l1 ->
    Forall (not_later acc) l2 ->
    let f := fold_left (fun earliest transaction =>
                          if date_ltb (t_date transaction) (t_date earliest)
                          then transaction else earliest) rest acc in
    exists k1 k2,
      l1 ++ acc :: l2 ++ rest = k1 ++ f :: k2 /\
      Forall (fun t => date_lt (t_date f) (t_date t)) k1 /\
      Forall (not_later f) k2.
Proof.
  induction rest as [|t rest IH]; intros l1 acc l2 H1 H2; cbn [fold_left].
  - exists l1, l2. rewrite app_nil_r. auto.
  - destruct (date_ltb (t_date t) (t_date acc)) eqn:E.
    + apply date_ltb_spec in E.
      destruct (IH (l1 ++ acc :: l2) t []) as (k1 & k2 & Hk & F1 & F2).
      * apply Forall_app. split; [|constructor; [exact E|]].
        -- apply Forall_forall. intros x Hx. rewrite Forall_forall in H1.
           apply date_lt_trans with (t_date acc); [exact E|now apply H1].
        -- apply Forall_forall. intros x Hx. rewrite Forall_forall in H2.
           specialize (H2 x Hx). unfold not_later in H2.
           rewrite date_gtb_false in H2.
           destruct (date_lt_total (t_date t) (t_date x)) as [H|[H|H]];
             [exact H|rewrite <- H in H2; contradiction|].
           exfalso. apply H2. now apply date_lt_trans with (t_date t).
      * constructor.
      * exists k1, k2. split; [|auto]. rewrite <- Hk.
        rewrite <- app_assoc. reflexivity.
    + destruct (IH l1 acc (l2 ++ [t])) as (k1 & k2 & Hk & F1 & F2).
      * exact H1.
      * apply Forall_app. split; [exact H2|]. constructor; [|constructor].
        apply date_gtb_false. intro H. apply date_ltb_spec in H. congruence.
      * exists k1, k2. split; [|auto]. rewrite <- Hk.
        rewrite <- app_assoc. reflexivity.
Qed.

(** The latest transaction of the scan is one of the array and none of the
    array is later. *)
Lemma latest_bounds (rest : list Transaction) :
  forall acc,
    let z := fold_left (fun latest transaction =>
                          if date_gtb (t_date transaction) (t_date latest)
                          then transaction else latest) rest acc in
    In z (acc :: rest) /\ Forall (fun t => not_later t z) (acc :: rest).
Proof.
  induction rest as [|t rest IH]; intro acc; cbn [fold_left].
  - split; [now left|]. constructor; [apply not_later_refl|constructor].
  - destruct (IH (if date_gtb (t_date t) (t_date acc) then t else acc))
      as [Hin Hall].
    inversion Hall as [|? ? Ha Hr]; subst.
    destruct (date_gtb (t_date t) (t_date acc)) eqn:E.
    + split; [right; exact Hin|].
      constructor; [|constructor; assumption].
      apply not_later_trans with t; [|exact Ha].
      apply date_lt_not_later. now apply date_gtb_spec.
    + split; [destruct Hin as [<-|Hin]; [now left|now right; right]|].
      constructor; [exact Ha|]. constructor; [|exact Hr].
      apply not_later_trans with acc; [exact E|exact Ha].
Qed.

(** A transaction that nothing precedes heads the sorted list. *)
Lemma insert_head t l :
  Forall (not_later t) l -> insert_by_date t l = t :: l.
Proof.
  destruct l as [|u l]; [reflexivity|]. intro H. inversion H; subst.
  cbn [insert_by_date]. unfold not_later in *.
  match goal with H : date_gtb _ _ = false |- _ => now rewrite H end.
Qed.

Lemma sorted_head k1 f k2 :
  Forall (fun t => date_lt (t_date f) (t_date t)) k1 ->
  Forall (not_later f) k2 ->
  exists rest, sort_by_date (k1 ++ f :: k2) = f :: rest.
Proof.
  intros H1 H2. induction H1 as [|x k1 Hx _ [rest IH]].
  - exists (sort_by_date k2). cbn [app]. unfold sort_by_date.
    cbn [fold_right]. apply insert_head.
    now apply sort_by_date_forall.
  - unfold sort_by_date in *. cbn [app fold_right]. rewrite IH.
    cbn [insert_by_date].
    rewrite (proj2 (date_gtb_spec (t_date x) (t_date f)) Hx).
    eexists. reflexivity.
Qed.

Lemma sorted_last (d : Transaction) l :
  StronglySorted not_later l ->
  forall x, In x l -> not_later x (last l d).
Proof.
  induction 1 as [|a l Hs IH Ha]; intros x Hx; [destruct Hx|].
  destruct l as [|b l].
  - destruct Hx as [<-|[]]. apply not_later_refl.
  - change (last (a :: b :: l) d) with (last (b :: l) d).
    destruct Hx as [<-|Hx]; [|now apply IH].
    apply not_later_trans with b.
    + inversion Ha; assumption.
    + apply IH. now left.
Qed.

Lemma last_in {A : Type} (d : A) (l : list A) : l <> [] -> In (last l d) l.
Proof.
  induction l as [|a l IH]; [congruence|]. intros _.
  destruct l as [|b l]; [now left|].
  right. apply IH. discriminate.
Qed.

Lemma range_split transactions r :
  App.transactionDateRange transactions = Some r ->
  App.startDate r = t_date (App.firstTransaction r) /\
  App.endDate r = t_date (App.lastTransaction r) /\
  (exists k1 k2,
     transactions = k1 ++ App.firstTransaction r :: k2 /\
     Forall (fun t => date_lt (t_date (App.firstTransaction r)) (t_date t))
            k1 /\
     Forall (not_later (App.firstTransaction r)) k2) /\
  In (App.lastTransaction r) transactions /\
  Forall (fun t => not_later t (App.lastTransaction r)) transactions.
Proof.
  destruct transactions as [|t0 rest]; [discriminate|].
  unfold App.transactionDateRange. intro H. injection H as <-.
  cbn [App.startDate App.endDate App.firstTransaction App.lastTransaction].
  split; [reflexivity|]. split; [reflexivity|]. split.
  - destruct (earliest_split rest [] t0 []) as (k1 & k2 & Hk & F1 & F2);
      [constructor|constructor|].
    exists k1, k2. cbn [app] in Hk. auto.
  - apply latest_bounds.
Qed.

Lemma range_first_bounds transactions r :
  App.transactionDateRange transactions = Some r ->
  In (App.firstTransaction r) transactions /\
  Forall (not_later (App.firstTransaction r)) transactions.
Proof.
  intro H. destruct (range_split _ _ H) as (_ & _ & (k1 & k2 & -> & F1 & F2) & _).
  split; [apply in_elt|].
  apply Forall_app. split.
  - apply Forall_forall. intros x Hx. rewrite Forall_forall in F1.
    now apply date_lt_not_later, F1.
  - constructor; [apply not_later_refl|exact F2].
Qed.

(** X16. The range that the client computes: none on an empty array; otherwise
    the first and the last transaction are transactions of the array, the
    dates of the range are their dates, and no transaction is dated before
    the first or after the last. *)
Theorem date_range_bounds transactions :
  match App.transactionDateRange transactions with
  | None => transactions = []
  | Some r =>
    In (App.firstTransaction r) transactions /\
    In (App.lastTransaction r) transactions /\
    App.startDate r = t_date (App.firstTransaction r) /\
    App.endDate r = t_date (App.lastTransaction r) /\
    Forall (fun t => not_later (App.firstTransaction r) t /\
                     not_later t (App.lastTransaction r)) transactions
  end.
Proof.
  destruct (App.transactionDateRange transactions) as [r|] eqn:E.
  - destruct (range_split _ _ E) as (Hs & He & _ & Hl & Fl).
    destruct (range_first_bounds _ _ E) as [Hf Ff].
    repeat (split; [assumption|]).
    apply Forall_forall. intros t Ht. rewrite Forall_forall in Ff, Fl.
    split; [now apply Ff|now apply Fl].
  - destruct transactions; [reflexivity|discriminate].
Qed.

(** X17. The first transaction of the client's range is the one that heads the
    transactions sorted by date, which is where the quick preview and the
    engine start; the last date of the range is the date of the one that
    ends the sorted transactions. *)
Theorem range_and_sorted_transactions transactions r :
  App.transactionDateRange transactions = Some r ->
  (exists rest,
     sort_by_date transactions = App.firstTransaction r :: rest) /\
  t_date (last (sort_by_date transactions) (App.firstTransaction r)) =
    App.endDate r.
Proof.
  intro H.
  destruct (range_split _ _ H) as (_ & -> & (k1 & k2 & Hk & F1 & F2) & Hl & Fl).
  split; [rewrite Hk; now apply sorted_head|].
  set (z := last (sort_by_date transactions) (App.firstTransaction r)).
  assert (In z (sort_by_date transactions)) as Hz.
  { apply last_in. intro N.
    pose proof (Permutation_length (sort_by_date_perm transactions)) as L.
    rewrite N, Hk, length_app in L. cbn in L. lia. }
  apply not_later_antisym.
  - rewrite Forall_forall in Fl. apply Fl.
    now apply (Permutation_in _ (sort_by_date_perm transactions)).
  - apply sorted_last; [apply sort_by_date_sorted|].
    apply (Permutation_in _ (Permutation_sym (sort_by_date_perm transactions))).
    exact Hl.
Qed.

Lemma range_and_sorted_transactions_witness :
  exists r rest,
    App.transactionDateRange
      [ mkTx (mkDate 2020 2 15 0) 30 deposit;
        mkTx (mkDate 2020 1 15 0) 500 withdrawal;
        mkTx (mkDate 2020 1 15 0) 7 deposit ] = Some r /\
    App.firstTransaction r = mkTx (mkDate 2020 1 15 0) 500 withdrawal /\
    sort_by_date
      [ mkTx (mkDate 2020 2 15 0) 30 deposit;
        mkTx (mkDate 2020 1 15 0) 500 withdrawal;
        mkTx (mkDate 2020 1 15 0) 7 deposit ] =
      App.firstTransaction r :: rest.
Proof.
  destruct (App.transactionDateRange
              [ mkTx (mkDate 2020 2 15 0) 30 deposit;
                mkTx (mkDate 2020 1 15 0) 500 withdrawal;
                mkTx (mkDate 2020 1 15 0) 7 deposit ]) as [r|] eqn:E;
    [|discriminate E].
  destruct (range_and_sorted_transactions _ r E) as [[rest S] _].
  exists r, rest. split; [reflexivity|]. split; [|exact S].
  vm_compute in E. injection E as <-. reflexivity.
Defined.

(* ------------------------------------------------------------------ *)
(** ** The request of the client and the answer of the engine *)

Lemma filter_all {A : Type} (f : A -> bool) (l : list A) :
  Forall (fun x => f x = true) l -> filter f l = l.
Proof.
  induction 1 as [|x l Hx _ IH]; [reflexivity|].
  cbn [filter]. now rewrite Hx, IH.
Qed.

Lemma not_later_not_before f t :
  not_later f t ->
  before_month (dYear (t_date f)) (dMonth (t_date f)) t = false.
Proof.
  unfold before_month, not_later. rewrite date_gtb_false. unfold date_lt.
  rewrite orb_false_iff, andb_false_iff, !Z.ltb_ge, Z.eqb_neq. lia.
Qed.

(** Every transaction lies in the window that starts at the first date of
    the range, when none is dated after the end month. *)
Lemma client_window transactions r e :
  App.transactionDateRange transactions = Some r ->
  Forall (fun t => after_month (dYear e) (dMonth e) t = false) transactions ->
  filter (in_window (App.startDate r) e) transactions = transactions.
Proof.
  intros H Ha. destruct (range_split _ _ H) as (-> & _).
  destruct (range_first_bounds _ _ H) as [_ Ff].
  apply filter_all, Forall_forall. intros t Ht.
  rewrite Forall_forall in Ha, Ff. unfold in_window.
  now rewrite (not_later_not_before _ _ (Ff t Ht)), (Ha t Ht).
Qed.

(** X18. The client asks for a walk from the first date of its range, with no
    initial amount.  When no transaction is dated after the month of the
    end date, the summary that the engine returns shows as total deposits
    and total contributions the rounded total deposits of the client, and
    as total withdrawals at most the rounded total withdrawals of the
    client (month indices in 0..11, withdrawals of no negative amount). *)
Theorem client_request_totals transactions r today useHistoricalData
    marketIndex :
  App.transactionDateRange transactions = Some r ->
  wf_fields today -> Forall wf_transaction transactions ->
  Forall no_negative_withdrawal transactions ->
  Forall (fun t => after_month (dYear today) (dMonth today) t = false)
         transactions ->
  exists res,
    calculateCompoundInterestWithDates 0 transactions
      (ValidDate (App.startDate r)) (ValidDate today)
      useHistoricalData marketIndex = Normal res /\
    s_totalDeposits (summary res) =
      JS.round2 (App.totalDeposits transactions) /\
    s_totalContributions (summary res) =
      JS.round2 (App.totalDeposits transactions) /\
    0 <= s_totalWithdrawals (summary res) <=
      JS.round2 (App.totalWithdrawals transactions).
Proof.
  intros H He Ht Hn Ha. eexists. split; [reflexivity|].
  cbn [summary s_totalDeposits s_totalContributions s_totalWithdrawals
       setHoursNoon].
  assert (wf_fields (App.startDate r)) as Hs.
  { destruct (range_split _ _ H) as (-> & _).
    destruct (range_first_bounds _ _ H) as [Hin _].
    rewrite Forall_forall in Ht. now apply Ht. }
  destruct (walk_applies_window 0 transactions
              (mkDate (dYear (App.startDate r)) (dMonth (App.startDate r))
                      (dDay (App.startDate r)) 43200000)
              (mkDate (dYear today) (dMonth today) (dDay today) 43200000)
              marketIndex Hs He Ht) as (l & Hr & _ & <- & <- & <-).
  change (in_window _ _) with (in_window (App.startDate r) today) in Hr.
  rewrite (client_window _ _ _ H Ha) in Hr.
  destruct (reached_contributions 0 _ l Hr) as [C D].
  assert (totalContributions l == App.totalDeposits transactions) as C'.
  { rewrite C. unfold App.totalDeposits. rewrite sum_total.
    rewrite (deposited_perm _ _ (sort_by_date_perm transactions)).
    unfold deposited. ring. }
  split; [rewrite D; now apply round2_comp|].
  split; [now apply round2_comp|].
  destruct (reached_withdrawals 0 _ l Hr) as [W0 W1].
  { now apply sort_by_date_forall. }
  split; [now apply round2_nonneg|].
  apply round2_le. apply Qle_trans with (1 := W1).
  apply Qle_lteq. right. unfold App.totalWithdrawals. rewrite sum_total.
  rewrite (asked_back_perm _ _ (sort_by_date_perm transactions)).
  reflexivity.
Qed.

Lemma client_request_totals_witness :
  exists res,
    calculateCompoundInterestWithDates 0
      [ mkTx (mkDate 2020 2 15 0) 30 deposit;
        mkTx (mkDate 2020 1 15 0) 500 withdrawal;
        mkTx (mkDate 2019 11 15 0) 1000 deposit ]
      (ValidDate (mkDate 2019 11 15 0)) (day 2020 3 20) true "sp500"
      = Normal res /\
    s_totalDeposits (summary res) == 1030 /\
    s_totalWithdrawals (summary res) <= 500.
Proof.
  destruct (App.transactionDateRange
              [ mkTx (mkDate 2020 2 15 0) 30 deposit;
                mkTx (mkDate 2020 1 15 0) 500 withdrawal;
                mkTx (mkDate 2019 11 15 0) 1000 deposit ]) as [r|] eqn:E;
    [|discriminate E].
  destruct (client_request_totals _ r (mkDate 2020 3 20 0) true "sp500" E)
    as (res & C & D & _ & _ & W).
  - unfold wf_fields. cbn. lia.
  - repeat constructor; unfold wf_transaction, wf_fields; cbn; lia.
  - repeat constructor; unfold no_negative_withdrawal; cbn; intros _; lra.
  - repeat constructor.
  - vm_compute in E. injection E as <-.
    exists res. split; [exact C|]. split.
    + rewrite D. vm_compute. reflexivity.
    + apply Qle_trans with (1 := W). vm_compute. discriminate.
Defined.

(** X19. The quick preview counts the months from the month of the first
    transaction to the current month, and the engine walks each of them:
    when the first transaction is not dated after the current month, the
    walk that starts at the first date of the range makes one pass more
    than the months of the preview, which are split into years and fewer
    than twelve remaining months. *)
Theorem preview_counts_one_month_less principal transactions r today
    years remainingMonths useHistoricalData marketIndex res :
  App.transactionDateRange transactions = Some r ->
  wf_fields today -> Forall wf_transaction transactions ->
  after_month (dYear today) (dMonth today) (App.firstTransaction r) = false ->
  CompoundCalculator.investmentPeriod transactions today =
    Some (years, remainingMonths) ->
  calculateCompoundInterestWithDates principal transactions
    (ValidDate (App.startDate r)) (ValidDate today)
    useHistoricalData marketIndex = Normal res ->
  (0 <= years /\ 0 <= remainingMonths < 12)%Z /\
  p_totalMonths (s_investmentPeriod (summary res)) =
    (12 * years + remainingMonths + 1)%Z /\
  Z.of_nat (length (monthlyData res)) =
    (12 * years + remainingMonths + 1)%Z.
Proof.
  intros H He Ht Ha P E.
  destruct (range_split _ _ H) as (Sd & _ & (k1 & k2 & Hk & F1 & F2) & _).
  assert (wf_fields (App.startDate r)) as Hs.
  { rewrite Sd. destruct (range_first_bounds _ _ H) as [Hin _].
    rewrite Forall_forall in Ht. now apply Ht. }
  destruct (sorted_head k1 _ k2 F1 F2) as [rest S]. rewrite <- Hk in S.
  unfold CompoundCalculator.investmentPeriod in P. rewrite S in P.
  injection P as <- <-. rewrite <- Sd.
  pose proof (walk_count principal transactions marketIndex
                (App.startDate r) today Hs He) as [L M].
  unfold calculateCompoundInterestWithDates in E.
  cbn [setHoursNoon toISODate bind] in E. injection E as <-.
  cbn [summary s_investmentPeriod p_totalMonths monthlyData].
  cbn [setHoursNoon] in L, M. rewrite L, M. clear L M.
  unfold months_left. unfold wf_fields in Hs, He.
  unfold after_month in Ha. rewrite <- Sd in Ha.
  rewrite orb_false_iff, andb_false_iff, !Z.ltb_ge, Z.eqb_neq in Ha.
  set (months := ((dYear today - dYear (App.startDate r)) * 12 +
                  (dMonth today - dMonth (App.startDate r)))%Z).
  assert (0 <= months)%Z as Hm by (subst months; lia).
  rewrite (Z.rem_mod_nonneg months 12) by lia.
  pose proof (Z.div_mod months 12 ltac:(lia)) as Dm.
  pose proof (Z.mod_pos_bound months 12 ltac:(lia)) as Bm.
  assert (0 <= months / 12)%Z as Hy by (apply Z.div_pos; lia).
  split; [lia|].
  replace (12 * (dYear today - dYear (App.startDate r)) +
           (dMonth today - dMonth (App.startDate r)) + 1)%Z
    with (months + 1)%Z by (subst months; lia).
  split; lia.
Qed.

Lemma preview_counts_one_month_less_witness :
  exists res,
    calculateCompoundInterestWithDates 0
      [ mkTx (mkDate 2020 2 15 0) 30 deposit;
        mkTx (mkDate 2018 10 15 0) 500 deposit ]
      (ValidDate (mkDate 2018 10 15 0)) (day 2020 3 20) true "sp500"
      = Normal res /\
    CompoundCalculator.investmentPeriod
      [ mkTx (mkDate 2020 2 15 0) 30 deposit;
        mkTx (mkDate 2018 10 15 0) 500 deposit ] (mkDate 2020 3 20 0)
      = Some (1, 5)%Z /\
    length (monthlyData res) = 18%nat.
Proof.
  destruct (App.transactionDateRange
              [ mkTx (mkDate 2020 2 15 0) 30 deposit;
                mkTx (mkDate 2018 10 15 0) 500 deposit ]) as [r|] eqn:E;
    [|discriminate E].
  destruct (calculateCompoundInterestWithDates 0
              [ mkTx (mkDate 2020 2 15 0) 30 deposit;
                mkTx (mkDate 2018 10 15 0) 500 deposit ]
              (ValidDate (App.startDate r)) (day 2020 3 20) true "sp500")
    as [res|err] eqn:C;
    [|vm_compute in E; injection E as <-; vm_compute in C; discriminate C].
  assert (CompoundCalculator.investmentPeriod
            [ mkTx (mkDate 2020 2 15 0) 30 deposit;
              mkTx (mkDate 2018 10 15 0) 500 deposit ] (mkDate 2020 3 20 0)
          = Some (1, 5)%Z) as P by reflexivity.
  destruct (preview_counts_one_month_less 0 _ r (mkDate 2020 3 20 0) 1 5
              true "sp500" res E) as (_ & _ & L).
  - unfold wf_fields. cbn. lia.
  - repeat constructor; unfold wf_transaction, wf_fields; cbn; lia.
  - vm_compute in E. injection E as <-. reflexivity.
  - exact P.
  - exact C.
  - vm_compute in E. injection E as <-.
    exists res. split; [exact C|]. split; [exact P|]. lia.
Defined.
